(** * Care-Web-Platform: extraction and identity-resolution pipeline

    A shallow embedding of the batch pipeline of the wildlife cataloguing
    tool: the detector wrapper ([app/detection_model/detection.py]), the
    identity resolver ([app/detection_model/ReID.py]) and the extraction
    worker ([app/app_pages/UploadPage.py]), together with the properties
    the specification states about them; then the pages around them: the
    thumbnails, the storing of the processed images and the progress bar of
    the upload page, and the re-identification run of the database page
    ([app/app_pages/DatabasePage.py]).

    Conventions.
    - A Python [dict] is an association list in insertion order with
      distinct keys ([Py.dict]).
    - A Python list updated by index is a [list] with stdpp's lookup and
      insert; an index out of range is an error ([None]), as Python raises.
    - Code that can raise returns [option]; [None] stands for the exception.
    - The neural networks, OpenCV, the clock and the file system are
      parameters of the sections that use them. *)

From Stdlib Require Import ZArith QArith Qcanon Qround Lia Ascii.
From Stdlib Require PrimFloat FloatOps SpecFloat Uint63.
From stdpp Require Import base tactics option list numbers strings pretty.

Open Scope Z_scope.

(** ** Python and numpy primitives *)

Module Py.

(** *** [np.argmin] and [np.argmax]: index of the first extreme entry *)
Section argbest.
Context {A : Type} (better : A → A → bool).

(** One scan from the left, keeping the best entry seen so far and
    replacing it only by a strictly better one: the first occurrence
    of the extreme value wins. *)
Fixpoint argbest_from (best_i : nat) (best : A) (i : nat) (l : list A) : nat :=
  match l with
  | [] => best_i
  | x :: l' =>
      if better x best then argbest_from i x (S i) l'
      else argbest_from best_i best (S i) l'
  end.

(** On an empty array numpy raises [ValueError]. *)
Definition argbest (l : list A) : option nat :=
  match l with
  | [] => None
  | x :: l' => Some (argbest_from 0 x 1 l')
  end.
End argbest.

(** *** [dict]: insertion-ordered association list *)
Definition dict (K V : Type) : Type := list (K * V).

Section dict.
Context {K V : Type} `{EqDecision K}.

(** [d[k]]; [None] is [KeyError]. *)
Fixpoint dict_get (k : K) (d : dict K V) : option V :=
  match d with
  | [] => None
  | (k', v) :: d' => if decide (k = k') then Some v else dict_get k d'
  end.

(** [d[k] = v]: an existing key keeps its position, a new key goes last. *)
Fixpoint dict_set (k : K) (v : V) (d : dict K V) : dict K V :=
  match d with
  | [] => [(k, v)]
  | (k', v') :: d' =>
      if decide (k = k') then (k, v) :: d' else (k', v') :: dict_set k v d'
  end.

(** [k in d] *)
Definition dict_mem (k : K) (d : dict K V) : bool :=
  match dict_get k d with Some _ => true | None => false end.
End dict.

(** *** Strings *)

(** [s.split(sep)] for a one-character separator: the pieces between the
    separators, never an empty list. *)
Fixpoint split (sep : ascii) (s : string) : list string :=
  match s with
  | EmptyString => [EmptyString]
  | String c s' =>
      if decide (c = sep) then EmptyString :: split sep s'
      else match split sep s' with
           | [] => [String c EmptyString]
           | p :: ps => String c p :: ps
           end
  end.

(** [l[-1]]; [None] is [IndexError]. *)
Definition index_last {A : Type} (l : list A) : option A := last l.

(** [s.rsplit(sep, 1)]: split once, at the last separator. *)
Fixpoint rsplit1 (sep : ascii) (s : string) : list string :=
  match s with
  | EmptyString => [EmptyString]
  | String c s' =>
      match rsplit1 sep s' with
      | [p; q] => [String c p; q]
      | _ => if decide (c = sep) then [EmptyString; s'] else [s]
      end
  end.

(** [sep.join(pieces)] *)
Fixpoint join (sep : ascii) (pieces : list string) : string :=
  match pieces with
  | [] => ""
  | [p] => p
  | p :: ps => p +:+ String sep (join sep ps)
  end.

(** [sep in s] *)
Fixpoint occurs (sep : ascii) (s : string) : bool :=
  match s with
  | EmptyString => false
  | String c s' => bool_decide (c = sep) || occurs sep s'
  end.

(** [str(i)] for an integer. *)
Definition str (i : Z) : string := pretty i.

End Py.

(** ** Floating-point arithmetic of the interpreter

    The operations of Python's [float] (IEEE-754 binary64) that the progress
    computations use, as an interface.  [binary64] instantiates it with
    Rocq's primitive floats, which are binary64 with round-to-nearest-even,
    and [exact] with the rationals. *)

(** [of_int i] is [float(i)]; [int_truediv a b] is [a / b] on two integers
    with [b] nonzero, the correctly rounded quotient; [fmul x y] is [x * y];
    [to_int x] is [int(x)], truncation toward zero; [fltb] and [fleb] are
    [x < y] and [x <= y]. *)
Class PyFloat (F : Type) := {
  of_int : Z → F;
  int_truediv : Z → Z → F;
  fmul : F → F → F;
  to_int : F → Z;
  fltb : F → F → bool;
  fleb : F → F → bool;
}.

Definition fle `{PyFloat F} (x y : F) : Prop := fleb x y = true.

(** [a / b] on integers raises [ZeroDivisionError] when [b] is zero. *)
Definition py_truediv `{PyFloat F} (a b : Z) : option F :=
  if decide (b = 0) then None else Some (int_truediv a b).

Module Binary64.
Import PrimFloat.

(** [float(z)], for an integer below 2^63 in magnitude. *)
Definition b64_of_int (z : Z) : float :=
  match z with
  | Z0 => zero
  | Zpos _ => of_uint63 (Uint63.of_Z z)
  | Zneg p => opp (of_uint63 (Uint63.of_Z (Zpos p)))
  end.

(** The integer part of a finite float [(-1)^s * m * 2^e]. *)
Definition b64_to_int (x : float) : Z :=
  match FloatOps.Prim2SF x with
  | SpecFloat.S754_finite s m e =>
      let a := match e with
               | Zneg k => Z.shiftr (Zpos m) (Zpos k)
               | _ => Z.shiftl (Zpos m) e
               end in
      if s then - a else a
  | _ => 0
  end.

(** For integers below 2^53 in magnitude the conversions are exact, so the
    rounded quotient of the floats is the rounded quotient of the integers. *)
Definition b64_truediv (a b : Z) : float := div (b64_of_int a) (b64_of_int b).
End Binary64.

Definition binary64 : PyFloat PrimFloat.float := {|
  of_int := Binary64.b64_of_int;
  int_truediv := Binary64.b64_truediv;
  fmul := PrimFloat.mul;
  to_int := Binary64.b64_to_int;
  fltb := PrimFloat.ltb;
  fleb := PrimFloat.leb;
|}.

(** Arithmetic without rounding, on the rationals. *)
Module Exact.
(** The integer part of [n / d]. *)
Definition trunc (q : Qc) : Z := Z.quot (Qnum q) (Zpos (Qden q)).
Definition truediv (a b : Z) : Qc := (Qc_of_Z a / Qc_of_Z b)%Qc.
(** [x // y] and [x % y] for a positive [y]. *)
Definition floordiv (x y : Qc) : Qc := Qc_of_Z (Qfloor (x / y)%Qc).
Definition fmod (x y : Qc) : Qc := (x - y * floordiv x y)%Qc.
(** [round(x)]: to the nearest integer, a tie to the even one. *)
Definition round (x : Qc) : Z :=
  let f := Qfloor x in
  let d := (x - Qc_of_Z f)%Qc in
  let half := (Qc_of_Z 1 / Qc_of_Z 2)%Qc in
  if decide (d < half)%Qc then f
  else if decide (half < d)%Qc then f + 1
  else if Z.even f then f else f + 1.
(** [f"{x:.3f}"] for a nonnegative [x]. *)
Definition format_3f (x : Qc) : string :=
  let m := round (x * Qc_of_Z 1000)%Qc in
  pretty (m `div` 1000) +:+ "." +:+ pretty ((m `mod` 1000) `div` 100)
    +:+ pretty ((m `mod` 100) `div` 10) +:+ pretty (m `mod` 10).
End Exact.

Definition exact : PyFloat Qc := {|
  of_int := Qc_of_Z;
  int_truediv := Exact.truediv;
  fmul := Qcmult;
  to_int := Exact.trunc;
  fltb := λ x y, bool_decide (x < y)%Qc;
  fleb := λ x y, bool_decide (x ≤ y)%Qc;
|}.

(** Laws of an arithmetic without rounding error, under which the progress
    computation gives the exact integer part.  The rationals satisfy them
    ([exact_laws] below); binary64 does not, and what it computes is found
    by evaluation. *)
Class PyFloatLaws (F : Type) `{PyFloat F} : Prop := {
  truediv_mono a b n : 0 ≤ a ≤ b → 0 < n → fle (int_truediv a n) (int_truediv b n);
  truediv_same n : 0 < n → int_truediv n n = of_int 1;
  truediv_zero n : 0 < n → int_truediv 0 n = of_int 0;
  fmul_mono x y k : 0 ≤ k ≤ 100 → fle x y → fle (fmul x (of_int k)) (fmul y (of_int k));
  fmul_of_int a b :
    0 ≤ a ≤ 1 → 0 ≤ b ≤ 100 → fmul (of_int a) (of_int b) = of_int (a * b);
  to_int_of_int k : 0 ≤ k ≤ 100 → to_int (of_int k) = k;
  to_int_mono x y : fle (of_int 0) x → fle x y → fle y (of_int 100) → to_int x ≤ to_int y;
}.

(** ** Identity resolution: [app/detection_model/ReID.py] *)

Module ReID.
Import Py.

(** A distance [1 - cosine_similarity] is a float32 that the code only
    compares ([np.argmin], [np.argmax]) and copies; it is represented by
    an integer under an order-preserving encoding (NaN excluded). *)
Definition argmin : list Z → option nat := argbest Z.ltb.
Definition argmax : list Z → option nat := argbest Z.gtb.

(** The self-match suppression at the end of [compute_distances]:
    [list_of_dist[np.argmin(list_of_dist)] = list_of_dist[np.argmax(list_of_dist)]]. *)
Definition suppress (list_of_dist : list Z) : option (list Z) :=
  j ← argmax list_of_dist;
  v ← list_of_dist !! j;
  i ← argmin list_of_dist;
  Some (<[i := v]> list_of_dist).

Section compute_distances.
(** [image] is a preprocessed tensor and [dist q g] the value of
    [1 - F.cosine_similarity(model(q)[2], model(g)[2])]. *)
Context {image : Type} (dist : image → image → Z).

Definition compute_distances (query_image : image) (gallery_images : list image)
    (is_duplicate : bool) : option (list Z) :=
  let list_of_dist := map (dist query_image) gallery_images in
  if is_duplicate then suppress list_of_dist else Some list_of_dist.
End compute_distances.

(** The resolver's variables: [output_dict], [keys] (with [-1] for a row
    that has no cluster yet) and [counter]. *)
Record resolver := {
  output_dict : dict Z (list nat);
  keys : list Z;
  counter : Z;
}.

(** [d[k].append(x)] *)
Definition dict_append (k : Z) (x : nat) (d : dict Z (list nat)) : option (dict Z (list nat)) :=
  l ← dict_get k d; Some (dict_set k (l ++ [x]) d).

(** The body of the loop of [process_dist_mat] for row index [r]. *)
Definition visit (row : list Z) (r : nat) (s : resolver) : option resolver :=
  matched_index ← argmin row;
  kr ← keys s !! r;
  km ← keys s !! matched_index;
  if bool_decide (kr = -1) && bool_decide (km = -1) then
    let od := dict_set (counter s) [r] (output_dict s) in
    let ks := <[r := counter s]> (keys s) in
    kr' ← ks !! r;
    od' ← dict_append kr' matched_index od;
    Some {| output_dict := od';
            keys := <[matched_index := counter s]> ks;
            counter := counter s + 1 |}
  else if bool_decide (kr = -1) && negb (bool_decide (km = -1)) then
    od' ← dict_append km r (output_dict s);
    Some {| output_dict := od'; keys := <[r := km]> (keys s); counter := counter s |}
  else if negb (bool_decide (kr = -1)) && bool_decide (km = -1) then
    od' ← dict_append kr matched_index (output_dict s);
    Some {| output_dict := od'; keys := <[matched_index := kr]> (keys s);
            counter := counter s |}
  else Some s.

(** [for r in range(len(dist_mat))], from row [r] on; [rows] are the rows
    [dist_mat[r:]]. *)
Fixpoint visit_rows (rows : list (list Z)) (r : nat) (s : resolver) : option resolver :=
  match rows with
  | [] => Some s
  | row :: rows' => s' ← visit row r s; visit_rows rows' (S r) s'
  end.

Definition init (number_of_images : nat) : resolver :=
  {| output_dict := []; keys := replicate number_of_images (-1); counter := 0 |}.

Definition process_dist_mat (dist_mat : list (list Z)) : option (dict Z (list nat)) :=
  output_dict <$> visit_rows dist_mat 0 (init (length dist_mat)).

(** [list_of_img_names]: [image_names[img]] for each member. *)
Definition names_of (image_names : list string) (list_of_imgs : list nat) : option (list string) :=
  mapM (λ img, image_names !! img) list_of_imgs.

(** The second loop of [format_output_dict], over [output_dict.items()]. *)
Fixpoint format_items (image_names : list string) (items : list (Z * list nat))
    (out : dict string (list string)) : option (dict string (list string)) :=
  match items with
  | [] => Some out
  | (id, list_of_imgs) :: items' =>
      let id' := "ID-" +:+ str id in
      list_of_img_names ← names_of image_names list_of_imgs;
      format_items image_names items'
        (if dict_mem id' out then out else dict_set id' list_of_img_names out)
  end.

(** [img_path.split("/")[-1]] *)
Definition img_name (img_path : string) : option string :=
  index_last (split "/" img_path).

Definition format_output_dict (image_paths : list string) (output_dict : dict Z (list nat))
    : option (dict string (list string)) :=
  image_names ← mapM img_name image_paths;
  format_items image_names output_dict [].

Section main.
Context `{PyFloat F}.
(** [load_and_preprocess_image] ([None] when the file cannot be opened)
    and the distance between the embeddings of two tensors. *)
Context {image : Type} (load_and_preprocess_image : string → option image)
        (dist : image → image → Z).

(** The value passed to the progress callback after row [index]:
    [int((index + 1) / len(image_path_list) * 100)]. *)
Definition progress_value (index n : nat) : option Z :=
  q ← py_truediv (Z.of_nat index + 1) (Z.of_nat n);
  Some (to_int (fmul q (of_int 100))).

(** The loop that fills [distance_mat] and reports progress; the
    arguments of the callback are collected in order.  [progress] is
    computed whether or not a callback was given. *)
Fixpoint distance_rows (n : nat) (gallery_images : list image)
    (progress_callback : bool) (query_images : list image) (index : nat)
    : option (list (list Z) * list Z) :=
  match query_images with
  | [] => Some ([], [])
  | q :: rest =>
      d ← compute_distances dist q gallery_images true;
      progress ← progress_value index n;
      '(mat, calls) ← distance_rows n gallery_images progress_callback rest (S index);
      Some (d :: mat, if progress_callback then progress :: calls else calls)
  end.

(** [main(image_path_list, progress_callback)]: the calls made to the
    callback and the returned dictionary.  [progress_callback] tells
    whether the caller passed one. *)
Definition main (image_path_list : list string) (progress_callback : bool)
    : option (list Z * dict string (list string)) :=
  query_images ← mapM load_and_preprocess_image image_path_list;
  gallery_images ← mapM load_and_preprocess_image image_path_list;
  '(distance_mat, calls) ←
     distance_rows (length image_path_list) gallery_images progress_callback
       query_images 0;
  id_dict ← process_dist_mat distance_mat;
  output_dict ← format_output_dict image_path_list id_dict;
  Some (calls, output_dict).
End main.

End ReID.

(** ** The resolver as the specification words it (section 4.3)

    [owner[i]] is either unassigned or a cluster id; the cluster mapping
    lists the members of each id in the order they were added; ids are
    allocated from a counter that starts at 0. *)

Module Resolver_spec.
Import Py.

Record state := {
  owner : list (option Z);
  clusters : dict Z (list nat);
  next_id : Z;
}.

(** "ties broken by lowest index": the first position holding a value
    that no entry of the row is below. *)
Definition first_min (row : list Z) : option nat :=
  fst <$> list_find (λ x, Forall (λ y, x ≤ y) row) row.

(** "add i to cluster c" *)
Definition add_member (c : Z) (i : nat) (cl : dict Z (list nat)) : dict Z (list nat) :=
  (λ e, if decide (e.1 = c) then (e.1, e.2 ++ [i]) else e) <$> cl.

(** The case analysis on [(owner[r], owner[m])]. *)
Definition step (m r : nat) (t : state) : state :=
  match owner t !! r, owner t !! m with
  | Some None, Some None =>
      let c := next_id t in
      {| owner := <[m := Some c]> (<[r := Some c]> (owner t));
         clusters := clusters t ++ [(c, [r; m])];
         next_id := c + 1 |}
  | Some None, Some (Some c) =>
      {| owner := <[r := Some c]> (owner t);
         clusters := add_member c r (clusters t);
         next_id := next_id t |}
  | Some (Some c), Some None =>
      {| owner := <[m := Some c]> (owner t);
         clusters := add_member c m (clusters t);
         next_id := next_id t |}
  | _, _ => t
  end.

(** Rows in index order, each matched to its first minimum. *)
Fixpoint resolve_rows (rows : list (list Z)) (r : nat) (t : state) : state :=
  match rows with
  | [] => t
  | row :: rows' =>
      resolve_rows rows' (S r)
        (match first_min row with Some m => step m r t | None => t end)
  end.

Definition start (n : nat) : state :=
  {| owner := replicate n None; clusters := []; next_id := 0 |}.

Definition resolve (matrix : list (list Z)) : dict Z (list nat) :=
  clusters (resolve_rows matrix 0 (start (length matrix))).

(** An [n]-by-[n] matrix. *)
Definition square (matrix : list (list Z)) : Prop :=
  Forall (λ row, length row = length matrix) matrix.

(** The first minimum of row [i] of a matrix. *)
Definition row_min (matrix : list (list Z)) (i : nat) : option nat :=
  matrix !! i ≫= first_min.

(** Index [i] is listed in the cluster of id [c]. *)
Definition in_cluster (cl : dict Z (list nat)) (c : Z) (i : nat) : Prop :=
  ∃ l, (c, l) ∈ cl ∧ i ∈ l.

(** The number of times [i] is listed, over all member lists. *)
Definition occurrences (i : nat) (cl : dict Z (list nat)) : nat :=
  length (filter (λ x, x = i) (concat cl.*2)).

(** Row [i] is matched to itself and no earlier row was matched to it;
    [fm j] is the first minimum of row [j]. *)
Definition self_matched (fm : nat → option nat) (i : nat) : Prop :=
  fm i = Some i ∧ ∀ j, (j < i)%nat → fm j ≠ Some i.

(** The state after the rows below [r] of an [n]-row matrix: ids are
    [0 .. next_id - 1] in order, [owner] says in which cluster an index
    is listed, and every visited row has an owner. *)
Record wf (n r : nat) (t : state) : Prop := {
  wf_len : length (owner t) = n;
  wf_next : 0 ≤ next_id t;
  wf_ids : (clusters t).*1 = seqZ 0 (next_id t);
  wf_owner i c : owner t !! i = Some (Some c) ↔ in_cluster (clusters t) c i;
  wf_visited i : (i < r)%nat → (i < n)%nat → ∃ c, owner t !! i = Some (Some c);
}.

(** How often the indices are listed after the rows below [r]. *)
Record counted (fm : nat → option nat) (r : nat) (t : state) : Prop := {
  cnt_none i j : owner t !! i = Some None → (j < r)%nat → fm j ≠ Some i;
  cnt_twice i c : owner t !! i = Some (Some c) → self_matched fm i →
                  occurrences i (clusters t) = 2%nat;
  cnt_once i c : owner t !! i = Some (Some c) → ¬ self_matched fm i →
                 occurrences i (clusters t) = 1%nat;
  cnt_ahead i c : owner t !! i = Some (Some c) → (r ≤ i)%nat →
                  ∃ j, (j < r)%nat ∧ fm j = Some i;
}.

(** The code's [keys] holds [-1] where [owner] is unassigned. *)
Definition encode (o : option Z) : Z := default (-1) o.

Definition abs (s : ReID.resolver) (t : state) : Prop :=
  ReID.keys s = encode <$> owner t
  ∧ ReID.output_dict s = clusters t
  ∧ ReID.counter s = next_id t.
End Resolver_spec.

(** ** The assembler and the progress values as the specification words them *)

Module Assembler_spec.
Import Py.

(** [f] is the final [sep]-separated component of [p]. *)
Definition final_component (sep : ascii) (p f : string) : Prop :=
  occurs sep f = false ∧ (p = f ∨ ∃ d, p = d +:+ String sep f).

(** One entry of the result: the label ["ID-" + cluster_id] and the
    references of the members, in their order. *)
Definition assembled (names : list string) (e : Z * list nat) : string * list string :=
  ("ID-" +:+ str e.1, (λ i, names !!! i) <$> e.2).
End Assembler_spec.

Module Progress_spec.
Section percent.
Context `{PyFloat F}.

(** The value reported after row [i] of [n], in the interpreter's
    arithmetic. *)
Definition percent (n i : nat) : Z :=
  to_int (fmul (int_truediv (Z.of_nat i + 1) (Z.of_nat n)) (of_int 100)).

(** The callback arguments for rows [index, index+1, ...]. *)
Definition calls_from (n index count : nat) : list Z :=
  percent n <$> seq index count.
End percent.

(** The value the specification's formula gives with exact arithmetic:
    the integer part of [(i + 1) / n * 100]. *)
Definition exact_percent (n i : nat) : Z :=
  ((Z.of_nat i + 1) * 100) `div` Z.of_nat n.
End Progress_spec.

(** ** Detection: [app/detection_model/detection.py] *)

Module Detection.
Import Py.

(** [a[lo:hi]] for integer bounds: a negative bound counts from the end,
    and both are clamped to the length. *)
Definition slice {A : Type} (lo hi : Z) (a : list A) : list A :=
  let n := Z.of_nat (length a) in
  let norm x := if decide (x < 0) then Z.max (x + n) 0 else Z.min x n in
  take (Z.to_nat (norm hi - norm lo)) (drop (Z.to_nat (norm lo)) a).

Section detection.
Context `{PyFloat F}.
(** An image is an array of rows of pixels (the channel axis is kept
    whole inside [pixel]). *)
Context {pixel : Type}.
Local Abbreviation image := (list (list pixel)).
(** [round] on a float, the text of [f"{x:.3f}"], and the three OpenCV
    drawing calls of [draw_bounding_box]. *)
Context (py_round : F → Z) (format_3f : F → string)
        (cv2_rectangle : image → Z * Z → Z * Z → Z * Z * Z → Z → image)
        (cv2_getTextSize : string → Z * Z)
        (cv2_putText : image → string → Z * Z → image).

(** One row of [prediction.boxes]: the corners, the confidence and the
    class id of a detected box. *)
Record box := { xyxy : F * F * F * F; conf : F; cls : F }.
(** What the code reads of [yolo(image)[0]]. *)
Record prediction := { names : dict Z string; boxes : list box }.

Definition rounded (bbox : F * F * F * F) : Z * Z * Z * Z :=
  let '(x1, y1, x2, y2) := bbox in
  (py_round x1, py_round y1, py_round x2, py_round y2).

Definition draw_bounding_box (img : image) (bbox : F * F * F * F) (confidence : F) : image :=
  let '(x1, y1, x2, y2) := rounded bbox in
  let img := cv2_rectangle img (x1, y1) (x2, y2) (0, 0, 255) 25 in
  let label := "Conf: " +:+ format_3f confidence in
  let '(w, h) := cv2_getTextSize label in
  let text_x := x1 in
  let text_y := if decide (y1 - 10 > 10) then y1 - 10 else y1 + 20 in
  let img := cv2_rectangle img (text_x, text_y - h - 5) (text_x + w, text_y + 5)
               (0, 0, 255) (-1) in
  cv2_putText img label (text_x, text_y).

(** [image[y1:y2, x1:x2, :]] *)
Definition crop_image (img : image) (bbox : F * F * F * F) : image :=
  let '(x1, y1, x2, y2) := rounded bbox in
  slice x1 x2 <$> slice y1 y2 img.

(** [np.argmax] on the confidences. *)
Definition argmax : list F → option nat := argbest (λ x best, fltb best x).

(** [make_inference_detection]; the inner [None] is the returned tuple
    of four [None]s, the outer one an exception. *)
Definition make_inference_detection (yolo : image → prediction) (img : image)
    : option (option (image * image * string * F)) :=
  let prediction := yolo img in
  let class_dict := names prediction in
  let array_of_confidences := conf <$> boxes prediction in
  let array_of_labels := cls <$> boxes prediction in
  if decide (length array_of_confidences = 0%nat) then Some None
  else
    max_conf_index ← argmax array_of_confidences;
    max_conf ← array_of_confidences !! max_conf_index;
    c ← array_of_labels !! max_conf_index;
    label ← dict_get (to_int c) class_dict;
    bounding_box ← (xyxy <$> boxes prediction) !! 0%nat;
    let image_with_box := draw_bounding_box img bounding_box max_conf in
    let image_with_crop := crop_image img bounding_box in
    Some (Some (image_with_box, image_with_crop, label, max_conf)).

(** The loop of [main], [for image in images]: the detections of the
    images that have one. *)
Fixpoint detections (yolo : image → prediction) (images : list image)
    : option (list (image * image * string * F)) :=
  match images with
  | [] => Some []
  | img :: images' =>
      d ← make_inference_detection yolo img;
      image_with_boxes ← detections yolo images';
      Some (match d with
            | Some t => t :: image_with_boxes
            | None => image_with_boxes
            end)
  end.

(** The path of [best_50.pt] next to the module, [os.path.exists], and
    [YOLO(model_path).to("cpu")]: the model loaded from a file, [None]
    when loading raises. *)
Context (model_path : string) (os_path_exists : string → bool)
        (YOLO : string → option (image → prediction)).

(** [main(images)]: [FileNotFoundError] when the model file is missing,
    before any image is looked at. *)
Definition main (images : list image) : option (list (image * image * string * F)) :=
  if negb (os_path_exists model_path) then None
  else
    yolo ← YOLO model_path;
    detections yolo images.
End detection.
Arguments box : clear implicits.
Arguments prediction : clear implicits.
End Detection.

(** The floats of [l] are numbers: none is NaN ([x <= x] holds of each),
    and [<] orders them as numbers are ordered: never [x < x]; [x < y] and
    [y < z] give [x < z]; and when [x < y], any [z] has [x < z] or
    [z < y].  Every list of binary64 values without a NaN is such a list;
    for a given list the condition is checked by evaluation. *)
Module Detection_spec.
Section numbers.
Context `{PyFloat F}.

Definition ordered (x y z : F) : bool :=
  implb (fltb x y && fltb y z) (fltb x z)
  && implb (fltb x y) (fltb x z || fltb z y).

Definition numbers (l : list F) : bool :=
  forallb (λ x, fleb x x && negb (fltb x x)
                && forallb (λ y, forallb (ordered x y) l) l) l.
End numbers.
End Detection_spec.

(** ** Extraction: [app/app_pages/UploadPage.py] *)

Module UploadPage.
Import Py.

(** [max_workers], from the number of cores. *)
Definition max_workers (num_cores : Z) : Z :=
  if decide (num_cores > 1) then num_cores `div` 2 else 1.

(** An entry of [self.images]: [(image_path, _, _, group_name)]; the two
    middle components are never read by the worker. *)
Record entry := { image_path : string; group_name : string }.

(** What a task returns on success:
    [(bbox_image_path, crop_image_path, confidence, group_name)]. *)
Definition processed (F : Type) : Type := string * string * F * string.

(** The signals of [ImageProcessingWorker]. *)
Inductive signal (F : Type) :=
  | progress (count : Z) (text : string)
  | result_ready (images : list (processed F))
  | processing_complete.
Arguments progress {F}.
Arguments result_ready {F}.
Arguments processing_complete {F}.

Section worker.
Context `{PyFloat F}.
Context {pixel : Type}.
Local Abbreviation image := (list (list pixel)).
(** The detector with its drawing primitives, its model file and the
    loading of the model (see [Detection]). *)
Context (py_round : F → Z) (format_3f : F → string)
        (cv2_rectangle : image → Z * Z → Z * Z → Z * Z * Z → Z → image)
        (cv2_getTextSize : string → Z * Z)
        (cv2_putText : image → string → Z * Z → image)
        (model_path : string) (os_path_exists : string → bool)
        (YOLO : string → option (image → Detection.prediction F)).
(** The file system and the clock: [cv2.imread] ([None] when the file
    cannot be read); [cv2.imwrite], which returns whether the file was
    written and raises ([None] here) on an image it cannot encode, such as
    an empty one; [cv2.resize]; [os.makedirs], which raises when the
    directory cannot be made; [os.path], with [os.path.join] on three and
    on two components; the text of
    [datetime.now().strftime("%Y%m%d_%H%M%S")] when task [index] runs,
    and the value of [time.time()] at the [k]-th call made by [run]. *)
Context (cv2_imread : string → option image)
        (cv2_imwrite : string → image → option bool)
        (cv2_resize : image → Z * Z → image)
        (os_makedirs : string → option unit)
        (os_path_basename : string → string)
        (os_path_splitext : string → string * string)
        (os_path_join : string → string → string → string)
        (os_path_join2 : string → string → string)
        (upload_date : nat → string)
        (time_time : nat → F).
(** Float subtraction, division, floor division and remainder. *)
Context (fsub fdiv ffloordiv fmod : F → F → F).

Definition detection_main : list image → option (list (image * image * string * F)) :=
  Detection.main py_round format_3f cv2_rectangle cv2_getTextSize cv2_putText
    model_path os_path_exists YOLO.

(** [generate_thumbnail] of [app/util/generate_thumbnail.py], with the
    default size: [cv2.resize] raises on the [None] that [cv2.imread]
    returns for a file it cannot read. *)
Definition generate_thumbnail (image_path thumbnail_dir : string) : option string :=
  match cv2_imread image_path with
  | None => None
  | Some image =>
      let thumbnail := cv2_resize image (150, 150) in
      _ ← (if negb (os_path_exists thumbnail_dir) then os_makedirs thumbnail_dir
           else Some ());
      let filename := os_path_basename image_path in
      let thumbnail_path := os_path_join2 thumbnail_dir filename in
      _ ← cv2_imwrite thumbnail_path thumbnail;
      Some thumbnail_path
  end.

(** [process_image_func]; the inner [None] is the returned [None], the
    outer one an exception.  The files themselves are not part of the
    value; the calls that write them are, since each can raise. *)
Definition process_image_func (index : nat) (image_path temp_images_dir group_name user : string)
    : option (option (processed F)) :=
  let loaded_image := cv2_imread image_path in
  let image_filename := os_path_basename image_path in
  let image_name := (os_path_splitext image_filename).1 in
  match loaded_image with
  | None => Some None
  | Some loaded_image =>
      result ← detection_main [loaded_image];
      match result with
      | [] => Some None
      | (bbox_image, crop_image, label, confidence) :: _ =>
          let confidence_str := format_3f confidence in
          let stem := user +:+ "_" +:+ upload_date index +:+ "_" +:+ confidence_str
                      +:+ "_" +:+ image_name +:+ ".jpg" in
          let bbox_image_path :=
            os_path_join temp_images_dir "bbox_images" ("bbox_" +:+ stem) in
          let crop_image_path :=
            os_path_join temp_images_dir "crop_images" ("crop_" +:+ stem) in
          _ ← cv2_imwrite bbox_image_path bbox_image;
          _ ← cv2_imwrite crop_image_path crop_image;
          let thumbnail_dir := os_path_join2 temp_images_dir "thumbnails" in
          thumbnail_path ← generate_thumbnail bbox_image_path thumbnail_dir;
          let group_name := group_name +:+ " " +:+ label in
          Some (Some (bbox_image_path, crop_image_path, confidence, group_name))
      end
  end.

(** The state of an [ImageProcessingWorker]. *)
Record worker := {
  images : list entry;
  temp_images_dir : string;
  processed_images : list (processed F);
  start_time : option F;
  current_user : string;
}.

(** [__init__] *)
Definition new_worker (images : list entry) (temp_images_dir user : string) : worker :=
  {| images := images; temp_images_dir := temp_images_dir;
     processed_images := []; start_time := None; current_user := user |}.

(** A future is represented by the value its call returns; the pool
    decides when the call runs, not what it returns. *)
Fixpoint submit_all (w : worker) (index : nat) (l : list entry)
    : option (list (option (processed F))) :=
  match l with
  | [] => Some []
  | e :: l' =>
      f ← process_image_func index (image_path e) (temp_images_dir w)
            (group_name e) (current_user w);
      futures ← submit_all w (S index) l';
      Some (f :: futures)
  end.

(** The text of the progress signal. *)
Definition remaining_time_str (images_processed total : Z) (remaining_time : F) : string :=
  "Processing image " +:+ str images_processed +:+ " of " +:+ str total
  +:+ ". Estimated remaining time: "
  +:+ str (to_int (ffloordiv remaining_time (of_int 60))) +:+ "m "
  +:+ str (to_int (fmod remaining_time (of_int 60))) +:+ "s".

(** [remaining_time] after [images_processed] of [total] tasks. *)
Definition remaining_time (start now : F) (images_processed total : Z) : F :=
  let elapsed_time := fsub now start in
  let avg_time_per_image := fdiv elapsed_time (of_int images_processed) in
  fmul avg_time_per_image (of_int (total - images_processed)).

(** The collecting loop, [for i, future in enumerate(futures)], from
    position [i] on: the worker's list grows and the signals emitted
    are collected in order. *)
Fixpoint collect (total : Z) (start : F) (futures : list (option (processed F))) (i : nat)
    (acc : list (processed F)) : list (processed F) * list (signal F) :=
  match futures with
  | [] => (acc, [])
  | result :: futures' =>
      let acc := match result with Some r => acc ++ [r] | None => acc end in
      let images_processed := Z.of_nat i + 1 in
      let rt := remaining_time start (time_time (S i)) images_processed total in
      let '(acc', sigs) := collect total start futures' (S i) acc in
      (acc', progress (Z.of_nat i + 1) (remaining_time_str images_processed total rt) :: sigs)
  end.

(** [run]: the worker afterwards and the signals it emitted.
    [ProcessPoolExecutor] refuses a pool of no worker ([ValueError]).  On
    Windows it also refuses a pool of more than 61 workers; [run] is the
    worker on the other platforms, where the pool has no upper limit. *)
Definition run (workers : Z) (w : worker) : option (worker * list (signal F)) :=
  let start := time_time 0%nat in
  if decide (workers <= 0) then None
  else
    futures ← submit_all w 0 (images w);
    let '(acc, sigs) :=
      collect (Z.of_nat (length (images w))) start futures 0 (processed_images w) in
    Some ({| images := images w; temp_images_dir := temp_images_dir w;
             processed_images := acc; start_time := Some start;
             current_user := current_user w |},
          sigs ++ [result_ready acc; processing_complete]).

(** The grouping done when the images are stored
    ([process_next_group], [store_images_with_location]):
    [image[3].rsplit(' ', 1)[0]]. *)
Definition group_of (p : processed F) : option string :=
  rsplit1 " " p.2 !! 0%nat.

(** [group_name_cleaned, animal = group_name.rsplit(' ', 1)]; unpacking
    fails unless there are exactly two pieces. *)
Definition cleaned_and_animal (group_name : string) : option (string * string) :=
  match rsplit1 " " group_name with
  | [g; a] => Some (g, a)
  | _ => None
  end.

Definition group_images (processed_images : list (processed F)) (group_name : string)
    : list (processed F) :=
  filter (λ p, group_of p = Some group_name) processed_images.

(** What task [index] on entry [e] returns in worker [w]. *)
Definition outcome (w : worker) (index : nat) (e : entry) : option (option (processed F)) :=
  process_image_func index (image_path e) (temp_images_dir w) (group_name e)
    (current_user w).

(** The successes among the futures, in their order. *)
Definition successes (futures : list (option (processed F))) : list (processed F) :=
  omap id futures.

(** The progress signal sent after collecting future [i]. *)
Definition report (total : Z) (start : F) (i : nat) : signal F :=
  let done := Z.of_nat i + 1 in
  progress done
    (remaining_time_str done total
       (remaining_time start (time_time (S i)) done total)).
End worker.
Arguments worker : clear implicits.
End UploadPage.

(** ** A small concrete environment

    Exact arithmetic, images of integer pixels, drawing calls that leave
    the image alone, a detector that always reports the same two boxes, a
    file system in which one file is unreadable and an image without a
    pixel cannot be written, and a clock that advances three seconds per
    reading.  The examples below run the code in it. *)

Module Sample.
Import Py.

Definition image : Type := list (list Z).

Definition picture : image := [[1; 2; 3]; [4; 5; 6]; [7; 8; 9]].

Definition cv2_rectangle (img : image) (_ _ : Z * Z) (_ : Z * Z * Z) (_ : Z) : image := img.
Definition cv2_getTextSize (label : string) : Z * Z :=
  (40 * Z.of_nat (String.length label), 50).
Definition cv2_putText (img : image) (_ : string) (_ : Z * Z) : image := img.

(** Two boxes; the second one is the more confident. *)
Definition low_box : Detection.box Qc :=
  {| Detection.xyxy := (Qc_of_Z 0, Qc_of_Z 0, Qc_of_Z 1, Qc_of_Z 1);
     Detection.conf := (Qc_of_Z 1 / Qc_of_Z 2)%Qc;
     Detection.cls := Qc_of_Z 0 |}.
Definition high_box : Detection.box Qc :=
  {| Detection.xyxy := (Qc_of_Z 1, Qc_of_Z 1, Qc_of_Z 3, Qc_of_Z 3);
     Detection.conf := (Qc_of_Z 9 / Qc_of_Z 10)%Qc;
     Detection.cls := Qc_of_Z 1 |}.

Definition yolo (class_names : dict Z string) (_ : image) : Detection.prediction Qc :=
  {| Detection.names := class_names; Detection.boxes := [low_box; high_box] |}.

(** The model file is there and loads. *)
Definition model_path : string := "app/detection_model/best_50.pt".
Definition os_path_exists (path : string) : bool := true.
Definition YOLO (class_names : dict Z string) (path : string)
    : option (image → Detection.prediction Qc) :=
  if decide (path = model_path) then Some (yolo class_names) else None.

Definition cv2_imread (path : string) : option image :=
  if decide (path = "in/unreadable.jpg") then None else Some picture.
(** Writing an image without a pixel raises. *)
Definition cv2_imwrite (path : string) (img : image) : option bool :=
  if decide (concat img = []) then None else Some true.
Definition cv2_resize (img : image) (size : Z * Z) : image := img.
Definition os_makedirs (path : string) : option unit := Some ().
Definition os_path_basename (path : string) : string :=
  default path (index_last (split "/" path)).
Definition os_path_splitext (name : string) : string * string :=
  match rsplit1 "." name with
  | [root; ext] => (root, "." +:+ ext)
  | _ => (name, "")
  end.
Definition os_path_join (a b c : string) : string := a +:+ "/" +:+ b +:+ "/" +:+ c.
Definition os_path_join2 (a b : string) : string := a +:+ "/" +:+ b.
Definition upload_date (_ : nat) : string := "20240101_120000".
Definition time_time (k : nat) : Qc := Qc_of_Z (10 + 3 * Z.of_nat k).

(** [process_image_func] and [run] in this environment, for a detector
    with the given class names. *)
Definition process_image_func (class_names : dict Z string) :=
  UploadPage.process_image_func (H := exact) Exact.round Exact.format_3f
    cv2_rectangle cv2_getTextSize cv2_putText model_path os_path_exists (YOLO class_names)
    cv2_imread cv2_imwrite cv2_resize os_makedirs os_path_basename os_path_splitext
    os_path_join os_path_join2 upload_date.

Definition run (class_names : dict Z string) :=
  UploadPage.run (H := exact) Exact.round Exact.format_3f
    cv2_rectangle cv2_getTextSize cv2_putText model_path os_path_exists (YOLO class_names)
    cv2_imread cv2_imwrite cv2_resize os_makedirs os_path_basename os_path_splitext
    os_path_join os_path_join2 upload_date
    time_time Qcminus Qcdiv Exact.floordiv Exact.fmod.

Definition submit_all (class_names : dict Z string) :=
  UploadPage.submit_all (H := exact) Exact.round Exact.format_3f
    cv2_rectangle cv2_getTextSize cv2_putText model_path os_path_exists (YOLO class_names)
    cv2_imread cv2_imwrite cv2_resize os_makedirs os_path_basename os_path_splitext
    os_path_join os_path_join2 upload_date.

Definition make_inference_detection (class_names : dict Z string) :=
  Detection.make_inference_detection (H := exact) Exact.round Exact.format_3f
    cv2_rectangle cv2_getTextSize cv2_putText (yolo class_names).

(** A model that reports one box without area: the crop has no pixel. *)
Definition flat_box : Detection.box Qc :=
  {| Detection.xyxy := (Qc_of_Z 1, Qc_of_Z 1, Qc_of_Z 1, Qc_of_Z 1);
     Detection.conf := (Qc_of_Z 1 / Qc_of_Z 2)%Qc;
     Detection.cls := Qc_of_Z 0 |}.
Definition YOLO_flat (path : string) : option (image → Detection.prediction Qc) :=
  Some (λ _, {| Detection.names := [(0, "rat")]; Detection.boxes := [flat_box] |}).

(** Class names of one word, and class names with a two-word one. *)
Definition one_word : dict Z string := [(0, "rat"); (1, "stoat")].
Definition two_words : dict Z string := [(0, "rat"); (1, "brown rat")].

(** A batch of two tasks, the first on the unreadable file, and the
    worker created for it. *)
Definition batch : list UploadPage.entry :=
  [ {| UploadPage.image_path := "in/unreadable.jpg"; UploadPage.group_name := "g1" |};
    {| UploadPage.image_path := "in/b.jpg"; UploadPage.group_name := "g2" |} ].
Definition worker : UploadPage.worker Qc := UploadPage.new_worker batch "tmp" "kavi".
(** What the two tasks return. *)
Definition futures : list (option (UploadPage.processed Qc)) :=
  default [] (submit_all one_word worker 0 batch).

(** Identity resolution on file names: every file loads, and the
    distance between two different files is the sum of the lengths of
    their names. *)
Definition load_and_preprocess_image (path : string) : option string := Some path.
Definition dist (a b : string) : Z :=
  if decide (a = b) then 0 else Z.of_nat (String.length a + String.length b).

(** [k] crops, named by their number. *)
Definition crops (k : nat) : list string :=
  (λ i : nat, "crops/" +:+ pretty i +:+ ".jpg") <$> seq 0 k.

(** On binary64: the values reported for [n] images never decrease, stay
    within 0 and 100 and end at 100. *)
Definition binary64_calls_ok (n : nat) : bool :=
  let calls := Progress_spec.calls_from (H := binary64) n 0 n in
  forallb (λ v, (0 <=? v) && (v <=? 100)) calls
  && forallb (λ '(a, b), a <=? b) (zip calls (tail calls))
  && bool_decide (last calls = Some 100).

(** The rows [(i, n)] with [n] up to [bound] at which the value computed
    on binary64 is not the integer part of [(i + 1) * 100 / n]. *)
Definition binary64_deviations (bound : nat) : list (nat * nat) :=
  n ← seq 1 bound;
  i ← seq 0 n;
  if decide (Progress_spec.percent (H := binary64) n i = Progress_spec.exact_percent n i)
  then [] else [(i, n)].
End Sample.

(** ** Further notions for the resolver *)

Module Resolver_more_spec.
Import Py Resolver_spec.

(** Every row is non-empty and has its first minimum at an index below
    the number of rows. *)
Definition rows_in_range (matrix : list (list Z)) : Prop :=
  Forall (λ row, ∃ m, ReID.argmin row = Some m ∧ (m < length matrix)%nat) matrix.

(** Cluster ids after the rows below [r]: at most one per visited row, at
    least one once a row was visited, and no member list shorter than two. *)
Record sized (r : nat) (t : state) : Prop := {
  sz_ids : next_id t ≤ Z.of_nat r;
  sz_first : (0 < r)%nat → 1 ≤ next_id t;
  sz_two : Forall (λ e : Z * list nat, (2 ≤ length e.2)%nat) (clusters t);
}.

(** All entries of a row but the one at index [r] are equal. *)
Definition others_equal (row : list Z) (r : nat) : Prop :=
  ∀ j j' w w', row !! j = Some w → row !! j' = Some w' → j ≠ r → j' ≠ r → w = w'.
End Resolver_more_spec.

(** ** Order of the floats

    On floats that are not NaN, [<] is a strict weak order: irreflexive,
    transitive, and any value lies above the smaller or below the greater
    of two ordered ones.  The rationals satisfy this
    ([Detection_facts.exact_order] below). *)
Class PyFloatOrder (F : Type) `{PyFloat F} : Prop := {
  fltb_irrefl x : fltb x x = false;
  fltb_trans x y z : fltb x y = true → fltb y z = true → fltb x z = true;
  fltb_cotrans x y z : fltb x y = true → fltb x z = true ∨ fltb z y = true;
}.

(** ** Pages of thumbnails: [UploadPage] and [DatabasePage]

    Both pages show [image_list] ten at a time, with the same code for the
    grid, the navigation buttons and the row of page buttons. *)

Module Pagination.
Import Py.

Definition images_per_page : Z := 10.
Definition max_visible_pages : Z := 5.

(** [a[i]]: a negative index counts from the end; outside the list,
    [IndexError]. *)
Definition getitem {A : Type} (a : list A) (i : Z) : option A :=
  let n := Z.of_nat (length a) in
  if decide (i < 0) then
    if decide (i + n < 0) then None else a !! Z.to_nat (i + n)
  else a !! Z.to_nat i.

(** [range(lo, hi)] *)
Definition range (lo hi : Z) : list Z := seqZ lo (hi - lo).

(** [max(1, (len(self.image_list) + self.images_per_page - 1) // self.images_per_page)] *)
Definition total_pages (len : Z) : Z :=
  Z.max 1 ((len + images_per_page - 1) `div` images_per_page).

(** What the navigation reads and writes of a page. *)
Record pager (A : Type) := { current_page : Z; image_list : list A }.
Arguments current_page {A}.
Arguments image_list {A}.

Section pager.
Context {A : Type}.
Implicit Types s : pager A.

Definition len s : Z := Z.of_nat (length (image_list s)).

Definition set_page s (page_num : Z) : pager A :=
  {| current_page := page_num; image_list := image_list s |}.

(** The loop of [update_thumbnails] over the indices [range(start_index,
    end_index)]: each image with the row and the column of the grid it is
    put in. *)
Fixpoint thumbnails (image_list : list A) (indices : list Z) (row col : Z)
    : option (list (A * (Z * Z))) :=
  match indices with
  | [] => Some []
  | i :: indices' =>
      image ← getitem image_list i;
      let col' := col + 1 in
      cells ← (if decide (col' >= 5) then thumbnails image_list indices' (row + 1) 0
               else thumbnails image_list indices' row col');
      Some ((image, (row, col)) :: cells)
  end.

(** [update_thumbnails]: the images of the current page with their places
    in the grid; [None] is the [IndexError] of [self.image_list[i]].  The
    widgets are not modelled, nor are the thumbnail files, which the
    upload page makes with [generate_thumbnail] when they are missing (see
    [UploadPage.generate_thumbnail] for when that raises). *)
Definition update_thumbnails s : option (list (A * (Z * Z))) :=
  let start_index := current_page s * images_per_page in
  let end_index := Z.min (start_index + images_per_page) (len s) in
  thumbnails (image_list s) (range start_index end_index) 0 0.

(** The state of the four navigation buttons and the page buttons
    created by [update_pagination]: the text of each, whether it is the
    selected one, and the page it leads to. *)
Record controls := {
  first_enabled : bool;
  prev_enabled : bool;
  next_enabled : bool;
  last_enabled : bool;
  page_buttons : list (string * bool * Z);
}.

Definition update_pagination s : controls :=
  let total_pages := total_pages (len s) in
  let start_page :=
    Z.max 0 (Z.min (current_page s - (max_visible_pages `div` 2))
                   (total_pages - max_visible_pages)) in
  let end_page := Z.min total_pages (start_page + max_visible_pages) in
  {| first_enabled := bool_decide (current_page s > 0);
     prev_enabled := bool_decide (current_page s > 0);
     next_enabled := bool_decide ((current_page s + 1) * images_per_page < len s);
     last_enabled := bool_decide (current_page s < total_pages - 1);
     page_buttons :=
       (λ page_num, (str (page_num + 1), bool_decide (page_num = current_page s), page_num))
       <$> range start_page end_page |}.

(** [go_to_page]: an invalid page number only shows a warning. *)
Definition go_to_page s (page_num : Z) : pager A :=
  if decide (0 ≤ page_num < total_pages (len s)) then set_page s page_num else s.

Definition go_to_last_page s : pager A := go_to_page s (total_pages (len s) - 1).

Definition go_to_first_page s : pager A := set_page s 0.

Definition prev_page s : pager A :=
  if decide (current_page s > 0) then set_page s (current_page s - 1) else s.

Definition next_page s : pager A :=
  if decide ((current_page s + 1) * images_per_page < len s)
  then set_page s (current_page s + 1) else s.

(** A click on one of the buttons; a page button calls [go_to_page] with
    the page it was created for. *)
Inductive click := on_first | on_prev | on_next | on_last | on_page (page_num : Z).

Definition clicked s (c : click) : pager A :=
  match c with
  | on_first => go_to_first_page s
  | on_prev => prev_page s
  | on_next => next_page s
  | on_last => go_to_last_page s
  | on_page page_num => go_to_page s page_num
  end.

(** The cell of the [k]-th thumbnail of a scan that starts in row [row],
    column [col], five to a row. *)
Definition cell_from (row col : Z) (k : nat) : Z * Z :=
  (row + (col + Z.of_nat k) `div` 5, (col + Z.of_nat k) `mod` 5).

(** The images of page [p], ten at most. *)
Definition page_items (l : list A) (p : nat) : list A := take 10 (drop (10 * p) l).

(** The current page is one of the pages of the list. *)
Definition valid s : Prop := 0 ≤ current_page s < total_pages (len s).
End pager.
Arguments controls : clear implicits.
End Pagination.

(** ** The upload page: collecting, showing and storing the images

    [UploadPage.upload_images], [handle_processed_images],
    [save_images_to_database], [process_next_group],
    [store_images_with_location] and [download_images], with the rows
    passed to [DatabaseHelper.insert_image] and the archives written
    collected in order. *)

Module UploadPageState.
Import Py.

(** A row passed to [insert_image]. *)
Record row (F : Type) := {
  row_user : string;
  row_bbox_image_path : string;
  row_cropped_image_path : string;
  row_thumbnail_path : string;
  row_location : string;
  row_upload_date : string;
  row_confidence : F;
  row_group_name : string;
  row_animal : string;
}.
Arguments row_user {F}.
Arguments row_bbox_image_path {F}.
Arguments row_cropped_image_path {F}.
Arguments row_thumbnail_path {F}.
Arguments row_location {F}.
Arguments row_upload_date {F}.
Arguments row_confidence {F}.
Arguments row_group_name {F}.
Arguments row_animal {F}.

(** The attributes of the page that the storing of the images reads and
    writes, the rows inserted so far, the number of times
    [images_saved_signal] was emitted, and the archives written (path and
    entries). *)
Record page (F : Type) := {
  processed_images : list (UploadPage.processed F);
  group_data : list string;
  current_group_index : nat;
  inserted : list (row F);
  images_saved : nat;
  archives : list (string * list (string * string));
}.
Arguments processed_images {F}.
Arguments group_data {F}.
Arguments current_group_index {F}.
Arguments inserted {F}.
Arguments images_saved {F}.
Arguments archives {F}.

(** A value held in a tuple of [processed_images]. *)
Inductive value (F : Type) := vstr (s : string) | vfloat (x : F).
Arguments vstr {F}.
Arguments vfloat {F}.

(** The components of a processed image, as the tuple it is. *)
Definition tuple_of {F : Type} (p : UploadPage.processed F) : list (value F) :=
  let '(bbox_image_path, crop_image_path, confidence, group_name) := p in
  [vstr bbox_image_path; vstr crop_image_path; vfloat confidence; vstr group_name].

(** [a, b = t]: [ValueError] unless [t] has exactly two components. *)
Definition unpack2 {A : Type} (t : list A) : option (A * A) :=
  match t with
  | [a; b] => Some (a, b)
  | _ => None
  end.

(** [str(location)] for the pair of integers chosen on the map. *)
Definition location_str (location : Z * Z) : string :=
  "(" +:+ str location.1 +:+ ", " +:+ str location.2 +:+ ")".

(** The image a row was made from: its paths, its confidence and its
    group name with the animal. *)
Definition row_image {F : Type} (r : row F) : UploadPage.processed F :=
  (row_bbox_image_path r, row_cropped_image_path r, row_confidence r,
   row_group_name r +:+ " " +:+ row_animal r).

Section page.
Context {F : Type}.
(** [os.path.join] on two components, [os.path.basename],
    [self.temp_images_dir], [self.current_user], the text of
    [datetime.now().strftime("%Y-%m-%d %H:%M:%S")] when the row number [k]
    is made, what the user does with the map opened for the group at
    position [i] ([None]: closes it without confirming a location), and
    the folder chosen for the archive ([None]: the download is declined or
    the folder dialog cancelled). *)
Context (os_path_join : string → string → string)
        (os_path_basename : string → string)
        (temp_images_dir current_user : string)
        (strftime_now : nat → string)
        (map_popup : nat → string → option (Z * Z))
        (download_folder : option string).

(** [handle_processed_images]: the list shown becomes the list of the
    processed images; the current page is left as it is. *)
Definition handle_processed_images {A : Type} (processed : list (UploadPage.processed F))
    (view : Pagination.pager A) : Pagination.pager (UploadPage.processed F) :=
  {| Pagination.current_page := Pagination.current_page view;
     Pagination.image_list := processed |}.

(** The loop of [download_images]:
    [for image_path, _ in self.processed_images:
       zip_file.write(image_path, os.path.basename(image_path))]. *)
Definition zip_entries (processed_images : list (UploadPage.processed F))
    : option (list (string * string)) :=
  mapM (λ p, '(image_path, _) ← unpack2 (tuple_of p);
             match image_path with
             | vstr image_path => Some (image_path, os_path_basename image_path)
             | vfloat _ => None
             end) processed_images.

(** [download_images], for the folder chosen in the dialog. *)
Definition download_images (folder : option string) (s : page F) : option (page F) :=
  match folder with
  | Some folder =>
      let zip_path := os_path_join folder "processed_images.zip" in
      entries ← zip_entries (processed_images s);
      Some {| processed_images := processed_images s; group_data := group_data s;
              current_group_index := current_group_index s; inserted := inserted s;
              images_saved := images_saved s;
              archives := archives s ++ [(zip_path, entries)] |}
  | None => Some s
  end.

(** The loop of [store_images_with_location] over the images of the
    group, adding a row for each. *)
Fixpoint insert_images (location : Z * Z) (group_images : list (UploadPage.processed F))
    (rows : list (row F)) : option (list (row F)) :=
  match group_images with
  | [] => Some rows
  | (bbox_image_path, crop_image_path, confidence, group_name) :: group_images' =>
      let thumbnail_dir := os_path_join temp_images_dir "thumbnails" in
      let thumbnail_path := os_path_join thumbnail_dir (os_path_basename bbox_image_path) in
      '(group_name_cleaned, animal) ← UploadPage.cleaned_and_animal group_name;
      insert_images location group_images'
        (rows ++ [{| row_user := current_user;
                     row_bbox_image_path := bbox_image_path;
                     row_cropped_image_path := crop_image_path;
                     row_thumbnail_path := thumbnail_path;
                     row_location := location_str location;
                     row_upload_date := strftime_now (length rows);
                     row_confidence := confidence;
                     row_group_name := group_name_cleaned;
                     row_animal := animal |}])
  end.

(** [store_images_with_location] up to its last line:
    the rows of the current group, then [self.current_group_index += 1]. *)
Definition store_group (location : Z * Z) (s : page F) : option (page F) :=
  group_name ← group_data s !! current_group_index s;
  let group_images := UploadPage.group_images (processed_images s) group_name in
  rows ← insert_images location group_images (inserted s);
  Some {| processed_images := processed_images s; group_data := group_data s;
          current_group_index := S (current_group_index s); inserted := rows;
          images_saved := images_saved s; archives := archives s |}.

(** The end of [process_next_group], after the loop: the signal, the two
    lists cleared, then [show_download_popup]. *)
Definition save_complete (s : page F) : option (page F) :=
  download_images download_folder
    {| processed_images := []; group_data := [];
       current_group_index := current_group_index s; inserted := inserted s;
       images_saved := S (images_saved s); archives := archives s |}.

(** [process_next_group], with [remaining] the number of groups from
    [current_group_index] on, [len(self.group_data) -
    self.current_group_index]: the loop test holds exactly when it is not
    zero.  After a confirmed location, [store_images_with_location] stores
    the group and calls [process_next_group] again. *)
Fixpoint process_groups (remaining : nat) (s : page F) : option (page F) :=
  match remaining with
  | 0%nat => save_complete s
  | S remaining' =>
      group_name ← group_data s !! current_group_index s;
      let group_images := UploadPage.group_images (processed_images s) group_name in
      if decide (group_images = []) then
        process_groups remaining'
          {| processed_images := processed_images s; group_data := group_data s;
             current_group_index := S (current_group_index s); inserted := inserted s;
             images_saved := images_saved s; archives := archives s |}
      else
        match map_popup (current_group_index s) group_name with
        | Some location => s' ← store_group location s; process_groups remaining' s'
        | None => Some s
        end
  end.

Definition process_next_group (s : page F) : option (page F) :=
  process_groups (length (group_data s) - current_group_index s) s.

Definition store_images_with_location (location : Z * Z) (s : page F) : option (page F) :=
  s' ← store_group location s; process_next_group s'.

(** [save_images_to_database], for the answer given to its question. *)
Definition save_images_to_database (confirmation : bool) (s : page F) : option (page F) :=
  if confirmation then
    process_next_group
      {| processed_images := processed_images s; group_data := group_data s;
         current_group_index := 0; inserted := inserted s;
         images_saved := images_saved s; archives := archives s |}
  else Some s.

(** The rows that storing the groups [groups] adds, every location
    confirmed: for each group in turn, its images. *)
Definition images_of_groups (processed : list (UploadPage.processed F)) (groups : list string)
    : list (UploadPage.processed F) :=
  groups ≫= UploadPage.group_images processed.
End page.

(** The group of the image is one of [groups]. *)
Definition listed {F : Type} (groups : list string) (p : UploadPage.processed F) : bool :=
  match UploadPage.group_of p with
  | Some g => bool_decide (g ∈ groups)
  | None => false
  end.

(** *** The progress bar while the worker runs *)

(** The calls made on [self.progress_bar]. *)
Inductive bar_call := setMaximum (n : Z) | setValue (v : Z) | setFormat (text : string).

(** [update_progress(index, value)], the slot of the [progress] signal. *)
Definition update_progress (index : Z) (value : string) : list bar_call :=
  [setValue (index + 1); setFormat value].

(** [self.worker.progress.connect(self.update_progress)]; the slots of
    the other two signals leave the bar's value alone. *)
Definition on_signal {F : Type} (s : UploadPage.signal F) : list bar_call :=
  match s with
  | UploadPage.progress index value => update_progress index value
  | _ => []
  end.

(** The calls made by [process_images] before it starts the worker, then
    those made for the signals of the worker.  With nothing uploaded,
    [process_images] returns at once and no worker is started. *)
Definition process_images_bar {F : Type} (image_list : list UploadPage.entry)
    (signals : list (UploadPage.signal F)) : list bar_call :=
  if decide (image_list = []) then []
  else
    [setMaximum (Z.of_nat (length image_list)); setValue 0;
     setFormat "Processing... Estimating remaining time."]
    ++ (signals ≫= on_signal).

(** The values given to [setValue], in order. *)
Definition values_set (calls : list bar_call) : list Z :=
  omap (λ c, match c with setValue v => Some v | _ => None end) calls.

(** *** [upload_images] *)

Definition image_extensions : list string := [".png"; ".jpg"; ".jpeg"].

(** The list shown before processing and the groups. *)
Record uploads := {
  image_list : list UploadPage.entry;
  upload_group_data : list string;
}.

Section upload.
(** [os.path], [str.lower], and the text of
    [datetime.now().strftime('%Y%m%d_%H%M%S')] when directory number [k]
    of the walk is visited. *)
Context (os_path_join : string → string → string)
        (os_path_basename : string → string)
        (os_path_splitext : string → string * string)
        (str_lower : string → string)
        (strftime_now : nat → string).

(** The images of one directory of the walk. *)
Definition images_in (root : string) (group_name : string) (files : list string)
    : list UploadPage.entry :=
  (λ file, {| UploadPage.image_path := os_path_join root file;
              UploadPage.group_name := group_name |})
  <$> filter (λ file, str_lower (os_path_splitext file).2 ∈ image_extensions) files.

(** [for root, dirs, files in os.walk(folder)], from directory number
    [k] on. *)
Fixpoint walk (k : nat) (dirs : list (string * list string))
    (new_images : list UploadPage.entry) (group_data : list string)
    : list UploadPage.entry * list string :=
  match dirs with
  | [] => (new_images, group_data)
  | (root, files) :: dirs' =>
      let folder_name := os_path_basename root in
      let group_name := folder_name +:+ "_" +:+ strftime_now k in
      let found := images_in root group_name files in
      walk (S k) dirs' (new_images ++ found)
        (if decide (0 < length found)%nat then group_data ++ [group_name] else group_data)
  end.

(** [upload_images] for the directories that [os.walk] yields for the
    chosen folder ([None]: the dialog was cancelled). *)
Definition upload_images (folder : option (list (string * list string))) (s : uploads)
    : uploads :=
  match folder with
  | None => s
  | Some dirs =>
      let '(new_images, group_data) := walk 0 dirs [] (upload_group_data s) in
      {| image_list := if decide (new_images = []) then image_list s
                       else image_list s ++ new_images;
         upload_group_data := group_data |}
  end.

(** Every image shown belongs to a group of [group_data]. *)
Definition grouped (s : uploads) : Prop :=
  Forall (λ e, UploadPage.group_name e ∈ upload_group_data s) (image_list s).
End upload.
End UploadPageState.

(** A page to run the storing on: four processed images of two folders,
    one of them with a label of two words; every map is confirmed at the
    position of its group; no archive is asked for. *)
Module Sample_page.
Import Py.

Definition os_path_join (a b : string) : string := a +:+ "/" +:+ b.
Definition temp_images_dir : string := "tmp".
Definition current_user : string := "kavi".
Definition strftime_now (_ : nat) : string := "2024-01-01 12:00:00".
Definition confirm (i : nat) (_ : string) : option (Z * Z) := Some (Z.of_nat i, 7).
(** The map of the second group is closed without a location. *)
Definition close_second (i : nat) (g : string) : option (Z * Z) :=
  if decide (i = 1%nat) then None else confirm i g.

Definition processed_images : list (UploadPage.processed Qc) :=
  [ ("tmp/bbox_images/bbox_a.jpg", "tmp/crop_images/crop_a.jpg", Qc_of_Z 1, "g1 rat");
    ("tmp/bbox_images/bbox_b.jpg", "tmp/crop_images/crop_b.jpg", Qc_of_Z 1, "g2 stoat");
    ("tmp/bbox_images/bbox_c.jpg", "tmp/crop_images/crop_c.jpg", Qc_of_Z 1, "g1 stoat") ].

Definition page : UploadPageState.page Qc :=
  {| UploadPageState.processed_images := processed_images;
     UploadPageState.group_data := ["g1"; "g2"];
     UploadPageState.current_group_index := 0;
     UploadPageState.inserted := [];
     UploadPageState.images_saved := 0;
     UploadPageState.archives := [] |}.

Definition save (map_popup : nat → string → option (Z * Z)) :=
  UploadPageState.save_images_to_database (F := Qc) os_path_join Sample.os_path_basename
    temp_images_dir current_user strftime_now map_popup None true.

(** A walk over a folder with two directories of the same name. *)
Definition str_lower (s : string) : string := s.
Definition dirs : list (string * list string) :=
  [("data", ["notes.txt"]); ("data/a/cam", ["1.jpg"; "2.png"]); ("data/b/cam", ["3.jpg"])].
Definition upload_images :=
  UploadPageState.upload_images os_path_join Sample.os_path_basename Sample.os_path_splitext
    str_lower (λ _, "20240101_120000").
End Sample_page.

(** ** Re-identification from the database page:
    [app/app_pages/DatabasePage.py]

    [ReIDWorker.run] and [DatabasePage.handle_reid_finished], over the
    columns of the [images] table they read and with the rows passed to
    [DatabaseHelper.insert_reid_result] collected in order. *)

Module DatabasePage.
Import Py.

(** A row of the [images] table. *)
Record image_row := {
  id : Z;
  bbox_image_path : string;
  cropped_image_path : string;
  thumbnail_path : string;
}.

(** [fetch_image_path_by_reid]: [fetchone()] on the rows whose [id] is
    [image_id]. *)
Definition fetch_image_path_by_reid (images : list image_row) (image_id : Z)
    : option (string * string * string) :=
  (λ r, (bbox_image_path r.2, cropped_image_path r.2, thumbnail_path r.2))
  <$> list_find (λ r, id r = image_id) images.

(** [fetch_id_by_path]: the [id] of the first row whose
    [cropped_image_path] is [path], or [None]. *)
Definition fetch_id_by_path (images : list image_row) (path : string) : option Z :=
  (λ r, id r.2) <$> list_find (λ r, cropped_image_path r = path) images.

(** A row passed to [insert_reid_result]. *)
Record reid_row := {
  run_id : string;
  image_id : option Z;
  reid_id : string;
  run_datetime : string;
}.

(** The signals of [ReIDWorker]. *)
Inductive signal :=
  | progress_updated (value : Z)
  | reid_finished (output : dict string (list string)).

Section reid.
Context `{PyFloat F}.
Context {image : Type} (load_and_preprocess_image : string → option image)
        (dist : image → image → Z).

(** The first loop of [run]: the crop paths of the selected images that
    the table holds. *)
Definition reid_list (images : list image_row) (selected_images : list Z) : list string :=
  omap (λ image_id,
          '(bbox_image_path, crop_image_path, thumbnail_path) ←
            fetch_image_path_by_reid images image_id;
          Some crop_image_path) selected_images.

(** [run]: the signals emitted, [None] if the identity resolution
    raises. *)
Definition run (images : list image_row) (selected_images : list Z) : option (list signal) :=
  '(calls, output) ←
    ReID.main load_and_preprocess_image dist (reid_list images selected_images) true;
  Some (progress_updated 0 :: (progress_updated <$> calls) ++ [reid_finished output]).
End reid.

Definition path : string := "app/detection_model/temporary_detected_images/crop_images/".

(** The two loops of [handle_reid_finished]. *)
Definition handle_reid_finished (images : list image_row) (run_datetime : string)
    (output : dict string (list string)) : list reid_row :=
  output ≫= (λ '(reid_id, imgs),
    (λ image,
       let full_path := path +:+ image in
       let id := fetch_id_by_path images full_path in
       {| run_id := image; image_id := id; reid_id := reid_id;
          run_datetime := run_datetime |}) <$> imgs).

(** The crop paths are files of the directory [path]. *)
Definition crops_in_path (images : list image_row) : Prop :=
  Forall (λ r, ∃ name, cropped_image_path r = path +:+ name ∧ occurs "/" name = false)
    images.
End DatabasePage.

(** A table of three stored crops. *)
Module Sample_table.
Definition images : list DatabasePage.image_row :=
  (λ k : Z,
     {| DatabasePage.id := k;
        DatabasePage.bbox_image_path := "bbox_" +:+ pretty k +:+ ".jpg";
        DatabasePage.cropped_image_path :=
          DatabasePage.path +:+ "crop_" +:+ pretty k +:+ ".jpg";
        DatabasePage.thumbnail_path := "thumb_" +:+ pretty k +:+ ".jpg" |})
  <$> [1; 2; 3].

Definition run :=
  DatabasePage.run (H := binary64) Sample.load_and_preprocess_image Sample.dist images.
End Sample_table.

(** * Properties *)

(** ** Facts about the primitives *)

Module Py_facts.
Import Py.

Section argbest.
Context {A : Type} (better : A → A → bool).

Lemma argbest_from_bound (l : list A) best_i best i :
  (best_i < i)%nat → (argbest_from better best_i best i l < i + length l)%nat.
Proof.
  revert best_i best i.
  induction l as [|x l IH]; intros best_i best i Hlt; simpl; [lia|].
  destruct (better x best).
  - specialize (IH i x (S i)). lia.
  - specialize (IH best_i best (S i)). lia.
Qed.

Lemma argbest_bound (l : list A) m :
  argbest better l = Some m → (m < length l)%nat.
Proof.
  destruct l as [|x l]; simpl; [done|].
  intros [= <-]. pose proof (argbest_from_bound l 0%nat x 1%nat). lia.
Qed.

Lemma argbest_is_Some (l : list A) :
  l ≠ [] → is_Some (argbest better l).
Proof. destruct l; [done|]. intros _. simpl. eauto. Qed.
End argbest.

Lemma seqZ_snoc n : 0 ≤ n → seqZ 0 (n + 1) = seqZ 0 n ++ [n].
Proof.
  intros Hn. rewrite seqZ_app by lia. f_equal.
Qed.

Lemma elem_of_pair {A} (x a b : A) : x ∈ [a; b] ↔ x = a ∨ x = b.
Proof. rewrite elem_of_cons, list_elem_of_singleton. done. Qed.

Section dict.
Context {K V : Type} `{EqDecision K}.
Implicit Types (d : dict K V) (k : K) (v : V).

Lemma dict_get_None d k : dict_get k d = None ↔ k ∉ d.*1.
Proof.
  induction d as [|[k' v'] d IH]; simpl.
  - split; [intros _; apply not_elem_of_nil | done].
  - rewrite not_elem_of_cons. destruct (decide (k = k')) as [->|Hne].
    + split; [done | intros [? _]; done].
    + rewrite IH. tauto.
Qed.

Lemma dict_get_is_Some d k : k ∈ d.*1 → is_Some (dict_get k d).
Proof.
  intros Hin. destruct (dict_get k d) eqn:E; [eauto|].
  apply dict_get_None in E. done.
Qed.

Lemma dict_get_elem_of d k v : dict_get k d = Some v → (k, v) ∈ d.
Proof.
  induction d as [|[k' v'] d IH]; simpl; [done|].
  destruct (decide (k = k')) as [->|Hne].
  - intros [= ->]. apply elem_of_cons; by left.
  - intros Hg. apply elem_of_cons; right; auto.
Qed.

Lemma elem_of_dict_get d k v : NoDup d.*1 → (k, v) ∈ d → dict_get k d = Some v.
Proof.
  induction d as [|[k' v'] d IH]; simpl; intros Hnd Hin.
  - by apply elem_of_nil in Hin.
  - apply NoDup_cons in Hnd as [Hk' Hnd].
    apply elem_of_cons in Hin as [[= -> ->]|Hin].
    + by rewrite decide_True.
    + rewrite decide_False; [auto|].
      intros ->. apply Hk'. apply list_elem_of_fmap. by exists (k', v).
Qed.

Lemma dict_set_fresh d k v : k ∉ d.*1 → dict_set k v d = d ++ [(k, v)].
Proof.
  induction d as [|[k' v'] d IH]; simpl; [done|].
  rewrite not_elem_of_cons. intros [Hne Hnin].
  rewrite decide_False by done. by rewrite IH.
Qed.

Lemma dict_get_snoc d k v : k ∉ d.*1 → dict_get k (d ++ [(k, v)]) = Some v.
Proof.
  induction d as [|[k' v'] d IH]; simpl.
  - intros _. by rewrite decide_True.
  - rewrite not_elem_of_cons. intros [Hne Hnin]. rewrite decide_False by done. auto.
Qed.

Lemma dict_set_snoc d k v v' : k ∉ d.*1 → dict_set k v' (d ++ [(k, v)]) = d ++ [(k, v')].
Proof.
  induction d as [|[k1 v1] d IH]; simpl.
  - intros _. by rewrite decide_True.
  - rewrite not_elem_of_cons. intros [Hne Hnin]. rewrite decide_False by done.
    by rewrite IH.
Qed.
End dict.
End Py_facts.

(** ** The resolver of the specification: invariants *)

Module Resolver_facts.
Import Py Py_facts Resolver_spec.

Lemma in_cluster_snoc cl c0 l0 c i :
  in_cluster (cl ++ [(c0, l0)]) c i ↔ in_cluster cl c i ∨ (c = c0 ∧ i ∈ l0).
Proof.
  unfold in_cluster. split.
  - intros (l & Hin & Hi). apply elem_of_app in Hin as [Hin|Hin].
    + left. eauto.
    + apply list_elem_of_singleton in Hin as [= -> ->]. by right.
  - intros [(l & Hin & Hi)|[-> Hi]].
    + exists l. split; [|done]. apply elem_of_app. by left.
    + exists l0. split; [|done]. apply elem_of_app. right. by apply list_elem_of_singleton.
Qed.

Lemma add_member_keys c x cl : (add_member c x cl).*1 = cl.*1.
Proof.
  unfold add_member. rewrite <- list_fmap_compose. apply list_fmap_ext.
  intros _ [k l] _. simpl. by destruct (decide (k = c)).
Qed.

Lemma in_cluster_add_member cl c0 x c i :
  in_cluster (add_member c0 x cl) c i
  ↔ in_cluster cl c i ∨ (c = c0 ∧ i = x ∧ c0 ∈ cl.*1).
Proof.
  unfold in_cluster, add_member. split.
  - intros (l & Hin & Hi). apply list_elem_of_fmap in Hin as ([k l'] & Heq & Hin).
    simpl in Heq. destruct (decide (k = c0)) as [->|Hne]; simplify_eq.
    + apply elem_of_app in Hi as [Hi|Hi].
      * left. eauto.
      * apply list_elem_of_singleton in Hi as ->. right. repeat split; [].
        apply list_elem_of_fmap. by exists (c0, l').
    + left. eauto.
  - intros [(l & Hin & Hi)|(-> & -> & Hk)].
    + destruct (decide (c = c0)) as [->|Hne].
      * exists (l ++ [x]). split; [|apply elem_of_app; by left].
        apply list_elem_of_fmap. exists (c0, l). simpl. by rewrite decide_True.
      * exists l. split; [|done].
        apply list_elem_of_fmap. exists (c, l). simpl. by rewrite decide_False.
    + apply list_elem_of_fmap in Hk as ([k l] & -> & Hin). simpl.
      exists (l ++ [x]). split; [|apply elem_of_app; right; by apply list_elem_of_singleton].
      apply list_elem_of_fmap. exists (k, l). simpl. by rewrite decide_True.
Qed.

Lemma in_cluster_key cl c i : in_cluster cl c i → c ∈ cl.*1.
Proof. intros (l & Hin & _). apply list_elem_of_fmap. by exists (c, l). Qed.

Lemma wf_start n : wf n 0 (start n).
Proof.
  split; simpl.
  - by rewrite length_replicate.
  - done.
  - done.
  - intros i c. split.
    + intros Hl. apply lookup_replicate in Hl as [? _]. done.
    + intros (l & Hin & _). by apply elem_of_nil in Hin.
  - intros i Hi. lia.
Qed.

Lemma wf_fresh n r t i : wf n r t → ¬ in_cluster (clusters t) (next_id t) i.
Proof.
  intros Hwf Hin. apply in_cluster_key in Hin.
  rewrite (wf_ids _ _ _ Hwf) in Hin. apply elem_of_seqZ in Hin. lia.
Qed.

(** A visited row is owned when the step is over, whatever the case. *)
Lemma wf_step n r m t :
  wf n r t → (r < n)%nat → (m < n)%nat → wf n (S r) (step m r t).
Proof.
  intros Hwf Hr Hm.
  pose proof (wf_len _ _ _ Hwf) as Hlen.
  destruct (lookup_lt_is_Some_2 (owner t) r) as [o_r Hor]; [lia|].
  destruct (lookup_lt_is_Some_2 (owner t) m) as [o_m Hom]; [lia|].
  unfold step. rewrite Hor, Hom.
  destruct o_r as [c|], o_m as [c'|].
  - (* both assigned *)
    destruct Hwf as [? ? ? Ho Hv]. split; try done.
    intros i Hi Hin. destruct (decide (i = r)) as [->|]; [eauto|]. apply Hv; lia.
  - (* the match joins the row's cluster *)
    destruct Hwf as [? ? Hids Ho Hv]. split; simpl.
    + by rewrite length_insert.
    + done.
    + by rewrite add_member_keys.
    + intros i k. rewrite in_cluster_add_member, <- Ho.
      destruct (decide (i = m)) as [->|Hne].
      * rewrite list_lookup_insert_eq by lia. rewrite Hom.
        split; [intros [= ->]|intros [[=]|(-> & _ & _)]]; [|done].
        right. repeat split; []. eapply in_cluster_key, Ho, Hor.
      * rewrite list_lookup_insert_ne by done.
        split; [by left | intros [?|(_ & ? & _)]; done].
    + intros i Hi Hin. destruct (decide (i = m)) as [->|Hne].
      * rewrite list_lookup_insert_eq by lia. eauto.
      * rewrite list_lookup_insert_ne by done.
        destruct (decide (i = r)) as [->|]; [eauto|]. apply Hv; lia.
  - (* the row joins the match's cluster *)
    destruct Hwf as [? ? Hids Ho Hv]. split; simpl.
    + by rewrite length_insert.
    + done.
    + by rewrite add_member_keys.
    + intros i k. rewrite in_cluster_add_member, <- Ho.
      destruct (decide (i = r)) as [->|Hne].
      * rewrite list_lookup_insert_eq by lia. rewrite Hor.
        split; [intros [= ->]|intros [[=]|(-> & _ & _)]]; [|done].
        right. repeat split; []. eapply in_cluster_key, Ho, Hom.
      * rewrite list_lookup_insert_ne by done.
        split; [by left | intros [?|(_ & ? & _)]; done].
    + intros i Hi Hin. destruct (decide (i = r)) as [->|Hne].
      * rewrite list_lookup_insert_eq by lia. eauto.
      * rewrite list_lookup_insert_ne by done. apply Hv; lia.
  - (* a new cluster *)
    pose proof (λ i, wf_fresh _ _ _ i Hwf) as Hfresh.
    destruct Hwf as [? Hnext Hids Ho Hv]. split; simpl.
    + by rewrite !length_insert.
    + lia.
    + rewrite fmap_app, Hids. simpl. by rewrite seqZ_snoc.
    + intros i k. rewrite in_cluster_snoc, <- Ho.
      destruct (decide (i = m)) as [->|Hnem].
      * rewrite list_lookup_insert_eq by (rewrite length_insert; lia). rewrite Hom.
        split; [intros [= ->]|intros [[=]|[-> _]]]; [|done].
        right. split; [done|]. apply elem_of_pair; by right.
      * rewrite list_lookup_insert_ne by done.
        destruct (decide (i = r)) as [->|Hner].
        -- rewrite list_lookup_insert_eq by lia. rewrite Hor.
           split; [intros [= ->]|intros [[=]|[-> _]]]; [|done].
           right. split; [done|]. apply elem_of_pair; by left.
        -- rewrite list_lookup_insert_ne by done.
           split; [by left | intros [?|[_ [?|?]%elem_of_pair]]; done].
    + intros i Hi Hin. destruct (decide (i = m)) as [->|Hnem].
      * rewrite list_lookup_insert_eq by (rewrite length_insert; lia). eauto.
      * rewrite list_lookup_insert_ne by done.
        destruct (decide (i = r)) as [->|Hner].
        -- rewrite list_lookup_insert_eq by lia. eauto.
        -- rewrite list_lookup_insert_ne by done. apply Hv; lia.
Qed.

(** *** [np.argmin] returns the first minimum *)

Lemma argmin_from_spec (l pre : list Z) best_i best :
  pre !! best_i = Some best →
  (∀ j w, pre !! j = Some w → best ≤ w) →
  (∀ j w, (j < best_i)%nat → pre !! j = Some w → best < w) →
  ∃ v, (pre ++ l) !! argbest_from Z.ltb best_i best (length pre) l = Some v
       ∧ (∀ j w, (pre ++ l) !! j = Some w → v ≤ w)
       ∧ (∀ j w, (j < argbest_from Z.ltb best_i best (length pre) l)%nat →
                 (pre ++ l) !! j = Some w → v < w).
Proof.
  revert pre best_i best.
  induction l as [|x l IH]; intros pre best_i best Hbest Hmin Hfirst; simpl.
  - rewrite app_nil_r. eauto.
  - replace (pre ++ x :: l) with ((pre ++ [x]) ++ l) by by rewrite <- app_assoc.
    replace (S (length pre)) with (length (pre ++ [x])) by (rewrite length_app; simpl; lia).
    destruct (Z.ltb_spec x best) as [Hlt|Hge].
    + apply IH.
      * rewrite lookup_app_r by lia. by rewrite Nat.sub_diag.
      * intros j w Hj. apply lookup_app_Some in Hj as [Hj|[_ Hj]].
        -- specialize (Hmin _ _ Hj). lia.
        -- apply list_lookup_singleton_Some in Hj as [_ ->]. lia.
      * intros j w Hlen Hj. rewrite lookup_app_l in Hj by lia.
        specialize (Hmin _ _ Hj). lia.
    + apply IH.
      * rewrite lookup_app_l; [done|]. by eapply lookup_lt_Some.
      * intros j w Hj. apply lookup_app_Some in Hj as [Hj|[_ Hj]].
        -- eauto.
        -- apply list_lookup_singleton_Some in Hj as [_ ->]. lia.
      * intros j w Hlt Hj. apply lookup_lt_Some in Hbest.
        rewrite lookup_app_l in Hj by lia. eauto.
Qed.

Lemma argmin_spec (row : list Z) m :
  ReID.argmin row = Some m →
  ∃ v, row !! m = Some v
       ∧ (∀ j w, row !! j = Some w → v ≤ w)
       ∧ (∀ j w, (j < m)%nat → row !! j = Some w → v < w).
Proof.
  unfold ReID.argmin. destruct row as [|x row]; simpl; [done|].
  intros [= <-].
  apply (argmin_from_spec row [x] 0%nat x); [done|..].
  - intros j w Hj. apply list_lookup_singleton_Some in Hj as [_ ->]. lia.
  - intros j w Hj. lia.
Qed.

Lemma argmin_first_min (row : list Z) : ReID.argmin row = first_min row.
Proof.
  unfold first_min.
  destruct (ReID.argmin row) as [m|] eqn:Hm.
  - destruct (argmin_spec _ _ Hm) as (v & Hv & Hmin & Hfirst).
    assert (list_find (λ x, Forall (λ y, x ≤ y) row) row = Some (m, v)) as ->; [|done].
    apply list_find_Some. split; [done|]. split.
    + apply Forall_forall. intros y Hy.
      apply list_elem_of_lookup in Hy as [j Hj]. eauto.
    + intros j y Hj Hlt Hall.
      specialize (Hfirst _ _ Hlt Hj).
      rewrite Forall_forall in Hall.
      assert (y ≤ v); [|lia]. apply Hall. by eapply list_elem_of_lookup_2.
  - destruct row; [done|]. done.
Qed.

(** *** The code refines the specification's resolver *)


Lemma dict_set_add_member (cl : dict Z (list nat)) c l x :
  NoDup cl.*1 → dict_get c cl = Some l →
  dict_set c (l ++ [x]) cl = add_member c x cl.
Proof.
  unfold add_member.
  induction cl as [|[k l'] cl IH]; simpl; [done|].
  intros [Hk Hnd]%NoDup_cons.
  destruct (decide (c = k)) as [->|Hne].
  - intros [= ->]. rewrite decide_True by done. f_equal.
    symmetry. rewrite <- (list_fmap_id cl) at 2. apply list_fmap_ext.
    intros _ [k' l''] Hin%list_elem_of_lookup_2. simpl.
    rewrite decide_False; [done|]. intros ->. apply Hk.
    apply list_elem_of_fmap. by exists (k, l'').
  - intros Hg. rewrite decide_False by done. by rewrite IH.
Qed.

Lemma wf_owner_nonneg n r t i c :
  wf n r t → owner t !! i = Some (Some c) → 0 ≤ c < next_id t.
Proof.
  intros Hwf Ho. apply (wf_owner _ _ _ Hwf) in Ho.
  apply in_cluster_key in Ho. rewrite (wf_ids _ _ _ Hwf) in Ho.
  apply elem_of_seqZ in Ho. lia.
Qed.

Lemma wf_cluster_get n r t i c :
  wf n r t → owner t !! i = Some (Some c) → ∃ l, dict_get c (clusters t) = Some l.
Proof.
  intros Hwf Ho. apply (wf_owner _ _ _ Hwf) in Ho.
  apply in_cluster_key, (dict_get_is_Some (clusters t)) in Ho as [l Hl]. eauto.
Qed.

Lemma wf_NoDup n r t : wf n r t → NoDup (clusters t).*1.
Proof. intros Hwf. rewrite (wf_ids _ _ _ Hwf). apply NoDup_seqZ. Qed.

Lemma visit_step n r m row s t :
  wf n r t → abs s t → (r < n)%nat → (m < n)%nat → ReID.argmin row = Some m →
  ∃ s', ReID.visit row r s = Some s' ∧ abs s' (step m r t).
Proof.
  intros Hwf (Hk & Hod & Hc) Hr Hm Harg.
  pose proof (wf_len _ _ _ Hwf) as Hlen.
  destruct (lookup_lt_is_Some_2 (owner t) r) as [o_r Hor]; [lia|].
  destruct (lookup_lt_is_Some_2 (owner t) m) as [o_m Hom]; [lia|].
  destruct s as [od ks cnt]. simpl in *. subst od ks cnt.
  unfold ReID.visit, step. simpl. rewrite Harg. simpl.
  rewrite !list_lookup_fmap, Hor, Hom. simpl.
  destruct o_r as [c|], o_m as [c'|]; simpl.
  - pose proof (wf_owner_nonneg _ _ _ _ _ Hwf Hor).
    pose proof (wf_owner_nonneg _ _ _ _ _ Hwf Hom).
    rewrite !bool_decide_eq_false_2 by lia. simpl. eexists; split; [done|].
    by split_and!.
  - pose proof (wf_owner_nonneg _ _ _ _ _ Hwf Hor).
    destruct (wf_cluster_get _ _ _ _ _ Hwf Hor) as [l Hl].
    rewrite (bool_decide_eq_false_2 (c = -1)) by lia. simpl.
    unfold ReID.dict_append. rewrite Hl. simpl.
    eexists; split; [done|]. split_and!; simpl; [| |done].
    2: { apply dict_set_add_member; [by apply (wf_NoDup n r)|done]. }
    by rewrite list_fmap_insert.
  - pose proof (wf_owner_nonneg _ _ _ _ _ Hwf Hom).
    destruct (wf_cluster_get _ _ _ _ _ Hwf Hom) as [l Hl].
    rewrite (bool_decide_eq_false_2 (c' = -1)) by lia. simpl.
    unfold ReID.dict_append. rewrite Hl. simpl.
    eexists; split; [done|]. split_and!; simpl; [| |done].
    2: { apply dict_set_add_member; [by apply (wf_NoDup n r)|done]. }
    by rewrite list_fmap_insert.
  - assert (next_id t ∉ (clusters t).*1) as Hfresh.
    { rewrite (wf_ids _ _ _ Hwf), elem_of_seqZ. lia. }
    rewrite list_lookup_insert_eq by (rewrite length_fmap; lia). simpl.
    unfold ReID.dict_append.
    rewrite dict_set_fresh, dict_get_snoc by done. simpl.
    rewrite dict_set_snoc by done.
    eexists; split; [done|]. split_and!; simpl; [|done..].
    by rewrite !list_fmap_insert.
Qed.


Lemma abs_init n : abs (ReID.init n) (start n).
Proof. split_and!; simpl; [|done..]. by rewrite fmap_replicate. Qed.

Lemma visit_rows_refines n rows r s t :
  Forall (λ row, length row = n) rows → (r + length rows = n)%nat →
  wf n r t → abs s t →
  ∃ s', ReID.visit_rows rows r s = Some s'
        ∧ abs s' (resolve_rows rows r t)
        ∧ wf n n (resolve_rows rows r t).
Proof.
  revert r s t. induction rows as [|row rows IH]; intros r s t Hrows Hn Hwf Habs; simpl.
  - simpl in Hn. replace r with n in Hwf by lia. eauto.
  - apply Forall_cons in Hrows as [Hrow Hrows]. simpl in Hn.
    destruct (argbest_is_Some Z.ltb row) as [m Hm].
    { intros ->. simpl in Hrow. lia. }
    pose proof (argbest_bound _ _ _ Hm) as Hlt.
    rewrite <- argmin_first_min. change (ReID.argmin row = Some m) in Hm. rewrite Hm.
    destruct (visit_step n r m row s t) as (s' & Hv & Habs'); [done|done|lia|lia|done|].
    rewrite Hv. simpl. apply IH; [done|lia| |done].
    apply wf_step; [done|lia|lia].
Qed.

Lemma process_dist_mat_refines (dist_mat : list (list Z)) :
  square dist_mat →
  ReID.process_dist_mat dist_mat = Some (resolve dist_mat)
  ∧ wf (length dist_mat) (length dist_mat)
       (resolve_rows dist_mat 0 (start (length dist_mat))).
Proof.
  intros Hsq. unfold ReID.process_dist_mat, resolve.
  destruct (visit_rows_refines (length dist_mat) dist_mat 0
              (ReID.init (length dist_mat)) (start (length dist_mat)))
    as (s' & Hv & (_ & Hod & _) & Hwf); [done|done|apply wf_start|apply abs_init|].
  rewrite Hv. simpl. by rewrite Hod.
Qed.

(** Every index lies in one cluster and in no other; cluster ids are
    [0, 1, ...] in the order of allocation. *)
Lemma resolve_covers (dist_mat : list (list Z)) :
  square dist_mat →
  ∃ cl, ReID.process_dist_mat dist_mat = Some cl
    ∧ cl.*1 = seqZ 0 (Z.of_nat (length cl))
    ∧ (∀ i, (i < length dist_mat)%nat →
            ∃ c, in_cluster cl c i ∧ ∀ c', in_cluster cl c' i → c' = c)
    ∧ (∀ c i, in_cluster cl c i → (i < length dist_mat)%nat).
Proof.
  intros Hsq. destruct (process_dist_mat_refines _ Hsq) as [Hp Hwf].
  exists (resolve dist_mat). split; [done|]. unfold resolve.
  set (t := resolve_rows _ _ _) in *. split_and!.
  - pose proof (wf_ids _ _ _ Hwf) as Hids. rewrite Hids. f_equal.
    apply (f_equal length) in Hids. rewrite length_fmap, length_seqZ in Hids.
    pose proof (wf_next _ _ _ Hwf). lia.
  - intros i Hi. destruct (wf_visited _ _ _ Hwf i) as [c Hc]; [done..|].
    exists c. split; [by apply (wf_owner _ _ _ Hwf)|].
    intros c' Hc'. apply (wf_owner _ _ _ Hwf) in Hc'. congruence.
  - intros c i Hin. apply (wf_owner _ _ _ Hwf) in Hin.
    apply lookup_lt_Some in Hin. by rewrite (wf_len _ _ _ Hwf) in Hin.
Qed.

(** *** How often an index is listed *)


Lemma occurrences_snoc i cl c l :
  occurrences i (cl ++ [(c, l)])
  = (occurrences i cl + length (filter (λ x, x = i) l))%nat.
Proof.
  unfold occurrences. rewrite fmap_app, concat_app. simpl.
  by rewrite app_nil_r, filter_app, length_app.
Qed.

Lemma occurrences_cons i cl c l :
  occurrences i ((c, l) :: cl)
  = (length (filter (λ x, x = i) l) + occurrences i cl)%nat.
Proof. unfold occurrences. simpl. by rewrite filter_app, length_app. Qed.

Lemma add_member_notin c x cl : c ∉ cl.*1 → add_member c x cl = cl.
Proof.
  intros Hc. unfold add_member. rewrite <- (list_fmap_id cl) at 2.
  apply list_fmap_ext. intros _ [k l] Hin%list_elem_of_lookup_2. simpl.
  rewrite decide_False; [done|]. intros ->. apply Hc.
  apply list_elem_of_fmap. by exists (c, l).
Qed.

Lemma occurrences_add_member i cl c x :
  NoDup cl.*1 → c ∈ cl.*1 →
  occurrences i (add_member c x cl)
  = (occurrences i cl + (if decide (x = i) then 1 else 0))%nat.
Proof.
  induction cl as [|[k l] cl IH]; simpl; intros Hnd Hin.
  - by apply elem_of_nil in Hin.
  - apply NoDup_cons in Hnd as [Hk Hnd].
    change (add_member c x ((k, l) :: cl))
      with ((if decide (k = c) then (k, l ++ [x]) else (k, l)) :: add_member c x cl).
    destruct (decide (k = c)) as [->|Hne].
    + rewrite add_member_notin by done. rewrite !occurrences_cons.
      rewrite filter_app, length_app, filter_cons, filter_nil.
      destruct (decide (x = i)); simpl; lia.
    + apply elem_of_cons in Hin as [->|Hin]; [done|].
      rewrite !occurrences_cons, IH by done. lia.
Qed.

Lemma occurrences_absent i cl : (∀ c, ¬ in_cluster cl c i) → occurrences i cl = 0%nat.
Proof.
  induction cl as [|[k l] cl IH]; intros Hno; [done|].
  rewrite occurrences_cons, IH.
  - assert (i ∉ l) as Hi.
    { intros Hi. apply (Hno k). exists l. split; [apply elem_of_cons; by left|done]. }
    clear -Hi. induction l as [|y l IHl]; [done|].
    apply not_elem_of_cons in Hi as [Hne Hi].
    rewrite filter_cons, decide_False by done. auto.
  - intros c (l' & Hin & Hi). apply (Hno c). exists l'.
    split; [apply elem_of_cons; by right|done].
Qed.

Lemma wf_unowned_absent n r t i :
  wf n r t → owner t !! i = Some None → occurrences i (clusters t) = 0%nat.
Proof.
  intros Hwf Ho. apply occurrences_absent. intros c Hin.
  apply (wf_owner _ _ _ Hwf) in Hin. congruence.
Qed.

Lemma filter_pair (i a b : nat) :
  length (filter (λ x, x = i) [a; b])
  = ((if decide (a = i) then 1 else 0) + (if decide (b = i) then 1 else 0))%nat.
Proof.
  rewrite !filter_cons, filter_nil.
  destruct (decide (a = i)), (decide (b = i)); done.
Qed.

(** A row matched by an earlier row, or matched to another row, is not
    self-matched. *)
Lemma matched_not_self fm n r m t :
  wf n r t → owner t !! m = Some None → (m < n)%nat →
  fm r = Some m → r ≠ m → ¬ self_matched fm m.
Proof.
  intros Hwf Hom Hm Hfm Hne [Hself Hfirst].
  destruct (decide (r < m)%nat) as [Hlt|Hge].
  - by apply (Hfirst r).
  - destruct (wf_visited _ _ _ Hwf m) as [c Hc]; [lia|done|congruence].
Qed.

Lemma counted_step fm n r m t :
  wf n r t → counted fm r t → (r < n)%nat → (m < n)%nat → fm r = Some m →
  counted fm (S r) (step m r t).
Proof.
  intros Hwf Hcnt Hr Hm Hfm.
  pose proof (wf_len _ _ _ Hwf) as Hlen.
  pose proof (wf_NoDup _ _ _ Hwf) as Hnd.
  destruct (lookup_lt_is_Some_2 (owner t) r) as [o_r Hor]; [lia|].
  destruct (lookup_lt_is_Some_2 (owner t) m) as [o_m Hom]; [lia|].
  destruct Hcnt as [Hnone Htwice Honce Hahead].
  unfold step. rewrite Hor, Hom.
  destruct o_r as [c|], o_m as [c'|].
  - (* both assigned *)
    split; [|done|done|].
    + intros i j Hi Hj. destruct (decide (j = r)) as [->|]; [|apply (Hnone i); [done|lia]].
      rewrite Hfm. intros [= ->]. congruence.
    + intros i k Hi Hle. destruct (Hahead i k Hi) as (j & Hj & Hfj); [lia|].
      exists j. split; [lia|done].
  - (* the match joins the row's cluster *)
    assert (r ≠ m) as Hrm by (intros ->; congruence).
    assert (c ∈ (clusters t).*1) as Hc.
    { eapply in_cluster_key, (wf_owner _ _ _ Hwf), Hor. }
    split; simpl.
    + intros i j Hi Hj. destruct (decide (i = m)) as [->|Hne].
      { rewrite list_lookup_insert_eq in Hi by lia. done. }
      rewrite list_lookup_insert_ne in Hi by done.
      destruct (decide (j = r)) as [->|]; [|apply (Hnone i); [done|lia]].
      rewrite Hfm. by intros [= ->].
    + intros i k Hi Hself. rewrite occurrences_add_member by done.
      destruct (decide (m = i)) as [<-|Hne].
      * by destruct (matched_not_self fm n r m t).
      * rewrite list_lookup_insert_ne in Hi by done.
        rewrite (Htwice i k) by done. lia.
    + intros i k Hi Hself. rewrite occurrences_add_member by done.
      destruct (decide (m = i)) as [<-|Hne].
      * by rewrite (wf_unowned_absent n r).
      * rewrite list_lookup_insert_ne in Hi by done.
        rewrite (Honce i k) by done. lia.
    + intros i k Hi Hle. destruct (decide (i = m)) as [->|Hne]; [exists r; split; [lia|done]|].
      rewrite list_lookup_insert_ne in Hi by done.
      destruct (Hahead i k Hi) as (j & Hj & Hfj); [lia|]. exists j. split; [lia|done].
  - (* the row joins the match's cluster *)
    assert (r ≠ m) as Hrm by (intros ->; congruence).
    assert (c' ∈ (clusters t).*1) as Hc.
    { eapply in_cluster_key, (wf_owner _ _ _ Hwf), Hom. }
    split; simpl.
    + intros i j Hi Hj. destruct (decide (i = r)) as [->|Hne].
      { rewrite list_lookup_insert_eq in Hi by lia. done. }
      rewrite list_lookup_insert_ne in Hi by done.
      destruct (decide (j = r)) as [->|]; [|apply (Hnone i); [done|lia]].
      rewrite Hfm. intros [= ->]. congruence.
    + intros i k Hi Hself. rewrite occurrences_add_member by done.
      destruct (decide (r = i)) as [<-|Hne].
      * destruct Hself as [Hself _]. congruence.
      * rewrite list_lookup_insert_ne in Hi by done.
        rewrite (Htwice i k) by done. lia.
    + intros i k Hi Hself. rewrite occurrences_add_member by done.
      destruct (decide (r = i)) as [<-|Hne].
      * by rewrite (wf_unowned_absent n r).
      * rewrite list_lookup_insert_ne in Hi by done.
        rewrite (Honce i k) by done. lia.
    + intros i k Hi Hle. destruct (decide (i = r)) as [->|Hne]; [lia|].
      rewrite list_lookup_insert_ne in Hi by done.
      destruct (Hahead i k Hi) as (j & Hj & Hfj); [lia|]. exists j. split; [lia|done].
  - (* a new cluster *)
    split; simpl.
    + intros i j Hi Hj. destruct (decide (i = m)) as [->|Hnem].
      { rewrite list_lookup_insert_eq in Hi by (rewrite length_insert; lia). done. }
      rewrite list_lookup_insert_ne in Hi by done.
      destruct (decide (i = r)) as [->|Hner].
      { rewrite list_lookup_insert_eq in Hi by lia. done. }
      rewrite list_lookup_insert_ne in Hi by done.
      destruct (decide (j = r)) as [->|]; [|apply (Hnone i); [done|lia]].
      rewrite Hfm. by intros [= ->].
    + intros i k Hi Hself. rewrite occurrences_snoc, filter_pair.
      destruct (decide (m = i)) as [<-|Hnem].
      * destruct (decide (r = m)) as [->|Hrm].
        -- by rewrite (wf_unowned_absent n m).
        -- by destruct (matched_not_self fm n r m t).
      * rewrite list_lookup_insert_ne in Hi by done.
        destruct (decide (r = i)) as [<-|Hner].
        -- destruct Hself as [Hself _]. congruence.
        -- rewrite list_lookup_insert_ne in Hi by done.
           rewrite (Htwice i k) by done. lia.
    + intros i k Hi Hself. rewrite occurrences_snoc, filter_pair.
      destruct (decide (m = i)) as [<-|Hnem].
      * destruct (decide (r = m)) as [->|Hrm].
        -- destruct Hself. split; [done|]. intros j Hj. by apply (Hnone m).
        -- by rewrite (wf_unowned_absent n r).
      * rewrite list_lookup_insert_ne in Hi by done.
        destruct (decide (r = i)) as [<-|Hner].
        -- by rewrite (wf_unowned_absent n r).
        -- rewrite list_lookup_insert_ne in Hi by done.
           rewrite (Honce i k) by done. lia.
    + intros i k Hi Hle. destruct (decide (i = m)) as [->|Hnem]; [exists r; split; [lia|done]|].
      rewrite list_lookup_insert_ne in Hi by done.
      destruct (decide (i = r)) as [->|Hner]; [lia|].
      rewrite list_lookup_insert_ne in Hi by done.
      destruct (Hahead i k Hi) as (j & Hj & Hfj); [lia|]. exists j. split; [lia|done].
Qed.


Lemma first_min_bound row m : first_min row = Some m → (m < length row)%nat.
Proof. rewrite <- argmin_first_min. apply argbest_bound. Qed.

Lemma resolve_rows_counted (matrix pre rows : list (list Z)) t :
  matrix = pre ++ rows → square matrix →
  wf (length matrix) (length pre) t → counted (row_min matrix) (length pre) t →
  counted (row_min matrix) (length matrix) (resolve_rows rows (length pre) t).
Proof.
  revert pre t. induction rows as [|row rows IH]; intros pre t HM Hsq Hwf Hcnt; simpl.
  - rewrite app_nil_r in HM. by subst pre.
  - assert (matrix !! length pre = Some row) as Hrow.
    { subst matrix. by rewrite list_lookup_middle. }
    assert (length row = length matrix) as Hlen.
    { unfold square in Hsq. rewrite Forall_forall in Hsq.
      apply Hsq. by eapply list_elem_of_lookup_2. }
    assert (length pre < length matrix)%nat as Hr by by eapply lookup_lt_Some.
    destruct (argbest_is_Some Z.ltb row) as [m Hm].
    { intros ->. simpl in Hlen. lia. }
    change (ReID.argmin row = Some m) in Hm. rewrite argmin_first_min in Hm.
    pose proof (first_min_bound _ _ Hm) as Hlt. rewrite Hm.
    replace (S (length pre)) with (length (pre ++ [row]))
      by (rewrite length_app; simpl; lia).
    apply IH.
    + subst matrix. by rewrite <- app_assoc.
    + done.
    + rewrite length_app. simpl. rewrite Nat.add_1_r. apply wf_step; [done|lia|lia].
    + rewrite length_app. simpl. rewrite Nat.add_1_r.
      apply (counted_step _ (length matrix)); [done|done|lia|lia|].
      unfold row_min. by rewrite Hrow.
Qed.

Lemma counted_start fm n : counted fm 0 (start n).
Proof.
  split; simpl.
  - intros i j _ Hj. lia.
  - intros i c Hi. apply lookup_replicate in Hi as [? _]. done.
  - intros i c Hi. apply lookup_replicate in Hi as [? _]. done.
  - intros i c Hi. apply lookup_replicate in Hi as [? _]. done.
Qed.

(** An index is listed once, or twice when its row is self-matched. *)
Lemma resolve_occurrences (dist_mat : list (list Z)) :
  square dist_mat →
  ∃ cl, ReID.process_dist_mat dist_mat = Some cl
    ∧ ∀ i, (i < length dist_mat)%nat →
        (self_matched (row_min dist_mat) i → occurrences i cl = 2%nat)
        ∧ (¬ self_matched (row_min dist_mat) i → occurrences i cl = 1%nat).
Proof.
  intros Hsq. destruct (process_dist_mat_refines _ Hsq) as [Hp Hwf].
  exists (resolve dist_mat). split; [done|]. unfold resolve.
  pose proof (resolve_rows_counted dist_mat [] dist_mat (start (length dist_mat))
                eq_refl Hsq (wf_start _) (counted_start _ _)) as Hcnt.
  simpl in Hcnt. set (t := resolve_rows _ _ _) in *.
  intros i Hi. destruct (wf_visited _ _ _ Hwf i) as [c Hc]; [done..|].
  split; intros Hself.
  - by apply (cnt_twice _ _ _ Hcnt i c).
  - by apply (cnt_once _ _ _ Hcnt i c).
Qed.
End Resolver_facts.

(** ** Self-match suppression *)

Module Suppress_facts.
Import Py Py_facts ReID Resolver_spec Resolver_facts.

Lemma suppress_length (l : list Z) :
  l ≠ [] → ∃ l', suppress l = Some l' ∧ length l' = length l.
Proof.
  intros Hne. unfold suppress.
  destruct (argbest_is_Some Z.gtb l Hne) as [j Hj].
  destruct (argbest_is_Some Z.ltb l Hne) as [i Hi].
  destruct (lookup_lt_is_Some_2 l j) as [v Hv]; [by eapply argbest_bound|].
  unfold argmax, argmin. rewrite Hj. simpl. rewrite Hv. simpl. rewrite Hi. simpl.
  eexists; split; [done|]. by rewrite length_insert.
Qed.

Lemma argmax_from_opp (l : list Z) best_i best i :
  argbest_from Z.gtb best_i best i l
  = argbest_from Z.ltb best_i (- best) i (Z.opp <$> l).
Proof.
  revert best_i best i. induction l as [|x l IH]; intros best_i best i; simpl; [done|].
  rewrite Z.gtb_ltb.
  destruct (Z.ltb_spec best x), (Z.ltb_spec (- x) (- best)); try lia; apply IH.
Qed.

Lemma argmax_spec (row : list Z) m :
  argmax row = Some m →
  ∃ v, row !! m = Some v
       ∧ (∀ j w, row !! j = Some w → w ≤ v)
       ∧ (∀ j w, (j < m)%nat → row !! j = Some w → w < v).
Proof.
  intros Hm.
  assert (argmin (Z.opp <$> row) = Some m) as Hm'.
  { destruct row as [|x row]; [done|]. unfold argmax, argmin in *. simpl in *.
    by rewrite <- argmax_from_opp. }
  destruct (argmin_spec _ _ Hm') as (v & Hv & Hmin & Hfirst).
  rewrite list_lookup_fmap in Hv.
  destruct (row !! m) as [v'|] eqn:Hv'; [|done]. simpl in Hv. simplify_eq.
  exists v'. split; [done|]. split.
  - intros j w Hj. specialize (Hmin j (- w)).
    rewrite list_lookup_fmap, Hj in Hmin. specialize (Hmin eq_refl). lia.
  - intros j w Hlt Hj. specialize (Hfirst j (- w) Hlt).
    rewrite list_lookup_fmap, Hj in Hfirst. specialize (Hfirst eq_refl). lia.
Qed.

(** When the diagonal entry is the strict minimum of its row, suppression
    keeps the row from matching itself, provided the row is not the first
    or two of its other entries differ. *)
Lemma suppress_avoids_self (row : list Z) (r : nat) v0 :
  row !! r = Some v0 →
  (∀ j w, row !! j = Some w → j ≠ r → v0 < w) →
  ((0 < r)%nat
   ∨ ∃ j j' w w', row !! j = Some w ∧ row !! j' = Some w' ∧ j ≠ r ∧ j' ≠ r ∧ w < w') →
  ∃ row', suppress row = Some row' ∧ argmin row' ≠ Some r.
Proof.
  intros Hr Hstrict Hcase.
  assert (row ≠ []) as Hne by (intros ->; done).
  destruct (suppress_length row Hne) as (row' & Hs & Hlen).
  exists row'. split; [done|]. intros Hself.
  unfold suppress in Hs.
  destruct (argmax row) as [a|] eqn:Ha; simpl in Hs; [|done].
  destruct (argmax_spec _ _ Ha) as (M & HM & Hmax & _). rewrite HM in Hs. simpl in Hs.
  destruct (argmin row) as [m|] eqn:Hm; simpl in Hs; [|done].
  destruct (argmin_spec _ _ Hm) as (v & Hv & Hmin & _).
  assert (m = r) as ->.
  { destruct (decide (m = r)); [done|].
    specialize (Hstrict _ _ Hv ltac:(done)). specialize (Hmin _ _ Hr). lia. }
  simplify_eq.
  destruct (argmin_spec _ _ Hself) as (v' & Hv' & Hmin' & Hfirst').
  rewrite list_lookup_insert_eq in Hv' by by eapply lookup_lt_Some.
  simplify_eq.
  destruct Hcase as [Hpos|(j & j' & w & w' & Hj & Hj' & Hjr & Hj'r & Hlt)].
  - destruct (lookup_lt_is_Some_2 row 0) as [w0 Hw0].
    { apply lookup_lt_Some in Hr. lia. }
    specialize (Hfirst' 0%nat w0 Hpos). rewrite list_lookup_insert_ne in Hfirst' by lia.
    specialize (Hfirst' Hw0). specialize (Hmax _ _ Hw0). lia.
  - specialize (Hmin' j w). rewrite list_lookup_insert_ne in Hmin' by done.
    specialize (Hmin' Hj). specialize (Hmax _ _ Hj'). lia.
Qed.
End Suppress_facts.

(** ** Strings: splitting *)

Module String_facts.
Import Py Assembler_spec.


Lemma app_nil (b : string) : "" +:+ b = b.
Proof. reflexivity. Qed.

Lemma app_cons (c : ascii) (a b : string) : String c a +:+ b = String c (a +:+ b).
Proof. reflexivity. Qed.

Lemma append_assoc (a b c : string) : (a +:+ b) +:+ c = a +:+ (b +:+ c).
Proof. induction a as [|x a IH]; [done|]. by rewrite !app_cons, IH. Qed.

Lemma split_nonempty sep s : split sep s ≠ [].
Proof.
  destruct s as [|c s]; simpl; [done|].
  destruct (decide (c = sep)); [done|]. by destruct (split sep s).
Qed.

Lemma join_split sep s : join sep (split sep s) = s.
Proof.
  induction s as [|c s IH]; simpl; [done|].
  destruct (decide (c = sep)) as [->|Hne].
  - pose proof (split_nonempty sep s).
    simpl. destruct (split sep s) eqn:E; [done|]. by rewrite IH.
  - destruct (split sep s) as [|p ps] eqn:E.
    + by apply split_nonempty in E.
    + simpl in *. destruct ps; simpl in *; by rewrite <- IH.
Qed.

Lemma split_pieces sep s : Forall (λ p, occurs sep p = false) (split sep s).
Proof.
  induction s as [|c s IH]; simpl; [by repeat constructor|].
  destruct (decide (c = sep)) as [->|Hne]; [by constructor|].
  destruct (split sep s) as [|p ps] eqn:E.
  - repeat constructor. simpl. by rewrite bool_decide_eq_false_2.
  - apply Forall_cons in IH as [Hp Hps]. constructor; [|done].
    simpl. by rewrite bool_decide_eq_false_2.
Qed.

Lemma join_snoc sep ps f :
  ps ≠ [] → join sep (ps ++ [f]) = join sep ps +:+ String sep f.
Proof.
  induction ps as [|p ps IH]; [done|]. intros _.
  destruct ps as [|p' ps]; [done|].
  change (join sep ((p :: p' :: ps) ++ [f]))
    with (p +:+ String sep (join sep ((p' :: ps) ++ [f]))).
  rewrite IH by done.
  change (join sep (p :: p' :: ps)) with (p +:+ String sep (join sep (p' :: ps))).
  generalize (join sep (p' :: ps)). intros j.
  by rewrite append_assoc, app_cons.
Qed.


Lemma split_last sep p :
  ∃ f, index_last (split sep p) = Some f ∧ final_component sep p f.
Proof.
  pose proof (join_split sep p) as Hj.
  pose proof (split_pieces sep p) as Hp.
  pose proof (split_nonempty sep p) as Hne.
  destruct (split sep p) as [|x l _] using rev_ind; [done|].
  - exists x. unfold index_last. rewrite last_snoc. split; [done|].
    apply Forall_app in Hp as [_ [Hx _]%Forall_cons]. split; [done|].
    destruct l as [|y l]; [left; by rewrite <- Hj|].
    right. exists (join sep (y :: l)). rewrite <- Hj. by apply join_snoc.
Qed.

Lemma occurs_app sep s1 s2 : occurs sep (s1 +:+ s2) = occurs sep s1 || occurs sep s2.
Proof.
  induction s1 as [|c s1 IH]; [done|]. rewrite app_cons. simpl.
  by rewrite IH, orb_assoc.
Qed.

Lemma rsplit1_no_sep sep s : occurs sep s = false → rsplit1 sep s = [s].
Proof.
  induction s as [|c s IH]; simpl; [done|].
  intros [Hc Hs]%orb_false_elim. rewrite IH by done.
  apply bool_decide_eq_false in Hc. by rewrite decide_False.
Qed.

(** Splitting at the last separator undoes an append of a piece that
    holds no separator. *)
Lemma rsplit1_app sep g l :
  occurs sep l = false → rsplit1 sep (g +:+ String sep l) = [g; l].
Proof.
  intros Hl. induction g as [|c g IH].
  - rewrite app_nil. simpl. rewrite rsplit1_no_sep by done. by rewrite decide_True.
  - rewrite app_cons. simpl. by rewrite IH.
Qed.

(** In general the split falls inside the appended text, at its last
    separator. *)
Lemma rsplit1_app_sep sep g l1 l2 :
  occurs sep l2 = false →
  rsplit1 sep (g +:+ String sep (l1 +:+ String sep l2)) = [g +:+ String sep l1; l2].
Proof.
  intros Hl. rewrite <- (rsplit1_app sep (g +:+ String sep l1) l2) by done.
  by rewrite append_assoc, app_cons.
Qed.
End String_facts.

(** ** The result assembler *)

Module Assembler_facts.
Import Py Py_facts String_facts ReID Assembler_spec.


Lemma label_inj c c' : "ID-" +:+ str c = "ID-" +:+ str c' → c = c'.
Proof. intros Heq. apply (inj _) in Heq. by apply (inj pretty) in Heq. Qed.

Lemma names_of_in_range (names : list string) (l : list nat) :
  Forall (λ i, (i < length names)%nat) l →
  names_of names l = Some ((λ i, names !!! i) <$> l).
Proof.
  intros Hl. unfold names_of. apply mapM_Some_2.
  apply Forall2_fmap_r, Forall_Forall2_diag.
  eapply Forall_impl; [done|]. intros i Hi. simpl.
  by apply list_lookup_lookup_total_lt.
Qed.

Lemma format_items_assembles names items out :
  NoDup items.*1 →
  Forall (λ e, Forall (λ i, (i < length names)%nat) e.2) items →
  (∀ c, c ∈ items.*1 → "ID-" +:+ str c ∉ out.*1) →
  format_items names items out = Some (out ++ (assembled names <$> items)).
Proof.
  revert out. induction items as [|[c l] items IH]; intros out Hnd Hrange Hout; simpl.
  - by rewrite app_nil_r.
  - apply NoDup_cons in Hnd as [Hc Hnd]. apply Forall_cons in Hrange as [Hl Hrange].
    rewrite names_of_in_range by done. simpl.
    assert ("ID-" +:+ str c ∉ out.*1) as Hfresh.
    { apply Hout. simpl. apply elem_of_cons. by left. }
    unfold dict_mem. rewrite (proj2 (dict_get_None out _) Hfresh).
    rewrite dict_set_fresh by done.
    rewrite IH; [by rewrite <- app_assoc|done|done|].
    intros c' Hc'. rewrite fmap_app. simpl. rewrite elem_of_app, list_elem_of_singleton.
    intros [Hin|Heq].
    + revert Hin. apply Hout. simpl. apply elem_of_cons; by right.
    + apply label_inj in Heq as ->. done.
Qed.

Lemma mapM_img_name (image_paths : list string) :
  ∃ names, mapM img_name image_paths = Some names
           ∧ Forall2 (final_component "/") image_paths names.
Proof.
  induction image_paths as [|p ps (names & Hm & Hf)].
  - by exists [].
  - destruct (split_last "/" p) as (f & Hf1 & Hf2).
    exists (f :: names). split; [|by constructor].
    apply mapM_Some. constructor; [exact Hf1 | by apply mapM_Some].
Qed.

Lemma format_output_dict_assembles (image_paths : list string) (clusters : dict Z (list nat)) :
  NoDup clusters.*1 →
  Forall (λ e, Forall (λ i, (i < length image_paths)%nat) e.2) clusters →
  ∃ names, Forall2 (final_component "/") image_paths names
    ∧ format_output_dict image_paths clusters = Some (assembled names <$> clusters).
Proof.
  intros Hnd Hrange.
  destruct (mapM_img_name image_paths) as (names & Hm & Hf).
  exists names. split; [done|].
  unfold format_output_dict. rewrite Hm. simpl.
  rewrite format_items_assembles; [done|done| |].
  - by rewrite <- (Forall2_length _ _ _ Hf).
  - intros c _. apply not_elem_of_nil.
Qed.

Lemma assembled_labels names (clusters : dict Z (list nat)) :
  NoDup clusters.*1 → NoDup (assembled names <$> clusters).*1.
Proof.
  intros Hnd. rewrite <- list_fmap_compose.
  replace (fst ∘ assembled names)
    with ((λ c, "ID-" +:+ str c) ∘ (fst : Z * list nat → Z)) by done.
  rewrite list_fmap_compose. apply NoDup_fmap_2; [|done].
  intros c c'. apply label_inj.
Qed.
End Assembler_facts.

(** ** Arithmetic: the rationals satisfy the laws *)

Module Exact_facts.
Local Open Scope Qc_scope.

Lemma fle_exact (x y : Qc) : @fle Qc exact x y ↔ x ≤ y.
Proof. unfold fle. simpl. apply bool_decide_eq_true. Qed.

Lemma trunc_of_Z k : Exact.trunc (Qc_of_Z k) = k.
Proof. unfold Exact.trunc. simpl. apply Z.quot_1_r. Qed.

Lemma trunc_mono (x y : Qc) : 0 ≤ x → x ≤ y → (Exact.trunc x ≤ Exact.trunc y)%Z.
Proof.
  intros H0 Hxy.
  assert (∀ q : Qc, 0 ≤ q → Exact.trunc q = Qfloor q) as Hfl.
  { intros [[n d] Hq] Hq0. unfold Exact.trunc. simpl.
    apply Z.quot_div_nonneg; [|done].
    unfold Qcle, Qle in Hq0. simpl in Hq0. lia. }
  rewrite (Hfl x H0), (Hfl y (Qcle_trans _ _ _ H0 Hxy)).
  apply Qfloor_resp_le, Hxy.
Qed.

Lemma of_Z_nonneg k : (0 ≤ k)%Z → 0 ≤ Qc_of_Z k.
Proof. intros Hk%Z2Qc_inj_le. by rewrite Z2Qc_inj_0 in Hk. Qed.

Lemma of_Z_pos k : (0 < k)%Z → 0 < Qc_of_Z k.
Proof. intros Hk%Z2Qc_inj_lt. by rewrite Z2Qc_inj_0 in Hk. Qed.

Lemma exact_laws : @PyFloatLaws Qc exact.
Proof.
  split; simpl.
  - intros a b n [Ha Hab] Hn. apply fle_exact. unfold Exact.truediv, Qcdiv.
    apply Qcmult_le_mono_nonneg_r.
    + apply Qclt_le_weak, Qcinv_pos, of_Z_pos, Hn.
    + apply (proj1 (Z2Qc_inj_le a b) Hab).
  - intros n Hn. unfold Exact.truediv, Qcdiv. rewrite Qcmult_inv_r; [by rewrite Z2Qc_inj_1|].
    rewrite <- Z2Qc_inj_0. intros Heq%Z2Qc_inj. lia.
  - intros n Hn. unfold Exact.truediv, Qcdiv. by rewrite Z2Qc_inj_0, Qcmult_0_l.
  - intros x y k [Hk _] Hxy. apply fle_exact. apply fle_exact in Hxy.
    by apply Qcmult_le_mono_nonneg_r; [apply of_Z_nonneg|].
  - intros a b _ _. by rewrite Z2Qc_inj_mul.
  - intros k _. apply trunc_of_Z.
  - intros x y H0 Hxy _. apply fle_exact in H0, Hxy. rewrite Z2Qc_inj_0 in H0.
    by apply trunc_mono.
Qed.
End Exact_facts.

(** ** Progress of the identity resolution *)

Module Progress_facts.
Import Py ReID Progress_spec.

Section laws.
Context `{PyFloatLaws F}.


Lemma progress_value_percent (n i : nat) :
  n ≠ 0%nat → progress_value i n = Some (percent n i).
Proof.
  intros Hn. unfold progress_value, py_truediv.
  rewrite decide_False by lia. done.
Qed.

Lemma fle_1 : fle (of_int 1) (of_int 1).
Proof.
  rewrite <- (truediv_same 1) by lia. apply truediv_mono; lia.
Qed.

Lemma fle_0 : fle (of_int 0) (of_int 0).
Proof.
  rewrite <- (truediv_zero 1) by lia. apply truediv_mono; lia.
Qed.

Lemma fle_100 : fle (of_int 100) (of_int 100).
Proof.
  pose proof (fmul_mono _ _ 100 ltac:(lia) fle_1) as Hq.
  rewrite (fmul_of_int 1 100) in Hq by lia. exact Hq.
Qed.

(** The product before truncation lies between 0 and 100 and grows
    with the row index. *)
Lemma scaled_lower (n i : nat) :
  (0 < n)%nat →
  fle (of_int 0) (fmul (int_truediv (Z.of_nat i + 1) (Z.of_nat n)) (of_int 100)).
Proof.
  intros Hn.
  assert (fle (of_int 0) (int_truediv (Z.of_nat i + 1) (Z.of_nat n))) as Hq.
  { rewrite <- (truediv_zero (Z.of_nat n)) by lia. apply truediv_mono; lia. }
  apply (fmul_mono _ _ 100) in Hq; [|lia].
  rewrite (fmul_of_int 0 100) in Hq by lia. exact Hq.
Qed.

Lemma scaled_mono (n i j : nat) :
  (0 < n)%nat → (i ≤ j)%nat →
  fle (fmul (int_truediv (Z.of_nat i + 1) (Z.of_nat n)) (of_int 100))
      (fmul (int_truediv (Z.of_nat j + 1) (Z.of_nat n)) (of_int 100)).
Proof. intros Hn Hij. apply fmul_mono; [lia|]. apply truediv_mono; lia. Qed.

Lemma scaled_upper (n i : nat) :
  (i < n)%nat →
  fle (fmul (int_truediv (Z.of_nat i + 1) (Z.of_nat n)) (of_int 100)) (of_int 100).
Proof.
  intros Hi.
  assert (fle (int_truediv (Z.of_nat i + 1) (Z.of_nat n)) (of_int 1)) as Hq.
  { rewrite <- (truediv_same (Z.of_nat n)) by lia. apply truediv_mono; lia. }
  apply (fmul_mono _ _ 100) in Hq; [|lia].
  rewrite (fmul_of_int 1 100) in Hq by lia. exact Hq.
Qed.

Lemma percent_mono (n i j : nat) :
  (i ≤ j)%nat → (j < n)%nat → percent n i ≤ percent n j.
Proof.
  intros Hij Hj. apply to_int_mono.
  - apply scaled_lower; lia.
  - apply scaled_mono; lia.
  - by apply scaled_upper.
Qed.

Lemma percent_bounds (n i : nat) : (i < n)%nat → 0 ≤ percent n i ≤ 100.
Proof.
  intros Hi. split.
  - pose proof (to_int_mono _ _ fle_0 (scaled_lower n i ltac:(lia))
                  (scaled_upper n i Hi)) as Hle.
    by rewrite to_int_of_int in Hle by lia.
  - pose proof (to_int_mono _ _ (scaled_lower n i ltac:(lia))
                  (scaled_upper n i Hi) fle_100) as Hle.
    by rewrite to_int_of_int in Hle by lia.
Qed.

Lemma percent_last (n : nat) : (0 < n)%nat → percent n (n - 1) = 100.
Proof.
  intros Hn. unfold percent.
  replace (Z.of_nat (n - 1) + 1) with (Z.of_nat n) by lia.
  rewrite truediv_same by lia. rewrite fmul_of_int by lia.
  by rewrite to_int_of_int by lia.
Qed.
End laws.
End Progress_facts.

(** ** The whole identity resolution *)

Module Main_facts.
Import Py Py_facts ReID Resolver_spec Assembler_spec Progress_spec.
Import Resolver_facts Suppress_facts Assembler_facts String_facts Progress_facts.

Section main.
Context `{PyFloat F}.
Context {image : Type} (load_and_preprocess_image : string → option image)
        (dist : image → image → Z).

Lemma compute_distances_length (q : image) (gallery : list image) :
  gallery ≠ [] →
  ∃ d, compute_distances dist q gallery true = Some d ∧ length d = length gallery.
Proof.
  intros Hne. unfold compute_distances.
  destruct (suppress_length (map (dist q) gallery)) as (d & Hd & Hlen).
  { by destruct gallery. }
  exists d. split; [done|]. by rewrite Hlen, length_map.
Qed.


Lemma distance_rows_calls (n : nat) (gallery queries : list image) cb index :
  n ≠ 0%nat → gallery ≠ [] →
  ∃ mat, distance_rows dist n gallery cb queries index
         = Some (mat, if cb then calls_from n index (length queries) else [])
    ∧ length mat = length queries
    ∧ Forall (λ row, length row = length gallery) mat.
Proof.
  intros Hn Hg. revert index.
  induction queries as [|q queries IH]; intros index.
  - exists []. by destruct cb.
  - destruct (compute_distances_length q gallery Hg) as (d & Hd & Hlen).
    destruct (IH (S index)) as (mat & Hmat & Hl & Hrows).
    cbn [distance_rows]. rewrite Hd. cbn [mbind option_bind].
    rewrite progress_value_percent by done. cbn [mbind option_bind]. rewrite Hmat.
    cbn [mbind option_bind].
    exists (d :: mat). split_and!; [by destruct cb|simpl; by rewrite Hl|by constructor].
Qed.

(** When every file loads, [main] returns, and the callback has been
    called once per image, in order. *)
Lemma main_returns (image_path_list : list string) cb :
  Forall (λ p, is_Some (load_and_preprocess_image p)) image_path_list →
  ∃ out, main load_and_preprocess_image dist image_path_list cb
         = Some (if cb then calls_from (length image_path_list) 0 (length image_path_list)
                 else [], out).
Proof.
  intros Hload. unfold main.
  destruct (mapM_is_Some_2 load_and_preprocess_image image_path_list) as [imgs Himgs].
  { eapply Forall_impl; [done|]. by intros p. }
  rewrite Himgs. simpl.
  pose proof (length_mapM _ _ _ Himgs) as Hlen.
  destruct image_path_list as [|p ps].
  - destruct imgs; [|done]. simpl. exists []. by destruct cb.
  - destruct (distance_rows_calls (length (p :: ps)) imgs imgs cb 0)
      as (mat & Hmat & Hl & Hrows); [done|by destruct imgs|].
    rewrite Hmat. simpl. rewrite <- Hlen.
    assert (square mat) as Hsq.
    { unfold square. by rewrite Hl. }
    destruct (resolve_covers mat Hsq) as (cl & Hcl & Hids & _ & Hrange).
    rewrite Hcl. simpl.
    destruct (format_output_dict_assembles (p :: ps) cl) as (names & _ & Hout).
    { rewrite Hids. apply NoDup_seqZ. }
    { apply Forall_forall. intros [c l] Hin. apply Forall_forall. intros i Hi.
      rewrite Hlen, <- Hl. apply (Hrange c). by exists l. }
    rewrite Hout. simpl. eauto.
Qed.
End main.
End Main_facts.

(** ** The detector wrapper *)

Module Detection_facts.
Import Py Py_facts Detection.

Lemma exact_order : PyFloatOrder (H := exact) Qc.
Proof.
  split; simpl.
  - intros x. apply bool_decide_eq_false. apply Qcle_not_lt, Qcle_refl.
  - intros x y z Hxy%bool_decide_eq_true Hyz%bool_decide_eq_true.
    apply bool_decide_eq_true. by eapply Qclt_trans.
  - intros x y z Hxy%bool_decide_eq_true.
    destruct (Qclt_le_dec x z) as [Hxz|Hzx].
    + left. by apply bool_decide_eq_true.
    + right. apply bool_decide_eq_true. by eapply Qcle_lt_trans.
Qed.

Section order.
Context `{PyFloatOrder F}.

(** The scan of [np.argmax], with the entries seen so far in [pre]. *)
Lemma conf_argmax_from_spec (l pre : list F) best_i best :
  pre !! best_i = Some best →
  (∀ j w, pre !! j = Some w → fltb best w = false) →
  (∀ j w, (j < best_i)%nat → pre !! j = Some w → fltb w best = true) →
  ∃ v, (pre ++ l) !! argbest_from (λ x best, fltb best x) best_i best (length pre) l = Some v
       ∧ (∀ j w, (pre ++ l) !! j = Some w → fltb v w = false)
       ∧ (∀ j w, (j < argbest_from (λ x best, fltb best x) best_i best (length pre) l)%nat →
                 (pre ++ l) !! j = Some w → fltb w v = true).
Proof.
  revert pre best_i best.
  induction l as [|x l IH]; intros pre best_i best Hbest Hmax Hfirst; simpl.
  - rewrite app_nil_r. eauto.
  - replace (pre ++ x :: l) with ((pre ++ [x]) ++ l) by by rewrite <- app_assoc.
    replace (S (length pre)) with (length (pre ++ [x])) by (rewrite length_app; simpl; lia).
    destruct (fltb best x) eqn:Hlt.
    + apply IH.
      * rewrite lookup_app_r by lia. by rewrite Nat.sub_diag.
      * intros j w Hj. apply lookup_app_Some in Hj as [Hj|[_ Hj]].
        -- destruct (fltb x w) eqn:Hxw; [|done].
           rewrite <- (Hmax _ _ Hj). symmetry. by eapply fltb_trans.
        -- apply list_lookup_singleton_Some in Hj as [_ ->]. apply fltb_irrefl.
      * intros j w Hlen Hj. rewrite lookup_app_l in Hj by lia.
        destruct (fltb_cotrans _ _ w Hlt) as [Hbw|Hwx]; [|done].
        by rewrite (Hmax _ _ Hj) in Hbw.
    + apply IH.
      * rewrite lookup_app_l; [done|]. by eapply lookup_lt_Some.
      * intros j w Hj. apply lookup_app_Some in Hj as [Hj|[_ Hj]].
        -- eauto.
        -- by apply list_lookup_singleton_Some in Hj as [_ ->].
      * intros j w Hj' Hj. apply lookup_lt_Some in Hbest.
        rewrite lookup_app_l in Hj by lia. eauto.
Qed.

Lemma conf_argmax_spec (l : list F) m :
  argmax l = Some m →
  ∃ v, l !! m = Some v
       ∧ (∀ j w, l !! j = Some w → fltb v w = false)
       ∧ (∀ j w, (j < m)%nat → l !! j = Some w → fltb w v = true).
Proof.
  unfold argmax. destruct l as [|x l]; simpl; [done|].
  intros [= <-].
  apply (conf_argmax_from_spec l [x] 0%nat x); [done|..].
  - intros j w Hj. apply list_lookup_singleton_Some in Hj as [_ ->]. apply fltb_irrefl.
  - intros j w Hj. lia.
Qed.
End order.

(** The same scan on a list of numbers, whatever the other floats do. *)
Section numbers.
Context `{PyFloat F} (P : F → Prop).
Hypothesis irrefl : ∀ x, P x → fltb x x = false.
Hypothesis trans :
  ∀ x y z, P x → P y → P z → fltb x y = true → fltb y z = true → fltb x z = true.
Hypothesis cotrans :
  ∀ x y z, P x → P y → P z → fltb x y = true → fltb x z = true ∨ fltb z y = true.

Lemma argmax_from_numbers (l pre : list F) best_i best :
  Forall P pre → Forall P l →
  pre !! best_i = Some best →
  (∀ j w, pre !! j = Some w → fltb best w = false) →
  (∀ j w, (j < best_i)%nat → pre !! j = Some w → fltb w best = true) →
  ∃ v, (pre ++ l) !! argbest_from (λ x best, fltb best x) best_i best (length pre) l = Some v
       ∧ (∀ j w, (pre ++ l) !! j = Some w → fltb v w = false)
       ∧ (∀ j w, (j < argbest_from (λ x best, fltb best x) best_i best (length pre) l)%nat →
                 (pre ++ l) !! j = Some w → fltb w v = true).
Proof.
  revert pre best_i best.
  induction l as [|x l IH]; intros pre best_i best Hpre Hl Hbest Hmax Hfirst; simpl.
  - rewrite app_nil_r. eauto.
  - apply Forall_cons in Hl as [Hx Hl].
    assert (P best) as Hpb.
    { apply (proj1 (Forall_forall _ _) Hpre). by eapply list_elem_of_lookup_2. }
    assert (∀ j w, pre !! j = Some w → P w) as Hpw.
    { intros j w Hj. apply (proj1 (Forall_forall _ _) Hpre).
      by eapply list_elem_of_lookup_2. }
    assert (Forall P (pre ++ [x])) as Hpre'.
    { apply Forall_app. split; [done|]. by constructor. }
    replace (pre ++ x :: l) with ((pre ++ [x]) ++ l) by by rewrite <- app_assoc.
    replace (S (length pre)) with (length (pre ++ [x])) by (rewrite length_app; simpl; lia).
    destruct (fltb best x) eqn:Hlt.
    + apply IH; [done..| | |].
      * rewrite lookup_app_r by lia. by rewrite Nat.sub_diag.
      * intros j w Hj. apply lookup_app_Some in Hj as [Hj|[_ Hj]].
        -- destruct (fltb x w) eqn:Hxw; [|done].
           rewrite <- (Hmax _ _ Hj). symmetry. eapply (trans best x w); eauto.
        -- apply list_lookup_singleton_Some in Hj as [_ ->]. by apply irrefl.
      * intros j w Hlen Hj. rewrite lookup_app_l in Hj by lia.
        destruct (cotrans best x w Hpb Hx (Hpw _ _ Hj) Hlt) as [Hbw|Hwx]; [|done].
        by rewrite (Hmax _ _ Hj) in Hbw.
    + apply IH; [done..| | |].
      * rewrite lookup_app_l; [done|]. by eapply lookup_lt_Some.
      * intros j w Hj. apply lookup_app_Some in Hj as [Hj|[_ Hj]].
        -- eauto.
        -- by apply list_lookup_singleton_Some in Hj as [_ ->].
      * intros j w Hj' Hj. apply lookup_lt_Some in Hbest.
        rewrite lookup_app_l in Hj by lia. eauto.
Qed.

Lemma argmax_numbers (l : list F) m :
  Forall P l →
  argmax l = Some m →
  ∃ v, l !! m = Some v
       ∧ (∀ j w, l !! j = Some w → fltb v w = false)
       ∧ (∀ j w, (j < m)%nat → l !! j = Some w → fltb w v = true).
Proof.
  unfold argmax. destruct l as [|x l]; simpl; [done|].
  intros [Hx Hl]%Forall_cons [= <-].
  apply (argmax_from_numbers l [x] 0%nat x); [by constructor|done|done|..].
  - intros j w Hj. apply list_lookup_singleton_Some in Hj as [_ ->]. by apply irrefl.
  - intros j w Hj. lia.
Qed.
End numbers.

(** What [numbers] checks. *)
Lemma numbers_spec `{PyFloat F} (l : list F) :
  Detection_spec.numbers l = true →
  (∀ x, x ∈ l → fleb x x = true ∧ fltb x x = false)
  ∧ (∀ x y z, x ∈ l → y ∈ l → z ∈ l →
       fltb x y = true → fltb y z = true → fltb x z = true)
  ∧ (∀ x y z, x ∈ l → y ∈ l → z ∈ l →
       fltb x y = true → fltb x z = true ∨ fltb z y = true).
Proof.
  unfold Detection_spec.numbers. rewrite forallb_forall. intros Hall.
  assert (∀ x, x ∈ l → fleb x x && negb (fltb x x) = true
                       ∧ ∀ y z, y ∈ l → z ∈ l → Detection_spec.ordered x y z = true)
    as Hord.
  { intros x Hx%list_elem_of_In. specialize (Hall x Hx).
    apply andb_true_iff in Hall as [Hnum Hall]. split; [done|].
    intros y z Hy%list_elem_of_In Hz%list_elem_of_In.
    rewrite forallb_forall in Hall. specialize (Hall y Hy).
    rewrite forallb_forall in Hall. exact (Hall z Hz). }
  split_and!.
  - intros x Hx. destruct (Hord x Hx) as [Hnum _].
    apply andb_true_iff in Hnum as [? ?%negb_true_iff]. done.
  - intros x y z Hx Hy Hz Hxy Hyz. pose proof (proj2 (Hord x Hx) y z Hy Hz) as Ho.
    unfold Detection_spec.ordered in Ho. rewrite Hxy, Hyz in Ho. simpl in Ho.
    by apply andb_true_iff in Ho as [? _].
  - intros x y z Hx Hy Hz Hxy. pose proof (proj2 (Hord x Hx) y z Hy Hz) as Ho.
    unfold Detection_spec.ordered in Ho. rewrite Hxy in Ho.
    apply andb_true_iff in Ho as [_ Ho]. simpl in Ho.
    by apply orb_true_iff in Ho.
Qed.

(** [a[lo:hi]] for bounds that are not negative. *)
Lemma slice_lookup {A} (lo hi : Z) (a : list A) (i : nat) :
  0 ≤ lo → 0 ≤ hi →
  slice lo hi a !! i
  = if bool_decide (lo + Z.of_nat i < hi) then a !! (Z.to_nat lo + i)%nat else None.
Proof.
  intros Hlo Hhi. unfold slice.
  rewrite !decide_False by lia.
  destruct (decide (Z.of_nat (length a) ≤ lo)) as [Hout|Hin].
  - rewrite (Z.min_r lo) by lia. rewrite drop_ge by lia. rewrite take_nil.
    rewrite lookup_nil. case_bool_decide; [|done].
    symmetry. apply lookup_ge_None. lia.
  - rewrite (Z.min_l lo) by lia. case_bool_decide as Hi.
    + destruct (decide (Z.of_nat i < Z.min hi (Z.of_nat (length a)) - lo)).
      * rewrite lookup_take_lt by lia. by rewrite lookup_drop.
      * rewrite lookup_take_ge by lia. symmetry. apply lookup_ge_None. lia.
    + rewrite lookup_take_ge by lia. done.
Qed.

Lemma slice_length {A} (lo hi : Z) (a : list A) :
  0 ≤ lo → 0 ≤ hi →
  Z.of_nat (length (slice lo hi a))
  = Z.max 0 (Z.min hi (Z.of_nat (length a)) - Z.min lo (Z.of_nat (length a))).
Proof.
  intros Hlo Hhi. unfold slice. rewrite !decide_False by lia.
  rewrite length_take, length_drop. lia.
Qed.

Section detection.
Context `{PyFloat F}.
Context {pixel : Type}.
Local Abbreviation image := (list (list pixel)).
Context (py_round : F → Z) (format_3f : F → string)
        (cv2_rectangle : image → Z * Z → Z * Z → Z * Z * Z → Z → image)
        (cv2_getTextSize : string → Z * Z)
        (cv2_putText : image → string → Z * Z → image).

Local Abbreviation make_inference_detection :=
  (Detection.make_inference_detection py_round format_3f cv2_rectangle cv2_getTextSize
     cv2_putText).
Local Abbreviation detections :=
  (Detection.detections py_round format_3f cv2_rectangle cv2_getTextSize cv2_putText).

(** With boxes, the only step of [make_inference_detection] that can
    fail is the lookup of the class name. *)
Lemma make_inference_detection_boxes (yolo : image → prediction F) (img : image) :
  boxes (yolo img) ≠ [] →
  ∃ m best first,
    argmax (conf <$> boxes (yolo img)) = Some m
    ∧ boxes (yolo img) !! m = Some best
    ∧ boxes (yolo img) !! 0%nat = Some first
    ∧ make_inference_detection yolo img
      = (label ← dict_get (to_int (cls best)) (names (yolo img));
         Some (Some (draw_bounding_box py_round format_3f cv2_rectangle cv2_getTextSize
                       cv2_putText img (xyxy first) (conf best),
                     crop_image py_round img (xyxy first), label, conf best))).
Proof.
  intros Hne. unfold Detection.make_inference_detection.
  destruct (boxes (yolo img)) as [|first others] eqn:Hb; [done|].
  rewrite decide_False by done.
  destruct (argbest_is_Some (λ x best, fltb best x) (conf <$> first :: others))
    as [m Hm]; [done|].
  pose proof (argbest_bound _ _ _ Hm) as Hlt. rewrite length_fmap in Hlt.
  destruct (lookup_lt_is_Some_2 (first :: others) m Hlt) as [best Hbest].
  exists m, best, first. split; [done|]. split; [done|]. split; [done|].
  unfold argmax. rewrite Hm. cbn [mbind option_bind].
  rewrite !list_lookup_fmap, Hbest. cbn [fmap option_fmap option_map mbind option_bind].
  destruct (dict_get _ _); done.
Qed.

Lemma make_inference_detection_no_boxes (yolo : image → prediction F) (img : image) :
  boxes (yolo img) = [] → make_inference_detection yolo img = Some None.
Proof.
  intros Hb. unfold Detection.make_inference_detection. rewrite Hb. done.
Qed.

Lemma make_inference_detection_None_iff (yolo : image → prediction F) (img : image) :
  make_inference_detection yolo img = Some None ↔ boxes (yolo img) = [].
Proof.
  split; [|apply make_inference_detection_no_boxes].
  intros Hnone. destruct (decide (boxes (yolo img) = [])) as [|Hne]; [done|].
  destruct (make_inference_detection_boxes yolo img Hne) as (m & best & first & _ & _ & _ & Hmid).
  rewrite Hmid in Hnone. destruct (dict_get _ _); done.
Qed.

(** With boxes whose confidences are numbers, the box whose label and
    confidence are reported is one of maximal confidence, the first of
    them. *)
Lemma make_inference_detection_best (yolo : image → prediction F) (img : image) :
  boxes (yolo img) ≠ [] →
  Detection_spec.numbers (conf <$> boxes (yolo img)) = true →
  ∃ m best first,
    argmax (conf <$> boxes (yolo img)) = Some m
    ∧ boxes (yolo img) !! m = Some best
    ∧ boxes (yolo img) !! 0%nat = Some first
    ∧ Forall (λ b, fltb (conf best) (conf b) = false) (boxes (yolo img))
    ∧ (∀ j b, (j < m)%nat → boxes (yolo img) !! j = Some b →
              fltb (conf b) (conf best) = true)
    ∧ make_inference_detection yolo img
      = (label ← dict_get (to_int (cls best)) (names (yolo img));
         Some (Some (draw_bounding_box py_round format_3f cv2_rectangle cv2_getTextSize
                       cv2_putText img (xyxy first) (conf best),
                     crop_image py_round img (xyxy first), label, conf best))).
Proof.
  intros Hne Hnum.
  destruct (make_inference_detection_boxes yolo img Hne)
    as (m & best & first & Hm & Hbest & Hfirst & Hmid).
  destruct (numbers_spec _ Hnum) as (Hirr & Htrans & Hcot).
  destruct (argmax_numbers (.∈ conf <$> boxes (yolo img))
              (λ x Hx, proj2 (Hirr x Hx)) Htrans Hcot _ m
              ltac:(by apply Forall_forall) Hm) as (v & Hv & Hmax & Hbefore).
  rewrite list_lookup_fmap, Hbest in Hv. simpl in Hv. injection Hv as <-.
  exists m, best, first. split_and!; [done..| | |done].
  - apply Forall_forall. intros b Hb. apply list_elem_of_lookup in Hb as [j Hj].
    apply (Hmax j). by rewrite list_lookup_fmap, Hj.
  - intros j b Hlt Hj. apply (Hbefore j); [done|]. by rewrite list_lookup_fmap, Hj.
Qed.

(** The loop of [main] keeps the detections of the images that have one. *)
Lemma detections_omap (yolo : image → prediction F) (images : list image) :
  detections yolo images = omap id <$> mapM (make_inference_detection yolo) images.
Proof.
  induction images as [|img images IH]; [done|].
  cbn [Detection.detections]. rewrite IH.
  cbn [mapM]. destruct (make_inference_detection yolo img) as [d|]; [|done].
  cbn [mbind option_bind]. destruct (mapM _ images) as [ds|]; [|done].
  cbn. by destruct d.
Qed.

(** On one image the loop returns the detection, if there is one. *)
Lemma detections_one (yolo : image → prediction F) (img : image) :
  detections yolo [img]
  = (d ← make_inference_detection yolo img;
     Some (match d with Some t => [t] | None => [] end)).
Proof. cbn [Detection.detections]. by destruct (make_inference_detection yolo img) as [[t|]|]. Qed.

(** The loop raises exactly when the detection of one of the images
    raises; otherwise it holds one detection for each image with a box, in
    the order of the images. *)
Lemma detections_spec (yolo : image → prediction F) (images : list image) :
  (detections yolo images = None
   ↔ ∃ img, img ∈ images ∧ make_inference_detection yolo img = None)
  ∧ ∀ image_with_boxes,
      detections yolo images = Some image_with_boxes →
      Forall2 (λ img d, make_inference_detection yolo img = Some (Some d))
        (filter (λ img, boxes (yolo img) ≠ []) images) image_with_boxes.
Proof.
  induction images as [|img images [IHnone IHsome]].
  - split.
    + split; [done|]. intros (img & Hin & _). by apply elem_of_nil in Hin.
    + intros ds [= <-]. constructor.
  - cbn [Detection.detections].
    pose proof (make_inference_detection_None_iff yolo img) as Hiff.
    destruct (make_inference_detection yolo img) as [d|] eqn:Hd; cbn [mbind option_bind].
    + split.
      * destruct (detections yolo images) as [ds|] eqn:Hds; simpl.
        -- split; [done|]. intros (img' & [->|Hin]%elem_of_cons & Hno).
           ++ by rewrite Hd in Hno.
           ++ by pose proof (proj2 IHnone (ex_intro _ img' (conj Hin Hno))).
        -- split; [|done]. intros _.
           destruct (proj1 IHnone eq_refl) as (img' & Hin & Hno).
           exists img'. split; [by apply elem_of_cons; right|done].
      * intros ds Hds.
        destruct (detections yolo images) as [ds'|]; simpl in Hds; [|done].
        injection Hds as <-. specialize (IHsome ds' eq_refl).
        destruct d as [t|].
        -- rewrite filter_cons_True.
           { by constructor. }
           intros Hnil. apply Hiff in Hnil. done.
        -- rewrite filter_cons_False; [done|].
           intros Hne. apply Hne. by apply Hiff.
    + split; [|done]. split; [|done]. intros _. exists img.
      split; [apply elem_of_cons; by left|done].
Qed.

Context (model_path : string) (os_path_exists : string → bool)
        (YOLO : string → option (image → prediction F)).

Local Abbreviation main :=
  (Detection.main py_round format_3f cv2_rectangle cv2_getTextSize cv2_putText
     model_path os_path_exists YOLO).

(** [main] with the model file in place and a model that loads. *)
Lemma main_loaded (yolo : image → prediction F) (images : list image) :
  os_path_exists model_path = true → YOLO model_path = Some yolo →
  main images = detections yolo images.
Proof. intros Hex Hyolo. unfold Detection.main. by rewrite Hex, Hyolo. Qed.

(** [main] raises before the loop when the model file is missing or does
    not load. *)
Lemma main_Some (images : list image) image_with_boxes :
  main images = Some image_with_boxes →
  ∃ yolo, os_path_exists model_path = true ∧ YOLO model_path = Some yolo
          ∧ detections yolo images = Some image_with_boxes.
Proof.
  unfold Detection.main. destruct (os_path_exists model_path); [|done].
  destruct (YOLO model_path) as [yolo|]; [|done]. simpl. by exists yolo.
Qed.
End detection.
End Detection_facts.

(** ** The extraction worker *)

Module Upload_facts.
Import Py String_facts UploadPage.

Lemma max_workers_pos num_cores : 1 ≤ max_workers num_cores.
Proof.
  unfold max_workers. destruct (decide (num_cores > 1)); [|lia].
  apply Z.div_le_lower_bound; lia.
Qed.

Lemma length_append (a b : string) :
  String.length (a +:+ b) = (String.length a + String.length b)%nat.
Proof. induction a as [|c a IH]; [done|]. rewrite app_cons. simpl. by rewrite IH. Qed.

Lemma append_grows (a b : string) : a +:+ String " " b ≠ a.
Proof.
  intros Heq. apply (f_equal String.length) in Heq.
  rewrite length_append in Heq. simpl in Heq. lia.
Qed.

Section worker.
Context `{PyFloat F}.
Context {pixel : Type}.
Local Abbreviation image := (list (list pixel)).
Context (py_round : F → Z) (format_3f : F → string)
        (cv2_rectangle : image → Z * Z → Z * Z → Z * Z * Z → Z → image)
        (cv2_getTextSize : string → Z * Z)
        (cv2_putText : image → string → Z * Z → image)
        (model_path : string) (os_path_exists : string → bool)
        (YOLO : string → option (image → Detection.prediction F)).
Context (cv2_imread : string → option image)
        (cv2_imwrite : string → image → option bool)
        (cv2_resize : image → Z * Z → image)
        (os_makedirs : string → option unit)
        (os_path_basename : string → string)
        (os_path_splitext : string → string * string)
        (os_path_join : string → string → string → string)
        (os_path_join2 : string → string → string)
        (upload_date : nat → string)
        (time_time : nat → F).
Context (fsub fdiv ffloordiv fmod : F → F → F).

Local Abbreviation process_image_func :=
  (process_image_func py_round format_3f cv2_rectangle cv2_getTextSize cv2_putText
     model_path os_path_exists YOLO cv2_imread cv2_imwrite cv2_resize os_makedirs
     os_path_basename os_path_splitext os_path_join os_path_join2 upload_date).
Local Abbreviation submit_all :=
  (submit_all py_round format_3f cv2_rectangle cv2_getTextSize cv2_putText
     model_path os_path_exists YOLO cv2_imread cv2_imwrite cv2_resize os_makedirs
     os_path_basename os_path_splitext os_path_join os_path_join2 upload_date).
Local Abbreviation collect := (collect time_time fsub fdiv ffloordiv fmod).
Local Abbreviation outcome :=
  (outcome py_round format_3f cv2_rectangle cv2_getTextSize cv2_putText
     model_path os_path_exists YOLO cv2_imread cv2_imwrite cv2_resize os_makedirs
     os_path_basename os_path_splitext os_path_join os_path_join2 upload_date).
Local Abbreviation report := (report time_time fsub fdiv ffloordiv fmod).
Local Abbreviation run :=
  (run py_round format_3f cv2_rectangle cv2_getTextSize cv2_putText
     model_path os_path_exists YOLO cv2_imread cv2_imwrite cv2_resize os_makedirs
     os_path_basename os_path_splitext os_path_join os_path_join2 upload_date
     time_time fsub fdiv ffloordiv fmod).
Local Abbreviation detection_main :=
  (detection_main py_round format_3f cv2_rectangle cv2_getTextSize cv2_putText
     model_path os_path_exists YOLO).
Local Abbreviation make_inference_detection :=
  (Detection.make_inference_detection py_round format_3f cv2_rectangle cv2_getTextSize
     cv2_putText).
Local Abbreviation generate_thumbnail :=
  (generate_thumbnail os_path_exists cv2_imread cv2_imwrite cv2_resize os_makedirs
     os_path_basename os_path_join2).
(** The paths of the two files a task writes. *)
Local Abbreviation bbox_path temp_images_dir user index confidence image_path :=
  (os_path_join temp_images_dir "bbox_images"
     ("bbox_" +:+ user +:+ "_" +:+ upload_date index +:+ "_" +:+ format_3f confidence
      +:+ "_" +:+ (os_path_splitext (os_path_basename image_path)).1 +:+ ".jpg")).
Local Abbreviation crop_path temp_images_dir user index confidence image_path :=
  (os_path_join temp_images_dir "crop_images"
     ("crop_" +:+ user +:+ "_" +:+ upload_date index +:+ "_" +:+ format_3f confidence
      +:+ "_" +:+ (os_path_splitext (os_path_basename image_path)).1 +:+ ".jpg")).


(** The futures hold the outcomes of the tasks, position by position. *)
Lemma submit_all_outcomes (w : worker F) (l : list entry) index futures :
  submit_all w index l = Some futures →
  length futures = length l
  ∧ ∀ i e, l !! i = Some e →
      ∃ f, futures !! i = Some f ∧ outcome w (index + i) e = Some f.
Proof.
  revert index futures. induction l as [|e l IH]; intros index futures; simpl.
  - intros [= <-]. split; [done|]. intros i e Hi. done.
  - fold (outcome w index e).
    destruct (outcome w index e) as [f|] eqn:Hf; simpl; [|done].
    destruct (submit_all w (S index) l) as [fs|] eqn:Hfs; simpl; [|done].
    intros [= <-]. destruct (IH _ _ Hfs) as [Hlen Hout].
    split; [simpl; by rewrite Hlen|].
    intros [|i] e' Hi; simpl in *.
    + simplify_eq. exists f. by rewrite Nat.add_0_r.
    + destruct (Hout i e' Hi) as (f' & Hf' & Ho). exists f'. split; [done|].
      by replace (index + S i)%nat with (S index + i)%nat by lia.
Qed.



Lemma collect_spec total start (futures : list (option (processed F))) i acc :
  collect total start futures i acc
  = (acc ++ successes futures, report total start <$> seq i (length futures)).
Proof.
  revert i acc. induction futures as [|f futures IH]; intros i acc; simpl.
  - by rewrite app_nil_r.
  - rewrite IH. f_equal. destruct f; simpl; [|done]. by rewrite <- app_assoc.
Qed.

Lemma run_spec (workers : Z) (w : worker F) futures :
  1 ≤ workers → submit_all w 0 (images w) = Some futures →
  run workers w
  = Some ({| images := images w; temp_images_dir := temp_images_dir w;
             processed_images := processed_images w ++ successes futures;
             start_time := Some (time_time 0%nat);
             current_user := current_user w |},
          (report (Z.of_nat (length (images w))) (time_time 0%nat)
             <$> seq 0 (length (images w)))
          ++ [result_ready (processed_images w ++ successes futures);
              processing_complete]).
Proof.
  intros Hk Hsub. unfold UploadPage.run. rewrite decide_False by lia.
  rewrite Hsub. simpl. rewrite collect_spec.
  by rewrite (proj1 (submit_all_outcomes _ _ _ _ Hsub)).
Qed.

Lemma length_successes (futures : list (option (processed F))) :
  (length (successes futures) ≤ length futures)%nat.
Proof.
  induction futures as [|[f|] futures IH]; simpl; [done|..]; unfold successes in *; simpl; lia.
Qed.

Lemma successes_all (futures : list (option (processed F))) :
  Forall is_Some futures → Some <$> successes futures = futures.
Proof.
  induction 1 as [|f futures [x ->] _ IH]; [done|].
  unfold successes in *. simpl. by f_equal.
Qed.

(** A task on a file that is read, step by step: the detection, the two
    files written, the thumbnail. *)
Lemma process_image_func_readable index image_path temp_images_dir group_name user img :
  cv2_imread image_path = Some img →
  process_image_func index image_path temp_images_dir group_name user
  = (result ← detection_main [img];
     match result with
     | [] => Some None
     | (bbox_image, crop_image, label, confidence) :: _ =>
         _ ← cv2_imwrite (bbox_path temp_images_dir user index confidence image_path)
               bbox_image;
         _ ← cv2_imwrite (crop_path temp_images_dir user index confidence image_path)
               crop_image;
         _ ← generate_thumbnail
               (bbox_path temp_images_dir user index confidence image_path)
               (os_path_join2 temp_images_dir "thumbnails");
         Some (Some (bbox_path temp_images_dir user index confidence image_path,
                     crop_path temp_images_dir user index confidence image_path,
                     confidence, group_name +:+ " " +:+ label))
     end).
Proof.
  intros Himg. unfold UploadPage.process_image_func. rewrite Himg.
  destruct (detection_main [img]) as [[|[[[b c] label] conf] ?]|]; done.
Qed.

(** [detection_main] on one image. *)
Lemma detection_main_one (img : image) :
  detection_main [img]
  = (if negb (os_path_exists model_path) then None
     else
       yolo ← YOLO model_path;
       d ← make_inference_detection yolo img;
       Some (match d with Some t => [t] | None => [] end)).
Proof.
  unfold UploadPage.detection_main, Detection.main.
  destruct (os_path_exists model_path); [|done]. simpl.
  destruct (YOLO model_path) as [yolo|]; [|done]. simpl.
  apply Detection_facts.detections_one.
Qed.

(** What a successful task went through: the file was read, the model
    was there and loaded, the detection returned a box, and the three
    files were written. *)
Lemma process_image_func_Some index image_path temp_images_dir group_name user p :
  process_image_func index image_path temp_images_dir group_name user = Some (Some p) →
  ∃ yolo img bbox_image crop_image label confidence,
    cv2_imread image_path = Some img
    ∧ os_path_exists model_path = true
    ∧ YOLO model_path = Some yolo
    ∧ make_inference_detection yolo img
      = Some (Some (bbox_image, crop_image, label, confidence))
    ∧ is_Some (cv2_imwrite (bbox_path temp_images_dir user index confidence image_path)
                 bbox_image)
    ∧ is_Some (cv2_imwrite (crop_path temp_images_dir user index confidence image_path)
                 crop_image)
    ∧ is_Some (generate_thumbnail
                 (bbox_path temp_images_dir user index confidence image_path)
                 (os_path_join2 temp_images_dir "thumbnails"))
    ∧ p = (bbox_path temp_images_dir user index confidence image_path,
           crop_path temp_images_dir user index confidence image_path,
           confidence, group_name +:+ " " +:+ label).
Proof.
  destruct (cv2_imread image_path) as [img|] eqn:Himg.
  2:{ unfold UploadPage.process_image_func. by rewrite Himg. }
  rewrite (process_image_func_readable _ _ _ _ _ _ Himg), detection_main_one.
  destruct (os_path_exists model_path) eqn:Hex; [|done]. simpl.
  destruct (YOLO model_path) as [yolo|] eqn:Hyolo; [|done]. simpl.
  destruct (make_inference_detection yolo img) as [[[[[b c] label] conf]|]|] eqn:Hd;
    [|done..].
  simpl.
  destruct (cv2_imwrite _ b) as [wb|] eqn:Hwb; [|done]. simpl.
  destruct (cv2_imwrite _ c) as [wc|] eqn:Hwc; [|done]. simpl.
  destruct (generate_thumbnail _ _) as [t|] eqn:Ht; [|done]. simpl.
  intros [= <-]. exists yolo, img, b, c, label, conf.
  rewrite Hwb, Hwc, Ht. by split_and!.
Qed.
End worker.
End Upload_facts.
Module Exact_percent_facts.
Import Progress_spec.

(** With exact arithmetic the reported value is the integer part of
    [(i + 1) * 100 / n]. *)
Lemma percent_exact (n i : nat) :
  (0 < n)%nat → percent (H := exact) n i = exact_percent n i.
Proof.
  intros Hn. unfold percent, exact_percent. simpl.
  assert (0 ≤ Exact.truediv (Z.of_nat i + 1) (Z.of_nat n) * Qc_of_Z 100)%Qc as Hpos.
  { apply Qcmult_nonneg_nonneg; [|by apply Exact_facts.of_Z_nonneg].
    unfold Exact.truediv, Qcdiv. apply Qcmult_nonneg_nonneg.
    - apply Exact_facts.of_Z_nonneg. lia.
    - apply Qclt_le_weak, Qcinv_pos, Exact_facts.of_Z_pos. lia. }
  destruct (Z.of_nat n) as [|p|p] eqn:Hp; [lia| |lia].
  transitivity (Qfloor ((Z.of_nat i + 1) * 100 # p)); [|reflexivity].
  set (q := (Exact.truediv (Z.of_nat i + 1) (Z.pos p) * Qc_of_Z 100)%Qc) in *.
  assert (Exact.trunc q = Qfloor q) as ->.
  { destruct q as [[a d] Hq]. unfold Exact.trunc. simpl.
    apply Z.quot_div_nonneg; [|done].
    unfold Qcle, Qle in Hpos. simpl in Hpos. lia. }
  apply Qfloor_comp. subst q. unfold Exact.truediv, Qcdiv, Qcmult, Qcinv, Qc_of_Z. simpl.
  rewrite !Qred_correct. unfold Qeq. simpl. lia.
Qed.
End Exact_percent_facts.

(** * The claims of the specification *)

Import Py ReID Resolver_spec Assembler_spec Progress_spec.

(** ** Greedy cluster resolver *)

(** C1 (partition property).  The claim asks that every index is listed
    in exactly one cluster and there exactly once.  On the matrix of a
    single item the code lists index 0 twice: row 0 can only match itself,
    [keys[0]] and [keys[matched_index]] are both unassigned, and the first
    branch of [process_dist_mat] puts [r] and then [matched_index] into the
    new cluster without comparing them.  In general, on a square matrix the
    code returns, every index lies in one cluster and in no other, and it
    is listed there once, except that the index of a self-matched row is
    listed twice. *)
Theorem process_dist_mat_lists_self_matched_twice :
  (∀ d : Z, process_dist_mat [[d]] = Some [(0, [0%nat; 0%nat])])
  ∧ (∀ dist_mat, square dist_mat →
       ∃ cl, process_dist_mat dist_mat = Some cl
         ∧ ∀ i, (i < length dist_mat)%nat →
             (∃ c, in_cluster cl c i ∧ ∀ c', in_cluster cl c' i → c' = c)
             ∧ (self_matched (row_min dist_mat) i → occurrences i cl = 2%nat)
             ∧ (¬ self_matched (row_min dist_mat) i → occurrences i cl = 1%nat)).
Proof.
  split; [done|].
  intros dist_mat Hsq.
  destruct (Resolver_facts.resolve_covers dist_mat Hsq) as (cl & Hcl & _ & Hone & _).
  destruct (Resolver_facts.resolve_occurrences dist_mat Hsq) as (cl' & Hcl' & Hocc).
  assert (cl' = cl) as -> by congruence.
  exists cl. split; [done|]. intros i Hi. split; [by apply Hone|by apply Hocc].
Qed.

(** Two images, after suppression: row 0 is self-matched and index 0 is
    listed twice. *)
Lemma process_dist_mat_lists_self_matched_twice_witness :
  square [[5; 5]; [5; 5]]
  ∧ self_matched (row_min [[5; 5]; [5; 5]]) 0
  ∧ process_dist_mat [[5; 5]; [5; 5]] = Some [(0, [0%nat; 0%nat; 1%nat])]
  ∧ occurrences 0 [(0, [0%nat; 0%nat; 1%nat])] = 2%nat.
Proof.
  assert (square [[5; 5]; [5; 5]]) as Hsq by (repeat constructor).
  assert (self_matched (row_min [[5; 5]; [5; 5]]) 0) as Hself.
  { split; [reflexivity|]. intros j Hj. lia. }
  split; [exact Hsq|]. split; [exact Hself|]. split; [reflexivity|].
  destruct (proj2 process_dist_mat_lists_self_matched_twice _ Hsq) as (cl & Hcl & Hall).
  injection Hcl as <-.
  exact (proj1 (proj2 (Hall 0%nat ltac:(simpl; lia))) Hself).
Defined.

(** C2 (self-suppression).  The claim asks that, after suppression, the
    first minimum of row [r] is never [r].  For two images with different
    embeddings, row 0 is [[dist a a; dist a b]] with the diagonal the
    smaller entry; suppression overwrites it with the row maximum, all
    entries are then equal, and the first minimum is index 0 again: the row
    matches itself.  ([Suppress_facts.suppress_avoids_self] shows when the
    suppression does work.) *)
Theorem suppression_selects_self_of_two {image : Type} (dist : image → image → Z)
    (a b : image) :
  dist a a < dist a b →
  ∃ row, compute_distances dist a [a; b] true = Some row ∧ argmin row = Some 0%nat.
Proof.
  intros Hlt. unfold compute_distances, suppress, argmax, argmin. simpl.
  destruct (Z.gtb_spec (dist a b) (dist a a)) as [_|?]; [|lia]. simpl.
  destruct (Z.ltb_spec (dist a b) (dist a a)) as [?|_]; [lia|]. simpl.
  eexists. split; [done|]. simpl.
  by rewrite Z.ltb_irrefl.
Qed.

Lemma suppression_selects_self_of_two_witness :
  Sample.dist "a.jpg" "a.jpg" < Sample.dist "a.jpg" "b.jpg"
  ∧ ∃ row, compute_distances Sample.dist "a.jpg" ["a.jpg"; "b.jpg"] true = Some row
           ∧ argmin row = Some 0%nat.
Proof.
  split; [reflexivity|].
  apply (suppression_selects_self_of_two Sample.dist "a.jpg" "b.jpg"). reflexivity.
Defined.

(** C3 (single image).  The claim expects [{"ID-0": [A]}] for a single
    crop.  The code does not raise and returns one cluster, but its member
    list holds the image twice: ["ID-0": [A, A]] (the defect of C1, seen
    through [main]). *)
Theorem main_single_image_listed_twice `{PyFloat F} {image : Type}
    (load_and_preprocess_image : string → option image) (dist : image → image → Z)
    (A : string) (img : image) (progress_callback : bool) :
  load_and_preprocess_image A = Some img →
  ∃ name, final_component "/" A name
    ∧ main load_and_preprocess_image dist [A] progress_callback
      = Some (if progress_callback then [percent 1 0] else [], [("ID-0", [name; name])]).
Proof.
  intros Hload.
  destruct (String_facts.split_last "/" A) as (name & Hname & Hfinal).
  exists name. split; [done|].
  unfold main. simpl. rewrite Hload. simpl.
  unfold compute_distances, suppress, argmax, argmin. simpl.
  unfold progress_value, py_truediv. simpl.
  unfold format_output_dict. simpl. unfold img_name. rewrite Hname. simpl.
  by destruct progress_callback.
Qed.

Lemma main_single_image_listed_twice_witness :
  Sample.load_and_preprocess_image "crops/A.jpg" = Some "crops/A.jpg"
  ∧ ∃ name, final_component "/" "crops/A.jpg" name
      ∧ main (H := binary64) Sample.load_and_preprocess_image Sample.dist ["crops/A.jpg"] true
        = Some ([percent (H := binary64) 1 0], [("ID-0", [name; name])]).
Proof.
  split; [reflexivity|].
  apply (main_single_image_listed_twice (H := binary64) Sample.load_and_preprocess_image
           Sample.dist "crops/A.jpg" "crops/A.jpg" true).
  reflexivity.
Defined.

(** C4 (the four-case rule).  For every square matrix the code computes
    what the rule of section 4.3 computes, rows in index order, each
    matched to its first minimum; a row that is owned and whose match is
    owned leaves the state as it is, so two clusters are never merged; and
    a three-item matrix with first minima [A→B], [B→A], [C→B] gives the
    single cluster [ID-0: [A, B, C]]. *)
Theorem process_dist_mat_four_case_rule :
  (∀ dist_mat, square dist_mat → process_dist_mat dist_mat = Some (resolve dist_mat))
  ∧ (∀ row r s matched_index kr km,
       argmin row = Some matched_index →
       keys s !! r = Some kr → keys s !! matched_index = Some km →
       kr ≠ -1 → km ≠ -1 →
       visit row r s = Some s)
  ∧ (∀ row_a row_b row_c,
       argmin row_a = Some 1%nat → argmin row_b = Some 0%nat → argmin row_c = Some 1%nat →
       process_dist_mat [row_a; row_b; row_c] = Some [(0, [0%nat; 1%nat; 2%nat])]).
Proof.
  split_and!.
  - intros dist_mat Hsq. apply Resolver_facts.process_dist_mat_refines, Hsq.
  - intros row r s m kr km Hm Hkr Hkm Hr Hk. unfold visit.
    rewrite Hm. simpl. rewrite Hkr. simpl. rewrite Hkm. simpl.
    by rewrite !bool_decide_eq_false_2 by done.
  - intros row_a row_b row_c Ha Hb Hc.
    unfold process_dist_mat. simpl. unfold visit. simpl.
    rewrite Ha. simpl. rewrite Hb. simpl. rewrite Hc. done.
Qed.

Lemma process_dist_mat_four_case_rule_witness :
  square [[9; 1; 5]; [1; 9; 5]; [5; 1; 9]]
  ∧ process_dist_mat [[9; 1; 5]; [1; 9; 5]; [5; 1; 9]]
    = Some (resolve [[9; 1; 5]; [1; 9; 5]; [5; 1; 9]])
  ∧ process_dist_mat [[9; 1; 5]; [1; 9; 5]; [5; 1; 9]] = Some [(0, [0%nat; 1%nat; 2%nat])].
Proof.
  assert (square [[9; 1; 5]; [1; 9; 5]; [5; 1; 9]]) as Hsq by (repeat constructor).
  split; [exact Hsq|]. split.
  - apply (proj1 process_dist_mat_four_case_rule), Hsq.
  - apply (proj2 (proj2 process_dist_mat_four_case_rule)); reflexivity.
Defined.

(** ** Result assembler *)

(** C7 (label assembly).  For a cluster mapping with distinct ids whose
    members all index into the reference list, the assembler returns one
    entry per cluster, in the order of the mapping, labelled
    ["ID-" + str(cluster_id)] with the id as the resolver allocated it, and
    holding the final ["/"]-separated components of the references of the
    members, in the members' order.  On the resolver's own output for an
    [n]-by-[n] matrix and [n] references the ids are [0, 1, ...] in
    allocation order and the assembly succeeds. *)
Theorem format_output_dict_round_trip :
  (∀ (image_paths : list string) (clusters : dict Z (list nat)),
     NoDup clusters.*1 →
     Forall (λ e, Forall (λ i, (i < length image_paths)%nat) e.2) clusters →
     ∃ names, Forall2 (final_component "/") image_paths names
       ∧ format_output_dict image_paths clusters = Some (assembled names <$> clusters)
       ∧ NoDup (assembled names <$> clusters).*1)
  ∧ (∀ (image_paths : list string) (dist_mat : list (list Z)),
       square dist_mat → length image_paths = length dist_mat →
       ∃ clusters names,
         process_dist_mat dist_mat = Some clusters
         ∧ clusters.*1 = seqZ 0 (Z.of_nat (length clusters))
         ∧ Forall2 (final_component "/") image_paths names
         ∧ format_output_dict image_paths clusters = Some (assembled names <$> clusters)).
Proof.
  split.
  - intros image_paths clusters Hnd Hrange.
    destruct (Assembler_facts.format_output_dict_assembles image_paths clusters Hnd Hrange)
      as (names & Hf & Hout).
    exists names. split_and!; [done|done|]. by apply Assembler_facts.assembled_labels.
  - intros image_paths dist_mat Hsq Hlen.
    destruct (Resolver_facts.resolve_covers dist_mat Hsq) as (cl & Hcl & Hids & _ & Hrange).
    destruct (Assembler_facts.format_output_dict_assembles image_paths cl) as (names & Hf & Hout).
    { rewrite Hids. apply NoDup_seqZ. }
    { apply Forall_forall. intros [c l] Hin. apply Forall_forall. intros i Hi.
      rewrite Hlen. apply (Hrange c). by exists l. }
    by exists cl, names.
Qed.

Lemma format_output_dict_round_trip_witness :
  NoDup [(0, [0%nat; 1%nat]); (1, [2%nat; 3%nat])].*1
  ∧ Forall (λ e : Z * list nat,
             Forall (λ i, (i < length ["crops/A.jpg"; "B.jpg"; "/tmp/x/C.jpg"; "D.jpg"])%nat) e.2)
      [(0, [0%nat; 1%nat]); (1, [2%nat; 3%nat])]
  ∧ ∃ names,
      Forall2 (final_component "/") ["crops/A.jpg"; "B.jpg"; "/tmp/x/C.jpg"; "D.jpg"] names
      ∧ format_output_dict ["crops/A.jpg"; "B.jpg"; "/tmp/x/C.jpg"; "D.jpg"]
          [(0, [0%nat; 1%nat]); (1, [2%nat; 3%nat])]
        = Some (assembled names <$> [(0, [0%nat; 1%nat]); (1, [2%nat; 3%nat])])
      ∧ NoDup (assembled names <$> [(0, [0%nat; 1%nat]); (1, [2%nat; 3%nat])]).*1.
Proof.
  assert (NoDup [(0, [0%nat; 1%nat]); (1, [2%nat; 3%nat])].*1) as Hnd.
  { apply (NoDup_seqZ 0 2). }
  assert (Forall (λ e : Z * list nat,
             Forall (λ i, (i < length ["crops/A.jpg"; "B.jpg"; "/tmp/x/C.jpg"; "D.jpg"])%nat) e.2)
            [(0, [0%nat; 1%nat]); (1, [2%nat; 3%nat])]) as Hrange.
  { repeat constructor; simpl; lia. }
  split; [exact Hnd|]. split; [exact Hrange|].
  exact (proj1 format_output_dict_round_trip _ _ Hnd Hrange).
Defined.

(** The labels and names of that example, computed. *)
Example format_output_dict_example :
  format_output_dict ["crops/A.jpg"; "B.jpg"; "/tmp/x/C.jpg"; "D.jpg"]
    [(0, [0%nat; 1%nat]); (1, [2%nat; 3%nat])]
  = Some [("ID-0", ["A.jpg"; "B.jpg"]); ("ID-1", ["C.jpg"; "D.jpg"])].
Proof. reflexivity. Qed.

(** ** Extraction worker *)

Section upload_claims.
Context `{PyFloat F}.
Context {pixel : Type}.
Local Abbreviation image := (list (list pixel)).
Context (py_round : F → Z) (format_3f : F → string)
        (cv2_rectangle : image → Z * Z → Z * Z → Z * Z * Z → Z → image)
        (cv2_getTextSize : string → Z * Z)
        (cv2_putText : image → string → Z * Z → image)
        (model_path : string) (os_path_exists : string → bool)
        (YOLO : string → option (image → Detection.prediction F)).
Context (cv2_imread : string → option image)
        (cv2_imwrite : string → image → option bool)
        (cv2_resize : image → Z * Z → image)
        (os_makedirs : string → option unit)
        (os_path_basename : string → string)
        (os_path_splitext : string → string * string)
        (os_path_join : string → string → string → string)
        (os_path_join2 : string → string → string)
        (upload_date : nat → string)
        (time_time : nat → F).
Context (fsub fdiv ffloordiv fmod : F → F → F).

Local Abbreviation process_image_func :=
  (UploadPage.process_image_func py_round format_3f cv2_rectangle cv2_getTextSize cv2_putText
     model_path os_path_exists YOLO cv2_imread cv2_imwrite cv2_resize os_makedirs
     os_path_basename os_path_splitext os_path_join os_path_join2 upload_date).
Local Abbreviation submit_all :=
  (UploadPage.submit_all py_round format_3f cv2_rectangle cv2_getTextSize cv2_putText
     model_path os_path_exists YOLO cv2_imread cv2_imwrite cv2_resize os_makedirs
     os_path_basename os_path_splitext os_path_join os_path_join2 upload_date).
Local Abbreviation outcome :=
  (UploadPage.outcome py_round format_3f cv2_rectangle cv2_getTextSize cv2_putText
     model_path os_path_exists YOLO cv2_imread cv2_imwrite cv2_resize os_makedirs
     os_path_basename os_path_splitext os_path_join os_path_join2 upload_date).
Local Abbreviation run :=
  (UploadPage.run py_round format_3f cv2_rectangle cv2_getTextSize cv2_putText
     model_path os_path_exists YOLO cv2_imread cv2_imwrite cv2_resize os_makedirs
     os_path_basename os_path_splitext os_path_join os_path_join2 upload_date
     time_time fsub fdiv ffloordiv fmod).
Local Abbreviation make_inference_detection :=
  (Detection.make_inference_detection py_round format_3f cv2_rectangle cv2_getTextSize
     cv2_putText).

(** C5, as amended (order of the results).  For every task list and every
    worker budget of at least 1, if no task raises, [run] returns; the list
    it hands over holds the results of the tasks that succeeded, in
    submission order, and nothing for a task whose image fails to load or
    yields no detection: such a task neither stops the batch nor takes a
    place in the list.  The list is therefore no longer than the task list,
    it does not depend on the budget, and it matches the tasks position by
    position when every task succeeds. *)
Theorem run_returns_successes_in_order (workers : Z) (images : list UploadPage.entry)
    (temp_images_dir user : string) (futures : list (option (UploadPage.processed F))) :
  1 ≤ workers →
  submit_all (UploadPage.new_worker images temp_images_dir user) 0 images = Some futures →
  ∃ w' signals,
    run workers (UploadPage.new_worker images temp_images_dir user) = Some (w', signals)
    ∧ UploadPage.processed_images w' = UploadPage.successes futures
    ∧ UploadPage.result_ready (UploadPage.successes futures) ∈ signals
    ∧ length futures = length images
    ∧ (∀ i e, images !! i = Some e →
         ∃ f, futures !! i = Some f
              ∧ outcome (UploadPage.new_worker images temp_images_dir user) i e = Some f)
    ∧ (length (UploadPage.successes futures) ≤ length images)%nat
    ∧ (Forall is_Some futures → Some <$> UploadPage.processed_images w' = futures).
Proof.
  intros Hk Hsub.
  pose proof (Upload_facts.run_spec py_round format_3f cv2_rectangle cv2_getTextSize
                cv2_putText model_path os_path_exists YOLO cv2_imread cv2_imwrite cv2_resize
                os_makedirs os_path_basename os_path_splitext os_path_join os_path_join2
                upload_date time_time fsub fdiv ffloordiv fmod workers _ futures Hk Hsub) as Hrun.
  destruct (Upload_facts.submit_all_outcomes _ _ _ _ _ _ _ _ _ _ _ _ _ _ _ _ _ _ _ _ _ Hsub)
    as [Hlen Hout].
  eexists _, _. split; [exact Hrun|]. simpl. split_and!.
  - done.
  - apply elem_of_app. right. apply elem_of_cons. by left.
  - done.
  - intros i e Hi. destruct (Hout i e Hi) as (f & Hf & Ho). by exists f.
  - rewrite <- Hlen. apply Upload_facts.length_successes.
  - apply Upload_facts.successes_all.
Qed.

(** C6 (progress reports).  While collecting, [run] emits one progress
    signal per task, in order, followed only by the two final signals; the
    [i]-th one (from 0) carries the count [i + 1], the number of tasks
    collected so far, and a text made from the estimate
    [(elapsed / (i + 1)) * (total - (i + 1))], where [elapsed] is the clock
    reading taken after that task minus the reading taken at the start. *)
Theorem run_progress_reports (workers : Z) (w : UploadPage.worker F)
    (futures : list (option (UploadPage.processed F))) :
  1 ≤ workers →
  submit_all w 0 (UploadPage.images w) = Some futures →
  ∃ w' reports results,
    run workers w
    = Some (w', reports ++ [UploadPage.result_ready results; UploadPage.processing_complete])
    ∧ length reports = length (UploadPage.images w)
    ∧ ∀ i, (i < length (UploadPage.images w))%nat →
        let total := Z.of_nat (length (UploadPage.images w)) in
        let completed := Z.of_nat i + 1 in
        let elapsed_time := fsub (time_time (S i)) (time_time 0%nat) in
        let remaining_time := fmul (fdiv elapsed_time (of_int completed))
                                (of_int (total - completed)) in
        reports !! i
        = Some (UploadPage.progress completed
                  (UploadPage.remaining_time_str ffloordiv fmod completed total
                     remaining_time)).
Proof.
  intros Hk Hsub.
  eexists _, _, _. split_and!.
  - by apply Upload_facts.run_spec.
  - by rewrite length_fmap, length_seq.
  - intros i Hi. simpl. rewrite list_lookup_fmap, lookup_seq_lt by done. done.
Qed.

(** C9, as amended (group name).  A successful task returns the group name
    it was given with a space and the detector's label appended: the label
    that [make_inference_detection] reports, with the loaded model, on the
    image read from the file, which is the class name of the most
    confident box.  It never returns the group name alone; when the label
    holds no space, splitting at the last space gives the group name back,
    as the grouping and the storing of the images do. *)
Theorem process_image_func_group_name (index : nat)
    (image_path temp_images_dir group_name user : string) (p : UploadPage.processed F) :
  process_image_func index image_path temp_images_dir group_name user = Some (Some p) →
  ∃ yolo img image_with_box image_with_crop label confidence m best,
    YOLO model_path = Some yolo
    ∧ cv2_imread image_path = Some img
    ∧ make_inference_detection yolo img
      = Some (Some (image_with_box, image_with_crop, label, confidence))
    ∧ Detection.argmax (Detection.conf <$> Detection.boxes (yolo img)) = Some m
    ∧ Detection.boxes (yolo img) !! m = Some best
    ∧ dict_get (to_int (Detection.cls best)) (Detection.names (yolo img)) = Some label
    ∧ p.2 = group_name +:+ " " +:+ label
    ∧ p.2 ≠ group_name
    ∧ (occurs " " label = false →
       UploadPage.group_of p = Some group_name
       ∧ UploadPage.cleaned_and_animal p.2 = Some (group_name, label)).
Proof.
  intros Hp.
  destruct (Upload_facts.process_image_func_Some py_round format_3f cv2_rectangle
              cv2_getTextSize cv2_putText model_path os_path_exists YOLO cv2_imread
              cv2_imwrite cv2_resize os_makedirs os_path_basename os_path_splitext
              os_path_join os_path_join2 upload_date index image_path temp_images_dir
              group_name user p Hp)
    as (yolo & img & b & c & label & conf & Himg & _ & Hyolo & Hd & _ & _ & _ & ->).
  assert (Detection.boxes (yolo img) ≠ []) as Hne.
  { intros Hnil. by rewrite Detection_facts.make_inference_detection_no_boxes in Hd. }
  destruct (Detection_facts.make_inference_detection_boxes py_round format_3f cv2_rectangle
              cv2_getTextSize cv2_putText yolo img Hne)
    as (m & best & first & Hm & Hbest & _ & Hmid).
  assert (dict_get (to_int (Detection.cls best)) (Detection.names (yolo img)) = Some label)
    as Hlabel.
  { rewrite Hmid in Hd. destruct (dict_get _ _) as [label'|]; [|done].
    simpl in Hd. by simplify_eq. }
  exists yolo, img, b, c, label, conf, m, best.
  split_and!; [done..| |].
  - apply Upload_facts.append_grows.
  - intros Hno. unfold UploadPage.group_of, UploadPage.cleaned_and_animal.
    cbn [snd]. change (" " +:+ label) with (String " " label).
    by rewrite String_facts.rsplit1_app.
Qed.
End upload_claims.

(** C5 as the specification states it fails: with two tasks of which the
    first cannot be read, the list handed over has one entry, not two, and
    its entry 0 is the result of task 1. *)
Lemma run_drops_failed_task :
  ∃ w' signals,
    Sample.run Sample.one_word 2 Sample.worker = Some (w', signals)
    ∧ length (UploadPage.processed_images w') ≠ length Sample.batch
    ∧ (λ p, p.2) <$> UploadPage.processed_images w' !! 0%nat = Some "g2 stoat".
Proof.
  eexists _, _. split; [vm_compute; reflexivity|]. split; [simpl; lia|reflexivity].
Qed.

Lemma run_returns_successes_in_order_witness :
  1 ≤ 2
  ∧ Sample.submit_all Sample.one_word Sample.worker 0 Sample.batch = Some Sample.futures
  ∧ ∃ w' signals,
      Sample.run Sample.one_word 2 Sample.worker = Some (w', signals)
      ∧ UploadPage.processed_images w' = UploadPage.successes Sample.futures
      ∧ length (UploadPage.processed_images w') = 1%nat.
Proof.
  assert (1 ≤ 2) as Hk by lia.
  assert (Sample.submit_all Sample.one_word Sample.worker 0 Sample.batch = Some Sample.futures)
    as Hsub by (vm_compute; reflexivity).
  split; [exact Hk|]. split; [exact Hsub|].
  destruct (run_returns_successes_in_order (H := exact) Exact.round Exact.format_3f
              Sample.cv2_rectangle Sample.cv2_getTextSize Sample.cv2_putText
              Sample.model_path Sample.os_path_exists (Sample.YOLO Sample.one_word)
              Sample.cv2_imread Sample.cv2_imwrite Sample.cv2_resize Sample.os_makedirs
              Sample.os_path_basename
              Sample.os_path_splitext Sample.os_path_join Sample.os_path_join2 Sample.upload_date
              Sample.time_time Qcminus Qcdiv Exact.floordiv Exact.fmod
              2 Sample.batch "tmp" "kavi" Sample.futures Hk Hsub)
    as (w' & signals & Hrun & Hproc & _).
  exists w', signals. split; [exact Hrun|]. split; [exact Hproc|].
  rewrite Hproc. reflexivity.
Defined.

Lemma run_progress_reports_witness :
  ∃ w' reports results,
    Sample.run Sample.one_word 2 Sample.worker
    = Some (w', reports ++ [UploadPage.result_ready results; UploadPage.processing_complete])
    ∧ reports
      = [UploadPage.progress 1 "Processing image 1 of 2. Estimated remaining time: 0m 3s";
         UploadPage.progress 2 "Processing image 2 of 2. Estimated remaining time: 0m 0s"].
Proof.
  assert (1 ≤ 2) as Hk by lia.
  assert (Sample.submit_all Sample.one_word Sample.worker 0 Sample.batch = Some Sample.futures)
    as Hsub by (vm_compute; reflexivity).
  destruct (run_progress_reports (H := exact) Exact.round Exact.format_3f
              Sample.cv2_rectangle Sample.cv2_getTextSize Sample.cv2_putText
              Sample.model_path Sample.os_path_exists (Sample.YOLO Sample.one_word)
              Sample.cv2_imread Sample.cv2_imwrite Sample.cv2_resize Sample.os_makedirs
              Sample.os_path_basename
              Sample.os_path_splitext Sample.os_path_join Sample.os_path_join2 Sample.upload_date
              Sample.time_time Qcminus Qcdiv Exact.floordiv Exact.fmod
              2 Sample.worker Sample.futures Hk Hsub)
    as (w' & reports & results & Hrun & Hlen & Hreports).
  exists w', reports, results. split; [exact Hrun|].
  destruct reports as [|r0 [|r1 [|? ?]]]; try discriminate Hlen.
  pose proof (Hreports 0%nat ltac:(simpl; lia)) as H0.
  pose proof (Hreports 1%nat ltac:(simpl; lia)) as H1.
  simpl in H0, H1. injection H0 as ->. injection H1 as ->.
  vm_compute. reflexivity.
Defined.

(** C9 as the specification states it fails: with the label ["brown rat"]
    the split falls inside the label, and the group recovered from
    ["batch_1 brown rat"] is ["batch_1 brown"]. *)
Lemma group_not_recovered_for_two_word_label :
  ∃ p, Sample.process_image_func Sample.two_words 0 "in/a.jpg" "tmp" "batch_1" "kavi"
       = Some (Some p)
    ∧ p.2 = "batch_1 brown rat"
    ∧ UploadPage.group_of p = Some "batch_1 brown"
    ∧ UploadPage.group_of p ≠ Some "batch_1".
Proof.
  eexists. split; [vm_compute; reflexivity|]. split; [reflexivity|].
  split; [reflexivity|]. intros [=].
Qed.

Lemma process_image_func_group_name_witness :
  ∃ p, Sample.process_image_func Sample.one_word 0 "in/a.jpg" "tmp" "batch_1" "kavi"
       = Some (Some p)
    ∧ p.2 = "batch_1 stoat"
    ∧ Sample.make_inference_detection Sample.one_word Sample.picture
      = Some (Some (Sample.picture, [[1]], "stoat", Detection.conf Sample.high_box))
    ∧ UploadPage.group_of p = Some "batch_1"
    ∧ UploadPage.cleaned_and_animal p.2 = Some ("batch_1", "stoat").
Proof.
  eexists. split; [vm_compute; reflexivity|].
  match goal with |- ?p.2 = _ ∧ _ =>
    destruct (process_image_func_group_name (H := exact) Exact.round Exact.format_3f
                Sample.cv2_rectangle Sample.cv2_getTextSize Sample.cv2_putText
                Sample.model_path Sample.os_path_exists (Sample.YOLO Sample.one_word)
                Sample.cv2_imread Sample.cv2_imwrite Sample.cv2_resize Sample.os_makedirs
                Sample.os_path_basename Sample.os_path_splitext Sample.os_path_join
                Sample.os_path_join2 Sample.upload_date
                0 "in/a.jpg" "tmp" "batch_1" "kavi" p ltac:(vm_compute; reflexivity))
      as (yolo & img & b & c & label & conf & m & best
          & Hyolo & Himg & Hd & _ & _ & _ & Hlabel & _ & Hsplit)
  end.
  injection Hyolo as <-. injection Himg as <-.
  assert (label = "stoat") as ->.
  { simpl in Hlabel. change " stoat" with (" " +:+ "stoat") in Hlabel.
    by apply (inj (String.app "batch_1")), (inj (String.app " ")) in Hlabel. }
  split; [reflexivity|]. split; [reflexivity|].
  apply Hsplit. reflexivity.
Defined.

(** ** Detector wrapper *)

Section detection_claims.
Context `{PyFloat F}.
Context {pixel : Type}.
Local Abbreviation image := (list (list pixel)).
Context (py_round : F → Z) (format_3f : F → string)
        (cv2_rectangle : image → Z * Z → Z * Z → Z * Z * Z → Z → image)
        (cv2_getTextSize : string → Z * Z)
        (cv2_putText : image → string → Z * Z → image).

Local Abbreviation make_inference_detection :=
  (Detection.make_inference_detection py_round format_3f cv2_rectangle cv2_getTextSize
     cv2_putText).
Local Abbreviation draw_bounding_box :=
  (Detection.draw_bounding_box py_round format_3f cv2_rectangle cv2_getTextSize cv2_putText).
Local Abbreviation crop_image := (Detection.crop_image (pixel := pixel) py_round).

(** C8 (box used for the crop).  When the detector returns boxes whose
    confidences are numbers, [make_inference_detection] takes the label
    and the confidence from box [m], the first box of maximal confidence,
    and makes the overlay and the crop from box 0: the rectangle and the
    text are drawn at the rounded corners [(x1, y1)], [(x2, y2)] of box 0,
    and the crop is the rows [y1:y2] and the columns [x1:x2] of the image.
    It raises only when the class id of box [m] has no name.  So whenever
    [m] is not 0 the box reported is strictly more confident than box 0,
    around which the crop is cut: the crop is not that of the detection
    reported. *)
Theorem make_inference_detection_crops_first_box
    (yolo : image → Detection.prediction F) (img : image)
    (first : Detection.box F) (others : list (Detection.box F)) (bx1 by1 bx2 by2 : F) :
  Detection.boxes (yolo img) = first :: others →
  Detection_spec.numbers (Detection.conf <$> Detection.boxes (yolo img)) = true →
  Detection.xyxy first = (bx1, by1, bx2, by2) →
  ∃ m best,
    Detection.argmax (Detection.conf <$> Detection.boxes (yolo img)) = Some m
    ∧ Detection.boxes (yolo img) !! m = Some best
    ∧ Forall (λ b, fltb (Detection.conf best) (Detection.conf b) = false)
        (Detection.boxes (yolo img))
    ∧ (∀ j b, (j < m)%nat → Detection.boxes (yolo img) !! j = Some b →
              fltb (Detection.conf b) (Detection.conf best) = true)
    ∧ (m ≠ 0%nat → fltb (Detection.conf first) (Detection.conf best) = true)
    ∧ make_inference_detection yolo img
      = (label ← dict_get (to_int (Detection.cls best)) (Detection.names (yolo img));
         let x1 := py_round bx1 in
         let y1 := py_round by1 in
         let x2 := py_round bx2 in
         let y2 := py_round by2 in
         let text := "Conf: " +:+ format_3f (Detection.conf best) in
         let w := (cv2_getTextSize text).1 in
         let h := (cv2_getTextSize text).2 in
         let text_y := if decide (y1 - 10 > 10) then y1 - 10 else y1 + 20 in
         let boxed := cv2_rectangle img (x1, y1) (x2, y2) (0, 0, 255) 25 in
         let filled := cv2_rectangle boxed (x1, text_y - h - 5) (x1 + w, text_y + 5)
                         (0, 0, 255) (-1) in
         Some (Some (cv2_putText filled text (x1, text_y),
                     Detection.slice x1 x2 <$> Detection.slice y1 y2 img,
                     label, Detection.conf best))).
Proof.
  intros Hboxes Hnum Hr.
  assert (Detection.boxes (yolo img) ≠ []) as Hne by by rewrite Hboxes.
  destruct (Detection_facts.make_inference_detection_best py_round format_3f cv2_rectangle
              cv2_getTextSize cv2_putText yolo img Hne Hnum)
    as (m & best & first' & Hm & Hbest & Hfirst & Hmax & Hbefore & Hmid).
  rewrite Hboxes in Hfirst. injection Hfirst as <-.
  exists m, best. split_and!; [done..| |].
  - intros Hm0. apply (Hbefore 0%nat); [lia|]. by rewrite Hboxes.
  - rewrite Hmid. unfold Detection.draw_bounding_box, Detection.crop_image, Detection.rounded.
    rewrite Hr. by destruct (cv2_getTextSize _).
Qed.
End detection_claims.

(** In the sample environment the more confident box is the second one:
    the label and confidence are its own, the crop is the first box's
    corner pixel, not the four pixels inside the reported box. *)
Lemma make_inference_detection_crops_first_box_witness :
  Sample.make_inference_detection [(0, "rat"); (1, "stoat")] Sample.picture
  = Some (Some (Sample.picture, [[1]], "stoat", Detection.conf Sample.high_box))
  ∧ Detection.argmax (H := exact)
      (Detection.conf <$> Detection.boxes
                            (Sample.yolo [(0, "rat"); (1, "stoat")] Sample.picture))
    = Some 1%nat
  ∧ Detection.crop_image Exact.round Sample.picture (Detection.xyxy Sample.high_box)
    = [[5; 6]; [8; 9]].
Proof.
  destruct (make_inference_detection_crops_first_box (H := exact) Exact.round Exact.format_3f
              Sample.cv2_rectangle Sample.cv2_getTextSize Sample.cv2_putText
              (Sample.yolo [(0, "rat"); (1, "stoat")]) Sample.picture
              Sample.low_box [Sample.high_box] (Qc_of_Z 0) (Qc_of_Z 0) (Qc_of_Z 1) (Qc_of_Z 1)
              eq_refl eq_refl eq_refl)
    as (m & best & Hm & Hbest & _ & _ & _ & Hmid).
  assert (m = 1%nat) as -> by (vm_compute in Hm; by injection Hm).
  injection Hbest as <-.
  split; [|split; reflexivity].
  etrans; [exact Hmid|reflexivity].
Defined.

(** The same check and the same scan on binary64: three confidences of
    which the last two are equal, and a list with a NaN, which is not a
    list of numbers. *)
Example binary64_confidences_checked :
  let half := Binary64.b64_truediv 1 2 in
  let nine_tenths := Binary64.b64_truediv 9 10 in
  Detection_spec.numbers (H := binary64) [half; nine_tenths; nine_tenths] = true
  ∧ Detection.argmax (H := binary64) [half; nine_tenths; nine_tenths] = Some 1%nat
  ∧ Detection_spec.numbers (H := binary64) [half; PrimFloat.nan] = false.
Proof. split_and!; reflexivity. Qed.

(** ** Progress of the identity resolution *)

(** C10 (progress values): the code on a batch of 100 images that load.
    [main] returns and calls the callback 100 times, but after image 29
    (row 28) it reports 28, where the integer part of [(28 + 1) / 100 * 100]
    is 29.  The code evaluates [int((index + 1) / len(image_path_list) * 100)]
    on floats: the quotient [29 / 100] rounds below 0.29 in binary64, the
    product stays below 29 and [int] truncates it.  The same expression on
    the rationals gives 29. *)
Theorem progress_below_exact_floor :
  (∃ calls out,
     main (H := binary64) Sample.load_and_preprocess_image Sample.dist (Sample.crops 100) true
     = Some (calls, out)
     ∧ length calls = 100%nat
     ∧ calls !! 28%nat = Some 28)
  ∧ progress_value (H := binary64) 28 100 = Some 28
  ∧ exact_percent 100 28 = 29
  ∧ progress_value (H := exact) 28 100 = Some 29.
Proof.
  split; [|split; [|split]; reflexivity].
  destruct (Main_facts.main_returns (H := binary64) Sample.load_and_preprocess_image
              Sample.dist (Sample.crops 100) true) as [out Hout].
  { apply Forall_forall. intros p _. by eexists. }
  eexists _, out. split; [exact Hout|]. split; [reflexivity|]. reflexivity.
Qed.

(** What the expression gives on the rationals: with a callback and [n]
    images that load, [main] returns and has called the callback exactly
    [n] times, after row [i] with the integer part of [(i + 1) * 100 / n];
    these values never decrease, lie within 0 and 100, and the last one is
    100.  For no image at all [main] returns the empty result without
    calling the callback and without dividing. *)
Lemma main_progress_calls_exact {image : Type}
    (load_and_preprocess_image : string → option image) (dist : image → image → Z)
    (image_path_list : list string) :
  Forall (λ p, is_Some (load_and_preprocess_image p)) image_path_list →
  let n := length image_path_list in
  (∃ out, main (H := exact) load_and_preprocess_image dist image_path_list true
          = Some (exact_percent n <$> seq 0 n, out))
  ∧ (∀ i j, (i ≤ j)%nat → (j < n)%nat → exact_percent n i ≤ exact_percent n j)
  ∧ (∀ i, (i < n)%nat → 0 ≤ exact_percent n i ≤ 100)
  ∧ ((0 < n)%nat → exact_percent n (n - 1) = 100)
  ∧ main (H := exact) load_and_preprocess_image dist [] true = Some ([], []).
Proof.
  intros Hload n.
  assert (∀ i, (i < n)%nat → percent (H := exact) n i = exact_percent n i) as Hex.
  { intros i Hi. apply Exact_percent_facts.percent_exact. lia. }
  split_and!.
  - destruct (Main_facts.main_returns (H := exact) load_and_preprocess_image dist
                image_path_list true Hload) as [out Hout].
    exists out. rewrite Hout. do 2 f_equal. unfold calls_from.
    apply list_fmap_ext. intros i k Hk.
    apply lookup_seq in Hk as [-> Hk]. apply Hex. lia.
  - intros i j Hij Hj. rewrite <- !Hex by lia.
    by apply (Progress_facts.percent_mono (H0 := Exact_facts.exact_laws)).
  - intros i Hi. rewrite <- Hex by lia.
    by apply (Progress_facts.percent_bounds (H0 := Exact_facts.exact_laws)).
  - intros Hn. rewrite <- Hex by lia.
    by apply (Progress_facts.percent_last (H0 := Exact_facts.exact_laws)).
  - reflexivity.
Qed.

(** Three crops: the callback gets 33, 66 and 100. *)
Lemma main_progress_calls_exact_witness :
  Forall (λ p, is_Some (Sample.load_and_preprocess_image p)) (Sample.crops 3)
  ∧ ∃ out, main (H := exact) Sample.load_and_preprocess_image Sample.dist (Sample.crops 3) true
           = Some ([33; 66; 100], out).
Proof.
  assert (Forall (λ p, is_Some (Sample.load_and_preprocess_image p)) (Sample.crops 3)) as Hload.
  { apply Forall_forall. intros p _. by eexists. }
  split; [exact Hload|].
  exact (proj1 (main_progress_calls_exact
                  Sample.load_and_preprocess_image Sample.dist (Sample.crops 3) Hload)).
Defined.

(** On binary64 itself the values reported never decrease, lie within 0
    and 100 and end at 100 for every batch of up to 300 images, by
    evaluation. *)
Example binary64_calls_checked :
  forallb Sample.binary64_calls_ok (seq 1 300) = true.
Proof. vm_compute. reflexivity. Qed.

(** For batches of up to 300 images the value falls below the exact
    integer part at twelve rows, first after image 29 of 50. *)
Example binary64_deviations_checked :
  Sample.binary64_deviations 300
  = [(28, 50); (28, 100); (56, 100); (57, 100); (86, 150); (57, 200); (113, 200);
     (115, 200); (144, 250); (86, 300); (170, 300); (173, 300)]%nat.
Proof. vm_compute. reflexivity. Qed.

(** * Further properties of the code *)

(** ** Resolver: matrices of any shape, sizes of the clusters *)

Module Resolver_more_facts.
Import Py Py_facts ReID Resolver_spec Resolver_facts Resolver_more_spec.

(** A property kept by every step is kept by the pass. *)
Lemma resolve_rows_keeps (P : nat → state → Prop) n rows r t :
  Forall (λ row, ∃ m, argmin row = Some m ∧ (m < n)%nat) rows →
  (r + length rows = n)%nat →
  (∀ r m t, wf n r t → P r t → (r < n)%nat → (m < n)%nat → P (S r) (step m r t)) →
  wf n r t → P r t →
  wf n n (resolve_rows rows r t) ∧ P n (resolve_rows rows r t).
Proof.
  intros Hrows Hn Hstep. revert r t Hn.
  induction Hrows as [|row rows (m & Hm & Hlt) _ IH]; intros r t Hn Hwf HP; simpl in *.
  - assert (r = n) as <- by lia. done.
  - rewrite <- argmin_first_min, Hm.
    apply IH; [lia| |].
    + apply wf_step; [done|lia|done].
    + apply Hstep; [done|done|lia|done].
Qed.

Lemma visit_rows_in_range n rows r s t :
  Forall (λ row, ∃ m, argmin row = Some m ∧ (m < n)%nat) rows →
  (r + length rows = n)%nat →
  wf n r t → abs s t →
  ∃ s', visit_rows rows r s = Some s' ∧ abs s' (resolve_rows rows r t).
Proof.
  intros Hrows. revert r s t.
  induction Hrows as [|row rows (m & Hm & Hlt) _ IH]; intros r s t Hn Hwf Habs; simpl in *.
  - eauto.
  - rewrite <- argmin_first_min, Hm.
    destruct (visit_step n r m row s t) as (s' & Hv & Habs'); [done|done|lia|done|done|].
    rewrite Hv. simpl. apply IH; [lia| |done].
    apply wf_step; [done|lia|done].
Qed.

Lemma process_dist_mat_in_range (dist_mat : list (list Z)) :
  rows_in_range dist_mat → process_dist_mat dist_mat = Some (resolve dist_mat).
Proof.
  intros Hrows. unfold process_dist_mat, resolve.
  destruct (visit_rows_in_range (length dist_mat) dist_mat 0
              (init (length dist_mat)) (start (length dist_mat)))
    as (s' & Hv & (_ & Hod & _)); [done|done|apply wf_start|apply abs_init|].
  rewrite Hv. simpl. by rewrite Hod.
Qed.

(** A visit that returns found the row's minimum inside [keys] and left
    the length of [keys] alone. *)
Lemma visit_Some row r s s' :
  visit row r s = Some s' →
  (∃ m, argmin row = Some m ∧ (m < length (keys s))%nat)
  ∧ length (keys s') = length (keys s).
Proof.
  unfold visit. destruct (argmin row) as [m|]; simpl; [|done].
  destruct (keys s !! r) as [kr|] eqn:Hkr; simpl; [|done].
  destruct (keys s !! m) as [km|] eqn:Hkm; simpl; [|done].
  intros Hs'. split; [exists m; split; [done|by eapply lookup_lt_Some]|].
  repeat case_match; simplify_option_eq; by rewrite ?length_insert.
Qed.

Lemma visit_rows_Some rows r s s' :
  visit_rows rows r s = Some s' →
  Forall (λ row, ∃ m, argmin row = Some m ∧ (m < length (keys s))%nat) rows.
Proof.
  revert r s. induction rows as [|row rows IH]; intros r s; simpl; [by constructor|].
  destruct (visit row r s) as [s1|] eqn:Hv; simpl; [|done].
  intros Hrest. destruct (visit_Some _ _ _ _ Hv) as [Hm Hlen].
  constructor; [done|]. rewrite <- Hlen. by eapply IH.
Qed.

Lemma process_dist_mat_Some (dist_mat : list (list Z)) cl :
  process_dist_mat dist_mat = Some cl → rows_in_range dist_mat.
Proof.
  unfold process_dist_mat.
  destruct (visit_rows _ _ _) as [s'|] eqn:Hv; simpl; [|done]. intros _.
  apply visit_rows_Some in Hv. simpl in Hv. by rewrite length_replicate in Hv.
Qed.

Lemma sized_start n : sized 0 (start n).
Proof. split; simpl; [done|lia|by constructor]. Qed.

Lemma add_member_two c x cl :
  Forall (λ e : Z * list nat, (2 ≤ length e.2)%nat) cl →
  Forall (λ e : Z * list nat, (2 ≤ length e.2)%nat) (add_member c x cl).
Proof.
  intros Hcl. unfold add_member. apply Forall_fmap.
  eapply Forall_impl; [done|]. intros [k l] Hl. simpl in *.
  destruct (decide (k = c)); simpl; [rewrite length_app|]; lia.
Qed.

Lemma sized_step n r m t :
  wf n r t → sized r t → (r < n)%nat → (m < n)%nat → sized (S r) (step m r t).
Proof.
  intros Hwf [Hids Hfirst Htwo] Hr Hm.
  pose proof (wf_len _ _ _ Hwf) as Hlen. pose proof (wf_next _ _ _ Hwf) as Hnext.
  destruct (lookup_lt_is_Some_2 (owner t) r) as [o_r Hor]; [lia|].
  destruct (lookup_lt_is_Some_2 (owner t) m) as [o_m Hom]; [lia|].
  unfold step. rewrite Hor, Hom.
  destruct o_r as [c|], o_m as [c'|].
  - pose proof (wf_owner_nonneg _ _ _ _ _ Hwf Hor). split; [lia|lia|done].
  - pose proof (wf_owner_nonneg _ _ _ _ _ Hwf Hor).
    split; simpl; [lia|lia|by apply add_member_two].
  - pose proof (wf_owner_nonneg _ _ _ _ _ Hwf Hom).
    split; simpl; [lia|lia|by apply add_member_two].
  - split; simpl; [lia|lia|].
    apply Forall_app. split; [done|]. repeat constructor.
Qed.

Lemma square_in_range (dist_mat : list (list Z)) :
  square dist_mat → rows_in_range dist_mat.
Proof.
  intros Hsq. unfold rows_in_range. apply Forall_forall. intros row Hin.
  pose proof (proj1 (Forall_forall _ _) Hsq row Hin) as Hrow. simpl in Hrow.
  destruct (argbest_is_Some Z.ltb row) as [m Hm].
  { intros ->. destruct dist_mat; [by apply elem_of_nil in Hin|done]. }
  exists m. split; [done|]. rewrite <- Hrow. by eapply argbest_bound.
Qed.

Lemma resolve_sizes (dist_mat : list (list Z)) :
  rows_in_range dist_mat →
  (length (resolve dist_mat) ≤ length dist_mat)%nat
  ∧ (dist_mat ≠ [] → (1 ≤ length (resolve dist_mat))%nat)
  ∧ Forall (λ e : Z * list nat, (2 ≤ length e.2)%nat) (resolve dist_mat).
Proof.
  intros Hrows.
  destruct (resolve_rows_keeps sized (length dist_mat) dist_mat 0
              (start (length dist_mat)) Hrows eq_refl) as [Hwf [Hids Hfirst Htwo]].
  { intros r m t. apply sized_step. }
  { apply wf_start. }
  { apply sized_start. }
  unfold resolve. set (t := resolve_rows _ _ _) in *.
  assert (length (clusters t) = Z.to_nat (next_id t)) as Hlen.
  { rewrite <- (length_fmap fst), (wf_ids _ _ _ Hwf). apply length_seqZ. }
  pose proof (wf_next _ _ _ Hwf). split_and!.
  - lia.
  - intros Hne. assert (0 < length dist_mat)%nat by (destruct dist_mat; [done|simpl; lia]).
    specialize (Hfirst ltac:(done)). lia.
  - done.
Qed.
End Resolver_more_facts.

Import Resolver_more_spec.

(** X1 (shape of the matrix).  [process_dist_mat] returns exactly when
    every row is non-empty and its first minimum lies at an index below the
    number of rows, and it then returns what the rule of section 4.3
    computes; on any other matrix (an empty row, or a row longer than the
    matrix whose minimum lies beyond the row count) it raises. *)
Theorem process_dist_mat_returns_iff (dist_mat : list (list Z)) :
  (rows_in_range dist_mat → process_dist_mat dist_mat = Some (resolve dist_mat))
  ∧ (¬ rows_in_range dist_mat → process_dist_mat dist_mat = None).
Proof.
  split.
  - apply Resolver_more_facts.process_dist_mat_in_range.
  - intros Hno. destruct (process_dist_mat dist_mat) as [cl|] eqn:Hp; [|done].
    destruct Hno. by eapply Resolver_more_facts.process_dist_mat_Some.
Qed.

(** A wide matrix whose rows have their minimum in range, and a ragged one
    whose first row has it beyond the row count. *)
Lemma process_dist_mat_returns_iff_witness :
  rows_in_range [[3; 1; 7]; [0; 4; 9]]
  ∧ process_dist_mat [[3; 1; 7]; [0; 4; 9]] = Some [(0, [0%nat; 1%nat])]
  ∧ ¬ rows_in_range [[3; 1; 0]; [0; 4]]
  ∧ process_dist_mat [[3; 1; 0]; [0; 4]] = None.
Proof.
  assert (rows_in_range [[3; 1; 7]; [0; 4; 9]]) as Hin.
  { repeat constructor; eexists; (split; [reflexivity|simpl; lia]). }
  assert (¬ rows_in_range [[3; 1; 0]; [0; 4]]) as Hout.
  { intros [(m & Hm & Hlt) _]%Forall_cons. injection Hm as <-. simpl in Hlt. lia. }
  split; [exact Hin|].
  split; [exact (proj1 (process_dist_mat_returns_iff _) Hin)|].
  split; [exact Hout|].
  exact (proj2 (process_dist_mat_returns_iff _) Hout).
Defined.

(** X2 (sizes).  When [process_dist_mat] returns, it reports at most as
    many clusters as the matrix has rows, at least one if there is a row,
    and no cluster whose member list has fewer than two entries: an image
    is never left alone, it is always listed with its nearest match (or,
    when that is itself, listed twice). *)
Theorem process_dist_mat_cluster_sizes (dist_mat : list (list Z)) :
  rows_in_range dist_mat →
  ∃ cl, process_dist_mat dist_mat = Some cl
    ∧ (length cl ≤ length dist_mat)%nat
    ∧ (dist_mat ≠ [] → (1 ≤ length cl)%nat)
    ∧ Forall (λ e : Z * list nat, (2 ≤ length e.2)%nat) cl.
Proof.
  intros Hrows. exists (resolve dist_mat).
  split; [by apply Resolver_more_facts.process_dist_mat_in_range|].
  by apply Resolver_more_facts.resolve_sizes.
Qed.

Lemma process_dist_mat_cluster_sizes_witness :
  rows_in_range [[9; 1; 5; 7]; [1; 9; 5; 7]; [5; 7; 9; 1]; [5; 7; 1; 9]]
  ∧ ∃ cl, process_dist_mat [[9; 1; 5; 7]; [1; 9; 5; 7]; [5; 7; 9; 1]; [5; 7; 1; 9]] = Some cl
      ∧ (length cl ≤ 4)%nat
      ∧ Forall (λ e : Z * list nat, (2 ≤ length e.2)%nat) cl.
Proof.
  assert (rows_in_range [[9; 1; 5; 7]; [1; 9; 5; 7]; [5; 7; 9; 1]; [5; 7; 1; 9]]) as Hin.
  { repeat constructor; eexists; (split; [reflexivity|simpl; lia]). }
  split; [exact Hin|].
  destruct (process_dist_mat_cluster_sizes _ Hin) as (cl & Hcl & Hlen & _ & Htwo).
  exists cl. split; [exact Hcl|]. split; [exact Hlen|exact Htwo].
Defined.

(** ** Suppression of the self-match, exactly *)

Module Suppress_more_facts.
Import Py Py_facts ReID Resolver_spec Resolver_facts Suppress_facts Resolver_more_spec.

(** A least entry at index 0 is the first minimum. *)
Lemma argmin_first_of_least (row : list Z) v :
  row !! 0%nat = Some v → (∀ j w, row !! j = Some w → v ≤ w) → argmin row = Some 0%nat.
Proof.
  intros H0 Hleast.
  destruct (argbest_is_Some Z.ltb row) as [m Hm]; [by intros ->|].
  fold argmin in Hm. rewrite Hm. f_equal.
  destruct (argmin_spec _ _ Hm) as (vm & Hvm & Hmin & Hfirst).
  destruct m as [|m]; [done|].
  specialize (Hfirst 0%nat v ltac:(lia) H0). specialize (Hleast _ _ Hvm). lia.
Qed.

Lemma suppress_equal_others (row : list Z) v0 :
  row !! 0%nat = Some v0 →
  (∀ j w, row !! j = Some w → j ≠ 0%nat → v0 < w) →
  others_equal row 0 →
  ∃ row', suppress row = Some row' ∧ argmin row' = Some 0%nat.
Proof.
  intros H0 Hstrict Heq.
  assert (row ≠ []) as Hne by (intros ->; done).
  destruct (suppress_length row Hne) as (row' & Hs & Hlen).
  exists row'. split; [done|].
  unfold suppress in Hs.
  destruct (argmax row) as [a|] eqn:Ha; simpl in Hs; [|done].
  destruct (argmax_spec _ _ Ha) as (M & HM & Hmax & _). rewrite HM in Hs. simpl in Hs.
  destruct (argmin row) as [m|] eqn:Hm; simpl in Hs; [|done].
  destruct (argmin_spec _ _ Hm) as (v & Hv & Hmin & _).
  assert (m = 0%nat) as ->.
  { destruct (decide (m = 0%nat)); [done|].
    specialize (Hstrict _ _ Hv ltac:(done)). specialize (Hmin _ _ H0). lia. }
  simplify_eq.
  apply (argmin_first_of_least _ M).
  - apply list_lookup_insert_eq. by eapply lookup_lt_Some.
  - intros j w Hj. destruct (decide (j = 0%nat)) as [->|Hj0].
    + rewrite list_lookup_insert_eq in Hj by by eapply lookup_lt_Some. by simplify_eq.
    + rewrite list_lookup_insert_ne in Hj by done.
      destruct (decide (a = 0%nat)) as [->|Ha0].
      * simplify_eq. specialize (Hstrict _ _ Hj Hj0). specialize (Hmax _ _ Hj). lia.
      * by rewrite (Heq a j M w HM Hj Ha0 Hj0).
Qed.
End Suppress_more_facts.

(** X3 (when suppression fails).  For a row whose entry at [r] is its
    strict minimum (the distance of an image to itself), overwriting the
    minimum with the maximum leaves the first minimum at [r] exactly when
    [r] is 0 and all other entries of the row are equal; in every other
    case the row is matched to another index. *)
Theorem suppress_matches_self_iff (row : list Z) (r : nat) (v0 : Z) :
  row !! r = Some v0 →
  (∀ j w, row !! j = Some w → j ≠ r → v0 < w) →
  ∃ row', suppress row = Some row'
    ∧ (argmin row' = Some r ↔ r = 0%nat ∧ others_equal row r).
Proof.
  intros Hr Hstrict.
  assert (row ≠ []) as Hne by (intros ->; done).
  destruct (Suppress_facts.suppress_length row Hne) as (row' & Hs & _).
  exists row'. split; [done|]. split.
  - intros Hself.
    assert (∀ j j' w w', row !! j = Some w → row !! j' = Some w' → j ≠ r → j' ≠ r →
              ¬ w < w') as Hnlt.
    { intros j j' w w' Hj Hj' Hjr Hj'r Hlt.
      destruct (Suppress_facts.suppress_avoids_self row r v0 Hr Hstrict) as (row2 & Hs2 & Hne2).
      { right. by exists j, j', w, w'. }
      rewrite Hs in Hs2. by simplify_eq. }
    split.
    + destruct r as [|r]; [done|].
      destruct (Suppress_facts.suppress_avoids_self row (S r) v0 Hr Hstrict) as (row2 & Hs2 & Hne2).
      { left. lia. }
      rewrite Hs in Hs2. by simplify_eq.
    + intros j j' w w' Hj Hj' Hjr Hj'r.
      pose proof (Hnlt j j' w w' Hj Hj' Hjr Hj'r).
      pose proof (Hnlt j' j w' w Hj' Hj Hj'r Hjr). lia.
  - intros [-> Heq].
    destruct (Suppress_more_facts.suppress_equal_others row v0 Hr Hstrict Heq)
      as (row2 & Hs2 & Hmin2).
    rewrite Hs in Hs2. by simplify_eq.
Qed.

(** Row 0 of three images of which the other two are equally far: the row
    matches itself.  With different distances it would not. *)
Lemma suppress_matches_self_iff_witness :
  ∃ row', suppress [0; 4; 4] = Some row'
    ∧ (argmin row' = Some 0%nat ↔ 0%nat = 0%nat ∧ others_equal [0; 4; 4] 0).
Proof.
  apply (suppress_matches_self_iff [0; 4; 4] 0 0).
  - reflexivity.
  - intros [|[|[|j]]] w Hj Hne; simpl in Hj; try done; injection Hj as <-; lia.
Defined.

(** ** [ReID.main]: failure and coverage *)

Module Main_more_facts.
Import Py Py_facts ReID Resolver_spec Assembler_spec Progress_spec.
Import Resolver_facts Suppress_facts Assembler_facts String_facts Progress_facts Main_facts.
Import Resolver_more_spec Resolver_more_facts.

Section main.
Context `{PyFloat F}.
Context {image : Type} (load_and_preprocess_image : string → option image)
        (dist : image → image → Z).

(** What [main] returns when every file loads: the clusters of the
    resolver, assembled over the file names. *)
Lemma main_output (image_path_list : list string) cb :
  Forall (λ p, is_Some (load_and_preprocess_image p)) image_path_list →
  ∃ calls names cl,
    main load_and_preprocess_image dist image_path_list cb
    = Some (calls, assembled names <$> cl)
    ∧ Forall2 (final_component "/") image_path_list names
    ∧ cl.*1 = seqZ 0 (Z.of_nat (length cl))
    ∧ (length cl ≤ length image_path_list)%nat
    ∧ (image_path_list ≠ [] → cl ≠ [])
    ∧ Forall (λ e : Z * list nat, (2 ≤ length e.2)%nat) cl
    ∧ (∀ i, (i < length image_path_list)%nat →
         ∃ c, in_cluster cl c i ∧ ∀ c', in_cluster cl c' i → c' = c)
    ∧ (∀ c i, in_cluster cl c i → (i < length image_path_list)%nat).
Proof.
  intros Hload. unfold main.
  destruct (mapM_is_Some_2 load_and_preprocess_image image_path_list) as [imgs Himgs].
  { eapply Forall_impl; [done|]. by intros p. }
  rewrite Himgs. simpl.
  pose proof (length_mapM _ _ _ Himgs) as Hlen.
  destruct image_path_list as [|p ps].
  - destruct imgs; [|done]. simpl. exists [], [], [].
    split_and!; [by destruct cb|constructor|done|simpl; lia|done|done|simpl; lia|].
    intros c i (l & Hin & _). by apply elem_of_nil in Hin.
  - destruct (distance_rows_calls dist (length (p :: ps)) imgs imgs cb 0)
      as (mat & Hmat & Hl & Hrows); [done|by destruct imgs|].
    rewrite Hmat. simpl. rewrite <- Hlen.
    assert (square mat) as Hsq.
    { unfold square. by rewrite Hl. }
    destruct (resolve_covers mat Hsq) as (cl & Hcl & Hids & Hcov & Hrange).
    rewrite Hcl. simpl.
    destruct (format_output_dict_assembles (p :: ps) cl) as (names & Hnames & Hout).
    { rewrite Hids. apply NoDup_seqZ. }
    { apply Forall_forall. intros [c l] Hin. apply Forall_forall. intros i Hi.
      rewrite Hlen, <- Hl. apply (Hrange c). by exists l. }
    pose proof (square_in_range _ Hsq) as Hin.
    rewrite (process_dist_mat_in_range _ Hin) in Hcl. injection Hcl as <-.
    destruct (resolve_sizes _ Hin) as (Hle & Hge & Htwo).
    rewrite Hout. simpl. eexists _, names, (resolve mat).
    split_and!; [done|done|done| | |done| |].
    + cbn [length] in Hlen. lia.
    + intros _ Hnil. rewrite Hnil in Hge. simpl in Hge.
      assert (mat ≠ []) as Hmat' by (intros ->; simpl in Hl; by destruct imgs).
      specialize (Hge Hmat'). lia.
    + intros i Hi. apply Hcov. simpl in *. lia.
    + intros c i Hi. pose proof (Hrange c i Hi). simpl in *. lia.
Qed.
End main.
End Main_more_facts.


(** X5 (coverage of the result).  When every file loads, the dictionary
    returned by [ReID.main] has the labels ID-0, ID-1, ... in order, at
    most as many as there are images; every identity lists at least two
    entries, each of them the file name of an input image; and the file
    name of every input image is listed under some identity. *)
Theorem main_lists_every_image `{PyFloat F} {image : Type}
    (load_and_preprocess_image : string → option image) (dist : image → image → Z)
    (image_path_list : list string) (progress_callback : bool) :
  Forall (λ p, is_Some (load_and_preprocess_image p)) image_path_list →
  ∃ calls names out,
    main load_and_preprocess_image dist image_path_list progress_callback = Some (calls, out)
    ∧ Forall2 (final_component "/") image_path_list names
    ∧ out.*1 = (λ c, "ID-" +:+ str c) <$> seqZ 0 (Z.of_nat (length out))
    ∧ (length out ≤ length image_path_list)%nat
    ∧ (image_path_list ≠ [] → out ≠ [])
    ∧ Forall (λ e : string * list string,
                (2 ≤ length e.2)%nat ∧ Forall (λ name, name ∈ names) e.2) out
    ∧ Forall (λ name, ∃ label members, (label, members) ∈ out ∧ name ∈ members) names.
Proof.
  intros Hload.
  destruct (Main_more_facts.main_output load_and_preprocess_image dist image_path_list
              progress_callback Hload)
    as (calls & names & cl & Hmain & Hnames & Hids & Hle & Hne & Htwo & Hcov & Hrange).
  pose proof (Forall2_length _ _ _ Hnames) as Hlen.
  exists calls, names, (assembled names <$> cl). split_and!.
  - done.
  - done.
  - rewrite length_fmap, <- Hids, <- !list_fmap_compose. done.
  - by rewrite length_fmap.
  - intros Hp Hnil. apply fmap_nil_inv in Hnil. by apply Hne.
  - apply Forall_fmap. apply Forall_forall. intros [c l] Hin. simpl.
    split; [rewrite length_fmap; by apply (proj1 (Forall_forall _ _) Htwo (c, l))|].
    apply Forall_fmap, Forall_forall. intros i Hi. simpl.
    apply list_elem_of_lookup_total_2. rewrite <- Hlen. apply (Hrange c). by exists l.
  - apply Forall_forall. intros name Hname.
    apply list_elem_of_lookup in Hname as [i Hi].
    destruct (Hcov i) as (c & (l & Hin & Hil) & _).
    { rewrite Hlen. by eapply lookup_lt_Some. }
    exists ("ID-" +:+ str c), ((λ i, names !!! i) <$> l). split.
    + apply list_elem_of_fmap. by exists (c, l).
    + apply list_elem_of_fmap. exists i. split; [|done].
      symmetry. by apply list_lookup_total_correct.
Qed.

Lemma main_lists_every_image_witness :
  Forall (λ p, is_Some (Sample.load_and_preprocess_image p)) (Sample.crops 3)
  ∧ ∃ calls names out,
      main (H := binary64) Sample.load_and_preprocess_image Sample.dist (Sample.crops 3) true
      = Some (calls, out)
      ∧ Forall2 (final_component "/") (Sample.crops 3) names
      ∧ Forall (λ name, ∃ label members, (label, members) ∈ out ∧ name ∈ members) names.
Proof.
  assert (Forall (λ p, is_Some (Sample.load_and_preprocess_image p)) (Sample.crops 3)) as Hall.
  { apply Forall_forall. intros p _. by eexists. }
  split; [exact Hall|].
  destruct (main_lists_every_image (H := binary64) Sample.load_and_preprocess_image
              Sample.dist (Sample.crops 3) true Hall)
    as (calls & names & out & Hmain & Hnames & _ & _ & _ & _ & Hcov).
  exists calls, names, out. split; [exact Hmain|]. split; [exact Hnames|exact Hcov].
Defined.

(** ** Detection: [app/detection_model/detection.py] *)

Section detection_extras.
Context `{PyFloat F}.
Context {pixel : Type}.
Local Abbreviation image := (list (list pixel)).
Context (py_round : F → Z) (format_3f : F → string)
        (cv2_rectangle : image → Z * Z → Z * Z → Z * Z * Z → Z → image)
        (cv2_getTextSize : string → Z * Z)
        (cv2_putText : image → string → Z * Z → image).

Local Abbreviation make_inference_detection :=
  (Detection.make_inference_detection py_round format_3f cv2_rectangle cv2_getTextSize
     cv2_putText).

(** X6 (outcomes of a detection).  [make_inference_detection] returns the
    tuple of four [None]s exactly when the detector reports no box, and it
    raises exactly when the class id of the most confident box has no entry
    in the detector's class names; it fails in no other way. *)
Theorem make_inference_detection_outcomes
    (yolo : image → Detection.prediction F) (img : image) :
  (make_inference_detection yolo img = Some None ↔ Detection.boxes (yolo img) = [])
  ∧ (make_inference_detection yolo img = None
     ↔ ∃ m best,
         Detection.argmax (Detection.conf <$> Detection.boxes (yolo img)) = Some m
         ∧ Detection.boxes (yolo img) !! m = Some best
         ∧ dict_get (to_int (Detection.cls best)) (Detection.names (yolo img)) = None).
Proof.
  split; [apply Detection_facts.make_inference_detection_None_iff|]. split.
  - intros Hnone.
    destruct (decide (Detection.boxes (yolo img) = [])) as [Hnil|Hne].
    { by rewrite Detection_facts.make_inference_detection_no_boxes in Hnone. }
    destruct (Detection_facts.make_inference_detection_boxes py_round format_3f cv2_rectangle
                cv2_getTextSize cv2_putText yolo img Hne)
      as (m & best & first & Hm & Hbest & _ & Hmid).
    exists m, best. split; [done|]. split; [done|].
    rewrite Hmid in Hnone. by destruct (dict_get _ _).
  - intros (m & best & Hm & Hbest & Hlabel).
    assert (Detection.boxes (yolo img) ≠ []) as Hne.
    { intros Hnil. by rewrite Hnil in Hbest. }
    destruct (Detection_facts.make_inference_detection_boxes py_round format_3f cv2_rectangle
                cv2_getTextSize cv2_putText yolo img Hne)
      as (m' & best' & first & Hm' & Hbest' & _ & Hmid).
    rewrite Hmid. simplify_eq. by rewrite Hlabel.
Qed.

(** X7 (the reported confidence).  When [make_inference_detection] returns
    a detection, the confidence and the label are those of one box, no box
    of the prediction has a greater confidence, and every box before it
    has a smaller one: among equally confident boxes the first is
    reported.  (Floats without NaN.) *)
Theorem make_inference_detection_reports_max_confidence `{!PyFloatOrder F}
    (yolo : image → Detection.prediction F) (img image_with_box image_with_crop : image)
    (label : string) (max_conf : F) :
  make_inference_detection yolo img
  = Some (Some (image_with_box, image_with_crop, label, max_conf)) →
  ∃ m best,
    Detection.boxes (yolo img) !! m = Some best
    ∧ Detection.conf best = max_conf
    ∧ dict_get (to_int (Detection.cls best)) (Detection.names (yolo img)) = Some label
    ∧ Forall (λ b, fltb max_conf (Detection.conf b) = false) (Detection.boxes (yolo img))
    ∧ (∀ j b, (j < m)%nat → Detection.boxes (yolo img) !! j = Some b →
              fltb (Detection.conf b) max_conf = true).
Proof.
  intros Hmid.
  assert (Detection.boxes (yolo img) ≠ []) as Hne.
  { intros Hnil. by rewrite Detection_facts.make_inference_detection_no_boxes in Hmid. }
  destruct (Detection_facts.make_inference_detection_boxes py_round format_3f cv2_rectangle
              cv2_getTextSize cv2_putText yolo img Hne)
    as (m & best & first & Hm & Hbest & _ & Hmid').
  rewrite Hmid' in Hmid.
  destruct (dict_get _ _) as [label'|] eqn:Hlabel; [|done]. simpl in Hmid. simplify_eq.
  destruct (Detection_facts.conf_argmax_spec _ _ Hm) as (v & Hv & Hmax & Hfirst).
  rewrite list_lookup_fmap, Hbest in Hv. simpl in Hv. simplify_eq.
  exists m, best. split_and!; [done..| |].
  - apply Forall_forall. intros b Hb. apply list_elem_of_lookup in Hb as [j Hj].
    apply (Hmax j). by rewrite list_lookup_fmap, Hj.
  - intros j b Hlt Hj. apply (Hfirst j); [done|]. by rewrite list_lookup_fmap, Hj.
Qed.

Context (model_path : string) (os_path_exists : string → bool)
        (YOLO : string → option (image → Detection.prediction F)).

(** X9 (detections of a batch).  [Detection.main] raises exactly when the
    model file is missing, the model does not load, or the detection of
    one of the images raises; a missing model file raises even for no
    image at all.  Otherwise its result holds one detection for each image
    on which the loaded model reports a box, in the order of the images,
    and nothing for the other images. *)
Theorem detection_main_keeps_detections (images : list image) :
  (Detection.main py_round format_3f cv2_rectangle cv2_getTextSize cv2_putText
     model_path os_path_exists YOLO images = None
   ↔ os_path_exists model_path = false
     ∨ YOLO model_path = None
     ∨ ∃ yolo img, YOLO model_path = Some yolo ∧ img ∈ images
                   ∧ make_inference_detection yolo img = None)
  ∧ (os_path_exists model_path = false →
     Detection.main py_round format_3f cv2_rectangle cv2_getTextSize cv2_putText
       model_path os_path_exists YOLO [] = None)
  ∧ ∀ image_with_boxes,
      Detection.main py_round format_3f cv2_rectangle cv2_getTextSize cv2_putText
        model_path os_path_exists YOLO images = Some image_with_boxes →
      ∃ yolo,
        os_path_exists model_path = true
        ∧ YOLO model_path = Some yolo
        ∧ Forall2 (λ img d, make_inference_detection yolo img = Some (Some d))
            (filter (λ img, Detection.boxes (yolo img) ≠ []) images) image_with_boxes.
Proof.
  unfold Detection.main. split_and!.
  - destruct (os_path_exists model_path); simpl; [|by split; [left|]].
    destruct (YOLO model_path) as [yolo|]; simpl; [|by split; [right; left|]].
    rewrite (proj1 (Detection_facts.detections_spec py_round format_3f cv2_rectangle
                      cv2_getTextSize cv2_putText yolo images)).
    split.
    + intros (img & Hin & Hno). right. right. by exists yolo, img.
    + intros [?|[?|(yolo' & img & Hy & Hin & Hno)]]; [done..|].
      injection Hy as <-. by exists img.
  - by intros ->.
  - intros ds Hds. destruct (os_path_exists model_path); [|done]. simpl in Hds.
    destruct (YOLO model_path) as [yolo|]; [|done]. simpl in Hds.
    exists yolo. split; [done|]. split; [done|].
    by apply (proj2 (Detection_facts.detections_spec py_round format_3f cv2_rectangle
                       cv2_getTextSize cv2_putText yolo images)).
Qed.
End detection_extras.

(** X8 (the crop).  For a box whose rounded corners are not negative, the
    crop has the rows [y1] to [y2 - 1] of the image that exist, and its
    pixel [(i, j)] is the pixel [(y1 + i, x1 + j)] of the image whenever
    [y1 + i < y2] and [x1 + j < x2]; it has no other pixel.  A box that
    reaches beyond the image is cut at the border, without an error. *)
Theorem crop_image_pixels {F pixel : Type} (py_round : F → Z) (img : list (list pixel))
    (bbox : F * F * F * F) (x1 y1 x2 y2 : Z) :
  Detection.rounded py_round bbox = (x1, y1, x2, y2) →
  0 ≤ x1 → 0 ≤ y1 → 0 ≤ x2 → 0 ≤ y2 →
  Z.of_nat (length (Detection.crop_image py_round img bbox))
  = Z.max 0 (Z.min y2 (Z.of_nat (length img)) - Z.min y1 (Z.of_nat (length img)))
  ∧ ∀ i j : nat,
      Detection.crop_image py_round img bbox !! i ≫= (.!! j)
      = if bool_decide (y1 + Z.of_nat i < y2 ∧ x1 + Z.of_nat j < x2)
        then img !! (Z.to_nat y1 + i)%nat ≫= (.!! (Z.to_nat x1 + j)%nat)
        else None.
Proof.
  intros Hr Hx1 Hy1 Hx2 Hy2. unfold Detection.crop_image. rewrite Hr. split.
  - rewrite length_fmap. by apply Detection_facts.slice_length.
  - intros i j. rewrite list_lookup_fmap, Detection_facts.slice_lookup by done.
    destruct (decide (y1 + Z.of_nat i < y2)) as [Hi|Hi].
    + rewrite (bool_decide_eq_true_2 _ Hi).
      destruct (img !! (Z.to_nat y1 + i)%nat) as [row|]; simpl.
      * rewrite Detection_facts.slice_lookup by done.
        repeat case_bool_decide; try done; tauto.
      * by case_bool_decide.
    + rewrite (bool_decide_eq_false_2 _ Hi). simpl.
      rewrite bool_decide_eq_false_2; [done|tauto].
Qed.

Lemma make_inference_detection_reports_max_confidence_witness :
  Sample.make_inference_detection Sample.one_word Sample.picture
  = Some (Some (Sample.picture, [[1]], "stoat", Detection.conf Sample.high_box))
  ∧ ∃ m best,
      Detection.boxes (Sample.yolo Sample.one_word Sample.picture) !! m = Some best
      ∧ Detection.conf best = Detection.conf Sample.high_box
      ∧ dict_get (to_int (PyFloat := exact) (Detection.cls best)) Sample.one_word = Some "stoat"
      ∧ Forall (λ b, fltb (PyFloat := exact) (Detection.conf Sample.high_box)
                       (Detection.conf b) = false)
          (Detection.boxes (Sample.yolo Sample.one_word Sample.picture))
      ∧ (∀ j b, (j < m)%nat →
           Detection.boxes (Sample.yolo Sample.one_word Sample.picture) !! j = Some b →
           fltb (PyFloat := exact) (Detection.conf b) (Detection.conf Sample.high_box) = true).
Proof.
  split; [reflexivity|].
  exact (@make_inference_detection_reports_max_confidence Qc exact Z Exact.round
           Exact.format_3f Sample.cv2_rectangle Sample.cv2_getTextSize Sample.cv2_putText
           Detection_facts.exact_order
           (Sample.yolo Sample.one_word) Sample.picture Sample.picture [[1]]
           "stoat" (Detection.conf Sample.high_box) eq_refl).
Defined.

(** The second box of the sample detector on the 3-by-3 picture, and a box
    that reaches beyond it. *)
Lemma crop_image_pixels_witness :
  Detection.rounded Exact.round (Qc_of_Z 1, Qc_of_Z 1, Qc_of_Z 5, Qc_of_Z 3) = (1, 1, 5, 3)
  ∧ Detection.crop_image Exact.round Sample.picture (Qc_of_Z 1, Qc_of_Z 1, Qc_of_Z 5, Qc_of_Z 3)
    = [[5; 6]; [8; 9]]
  ∧ Z.of_nat (length (Detection.crop_image Exact.round Sample.picture
                        (Qc_of_Z 1, Qc_of_Z 1, Qc_of_Z 5, Qc_of_Z 3)))
    = Z.max 0 (Z.min 3 3 - Z.min 1 3).
Proof.
  split; [reflexivity|]. split; [reflexivity|].
  exact (proj1 (crop_image_pixels Exact.round Sample.picture
                  (Qc_of_Z 1, Qc_of_Z 1, Qc_of_Z 5, Qc_of_Z 3) 1 1 5 3 eq_refl
                  ltac:(lia) ltac:(lia) ltac:(lia) ltac:(lia))).
Defined.

(** ** The extraction tasks: what they return and when they fail *)

Module Upload_more_facts.
Import Py UploadPage Upload_facts.

Section worker.
Context `{PyFloat F}.
Context {pixel : Type}.
Local Abbreviation image := (list (list pixel)).
Context (py_round : F → Z) (format_3f : F → string)
        (cv2_rectangle : image → Z * Z → Z * Z → Z * Z * Z → Z → image)
        (cv2_getTextSize : string → Z * Z)
        (cv2_putText : image → string → Z * Z → image)
        (model_path : string) (os_path_exists : string → bool)
        (YOLO : string → option (image → Detection.prediction F)).
Context (cv2_imread : string → option image)
        (cv2_imwrite : string → image → option bool)
        (cv2_resize : image → Z * Z → image)
        (os_makedirs : string → option unit)
        (os_path_basename : string → string)
        (os_path_splitext : string → string * string)
        (os_path_join : string → string → string → string)
        (os_path_join2 : string → string → string)
        (upload_date : nat → string).

Local Abbreviation process_image_func :=
  (process_image_func py_round format_3f cv2_rectangle cv2_getTextSize cv2_putText
     model_path os_path_exists YOLO cv2_imread cv2_imwrite cv2_resize os_makedirs
     os_path_basename os_path_splitext os_path_join os_path_join2 upload_date).
Local Abbreviation submit_all :=
  (submit_all py_round format_3f cv2_rectangle cv2_getTextSize cv2_putText
     model_path os_path_exists YOLO cv2_imread cv2_imwrite cv2_resize os_makedirs
     os_path_basename os_path_splitext os_path_join os_path_join2 upload_date).
Local Abbreviation outcome :=
  (outcome py_round format_3f cv2_rectangle cv2_getTextSize cv2_putText
     model_path os_path_exists YOLO cv2_imread cv2_imwrite cv2_resize os_makedirs
     os_path_basename os_path_splitext os_path_join os_path_join2 upload_date).
Local Abbreviation make_inference_detection :=
  (Detection.make_inference_detection py_round format_3f cv2_rectangle cv2_getTextSize
     cv2_putText).

(** The first task that raises makes the submission raise. *)
Lemma submit_all_None (w : worker F) (l : list entry) index :
  submit_all w index l = None
  ↔ ∃ i e, l !! i = Some e ∧ outcome w (index + i) e = None.
Proof.
  revert index. induction l as [|e l IH]; intros index; simpl.
  - split; [done|]. by intros (i & e & Hi & _).
  - fold (outcome w index e).
    destruct (outcome w index e) as [f|] eqn:Hf; simpl.
    + destruct (submit_all w (S index) l) as [fs|] eqn:Hfs; simpl.
      * split; [done|]. intros ([|i] & e' & Hi & Hno); simpl in Hi.
        -- simplify_eq. rewrite Nat.add_0_r in Hno. by rewrite Hf in Hno.
        -- assert (submit_all w (S index) l = None) as Hnone; [|by rewrite Hfs in Hnone].
           apply IH. exists i, e'. split; [done|].
           by replace (S index + i)%nat with (index + S i)%nat by lia.
      * split; [|done]. intros _.
        destruct (proj1 (IH (S index)) Hfs) as (i & e' & Hi & Hno).
        exists (S i), e'. split; [done|].
        by replace (index + S i)%nat with (S index + i)%nat by lia.
    + split; [|done]. intros _. exists 0%nat, e. split; [done|].
      by rewrite Nat.add_0_r.
Qed.
End worker.
End Upload_more_facts.

Section upload_extras.
Context `{PyFloat F}.
Context {pixel : Type}.
Local Abbreviation image := (list (list pixel)).
Context (py_round : F → Z) (format_3f : F → string)
        (cv2_rectangle : image → Z * Z → Z * Z → Z * Z * Z → Z → image)
        (cv2_getTextSize : string → Z * Z)
        (cv2_putText : image → string → Z * Z → image)
        (model_path : string) (os_path_exists : string → bool)
        (YOLO : string → option (image → Detection.prediction F)).
Context (cv2_imread : string → option image)
        (cv2_imwrite : string → image → option bool)
        (cv2_resize : image → Z * Z → image)
        (os_makedirs : string → option unit)
        (os_path_basename : string → string)
        (os_path_splitext : string → string * string)
        (os_path_join : string → string → string → string)
        (os_path_join2 : string → string → string)
        (upload_date : nat → string)
        (time_time : nat → F).
Context (fsub fdiv ffloordiv fmod : F → F → F).

Local Abbreviation process_image_func :=
  (UploadPage.process_image_func py_round format_3f cv2_rectangle cv2_getTextSize cv2_putText
     model_path os_path_exists YOLO cv2_imread cv2_imwrite cv2_resize os_makedirs
     os_path_basename os_path_splitext os_path_join os_path_join2 upload_date).
Local Abbreviation outcome :=
  (UploadPage.outcome py_round format_3f cv2_rectangle cv2_getTextSize cv2_putText
     model_path os_path_exists YOLO cv2_imread cv2_imwrite cv2_resize os_makedirs
     os_path_basename os_path_splitext os_path_join os_path_join2 upload_date).
Local Abbreviation run :=
  (UploadPage.run py_round format_3f cv2_rectangle cv2_getTextSize cv2_putText
     model_path os_path_exists YOLO cv2_imread cv2_imwrite cv2_resize os_makedirs
     os_path_basename os_path_splitext os_path_join os_path_join2 upload_date
     time_time fsub fdiv ffloordiv fmod).
Local Abbreviation make_inference_detection :=
  (Detection.make_inference_detection py_round format_3f cv2_rectangle cv2_getTextSize
     cv2_putText).
Local Abbreviation generate_thumbnail :=
  (UploadPage.generate_thumbnail os_path_exists cv2_imread cv2_imwrite cv2_resize
     os_makedirs os_path_basename os_path_join2).
(** The paths of the two files a task writes. *)
Local Abbreviation bbox_path temp_images_dir user index confidence image_path :=
  (os_path_join temp_images_dir "bbox_images"
     ("bbox_" +:+ user +:+ "_" +:+ upload_date index +:+ "_" +:+ format_3f confidence
      +:+ "_" +:+ (os_path_splitext (os_path_basename image_path)).1 +:+ ".jpg")).
Local Abbreviation crop_path temp_images_dir user index confidence image_path :=
  (os_path_join temp_images_dir "crop_images"
     ("crop_" +:+ user +:+ "_" +:+ upload_date index +:+ "_" +:+ format_3f confidence
      +:+ "_" +:+ (os_path_splitext (os_path_basename image_path)).1 +:+ ".jpg")).

(** X10 (outcomes of a task).  [process_image_func] returns [None] exactly
    when the file cannot be read, or it is read and the loaded model
    reports no box on it.  It raises exactly when the file is read and
    then the model file is missing, or the model does not load, or the
    detection raises, or the detection returns and writing the overlay,
    writing the crop or making the thumbnail raises.  An unreadable file
    never raises.  [generate_thumbnail] raises exactly when the file it
    is given cannot be read, or the thumbnail directory is missing and
    cannot be made, or writing the thumbnail raises. *)
Theorem process_image_func_outcomes (index : nat)
    (image_path temp_images_dir group_name user : string) :
  (process_image_func index image_path temp_images_dir group_name user = Some None
   ↔ cv2_imread image_path = None
     ∨ ∃ img yolo, cv2_imread image_path = Some img
                   ∧ os_path_exists model_path = true
                   ∧ YOLO model_path = Some yolo
                   ∧ Detection.boxes (yolo img) = [])
  ∧ (process_image_func index image_path temp_images_dir group_name user = None
     ↔ ∃ img,
         cv2_imread image_path = Some img
         ∧ (os_path_exists model_path = false
            ∨ YOLO model_path = None
            ∨ ∃ yolo,
                YOLO model_path = Some yolo
                ∧ (make_inference_detection yolo img = None
                   ∨ ∃ bbox_image crop_image label confidence,
                       make_inference_detection yolo img
                       = Some (Some (bbox_image, crop_image, label, confidence))
                       ∧ (cv2_imwrite
                            (bbox_path temp_images_dir user index confidence image_path)
                            bbox_image = None
                          ∨ cv2_imwrite
                              (crop_path temp_images_dir user index confidence image_path)
                              crop_image = None
                          ∨ generate_thumbnail
                              (bbox_path temp_images_dir user index confidence image_path)
                              (os_path_join2 temp_images_dir "thumbnails") = None))))
  ∧ (∀ path thumbnail_dir,
       generate_thumbnail path thumbnail_dir = None
       ↔ cv2_imread path = None
         ∨ (os_path_exists thumbnail_dir = false ∧ os_makedirs thumbnail_dir = None)
         ∨ ∃ image, cv2_imread path = Some image
                    ∧ cv2_imwrite (os_path_join2 thumbnail_dir (os_path_basename path))
                        (cv2_resize image (150, 150)) = None).
Proof.
  split_and!.
  - destruct (cv2_imread image_path) as [img|] eqn:Himg.
    2:{ unfold UploadPage.process_image_func. rewrite Himg. split; [by left|done]. }
    rewrite (Upload_facts.process_image_func_readable py_round format_3f cv2_rectangle
               cv2_getTextSize cv2_putText model_path os_path_exists YOLO cv2_imread
               cv2_imwrite cv2_resize os_makedirs os_path_basename os_path_splitext
               os_path_join os_path_join2 upload_date index image_path temp_images_dir
               group_name user img Himg).
    rewrite Upload_facts.detection_main_one.
    destruct (os_path_exists model_path) eqn:Hex; simpl.
    2:{ split; [done|]. by intros [?|(? & ? & _ & ? & _)]. }
    destruct (YOLO model_path) as [yolo|] eqn:Hy; simpl.
    2:{ split; [done|]. by intros [?|(? & ? & _ & _ & ? & _)]. }
    pose proof (Detection_facts.make_inference_detection_None_iff py_round format_3f
                  cv2_rectangle cv2_getTextSize cv2_putText yolo img) as Hiff.
    destruct (make_inference_detection yolo img) as [[[[[b c] label] conf]|]|] eqn:Hd; simpl.
    + assert (Detection.boxes (yolo img) ≠ []) as Hne.
      { intros Hnil. by apply Hiff in Hnil. }
      destruct (cv2_imwrite _ b); simpl;
        [destruct (cv2_imwrite _ c); simpl;
           [destruct (UploadPage.generate_thumbnail _ _ _ _ _ _ _ _ _); simpl|]|].
      all: split; [done|]; intros [?|(img' & yolo' & ? & _ & ? & Hb)]; [done|];
        by simplify_eq.
    + split; [|done]. intros _. right. exists img, yolo. split_and!; [done..|].
      by apply Hiff.
    + split; [done|]. intros [?|(img' & yolo' & ? & _ & ? & Hb)]; [done|].
      simplify_eq. by apply Hiff in Hb.
  - destruct (cv2_imread image_path) as [img|] eqn:Himg.
    2:{ unfold UploadPage.process_image_func. rewrite Himg. split; [done|].
        by intros (? & ? & _). }
    rewrite (Upload_facts.process_image_func_readable py_round format_3f cv2_rectangle
               cv2_getTextSize cv2_putText model_path os_path_exists YOLO cv2_imread
               cv2_imwrite cv2_resize os_makedirs os_path_basename os_path_splitext
               os_path_join os_path_join2 upload_date index image_path temp_images_dir
               group_name user img Himg).
    rewrite Upload_facts.detection_main_one.
    destruct (os_path_exists model_path) eqn:Hex; simpl.
    2:{ split; [|done]. intros _. exists img. split; [done|]. by left. }
    destruct (YOLO model_path) as [yolo|] eqn:Hy; simpl.
    2:{ split; [|done]. intros _. exists img. split; [done|]. right. by left. }
    destruct (make_inference_detection yolo img) as [[[[[b c] label] conf]|]|] eqn:Hd; simpl.
    + destruct (cv2_imwrite _ b) as [wb|] eqn:Hwb; simpl.
      2:{ split; [|done]. intros _. exists img. split; [done|]. right. right.
          exists yolo. split; [done|]. right. exists b, c, label, conf.
          split; [done|]. by left. }
      destruct (cv2_imwrite _ c) as [wc|] eqn:Hwc; simpl.
      2:{ split; [|done]. intros _. exists img. split; [done|]. right. right.
          exists yolo. split; [done|]. right. exists b, c, label, conf.
          split; [done|]. right. by left. }
      destruct (UploadPage.generate_thumbnail _ _ _ _ _ _ _ _ _) as [t|] eqn:Ht; simpl.
      2:{ split; [|done]. intros _. exists img. split; [done|]. right. right.
          exists yolo. split; [done|]. right. exists b, c, label, conf.
          split; [done|]. right. by right. }
      split; [done|].
      intros (img' & ? & [?|[?|(yolo' & ? & [?|(b' & c' & label' & conf' & ? & Hw)])]]);
        simplify_eq.
      destruct Hw as [Hw|[Hw|Hw]]; [by rewrite Hwb in Hw|by rewrite Hwc in Hw|].
      by rewrite Ht in Hw.
    + split; [done|].
      intros (img' & ? & [?|[?|(yolo' & ? & [?|(b' & c' & label' & conf' & ? & Hw)])]]);
        by simplify_eq.
    + split; [|done]. intros _. exists img. split; [done|]. right. right.
      exists yolo. split; [done|]. by left.
  - intros path thumbnail_dir. unfold UploadPage.generate_thumbnail.
    destruct (cv2_imread path) as [image0|]; [|by split; [left|]].
    destruct (os_path_exists thumbnail_dir); simpl.
    + destruct (cv2_imwrite _ _) eqn:Hw; simpl.
      * split; [done|].
        intros [?|[[? _]|(image' & ? & Hw')]]; try done; simplify_eq; congruence.
      * split; [|done]. intros _. right. right. by exists image0.
    + destruct (os_makedirs thumbnail_dir); simpl.
      * destruct (cv2_imwrite _ _) eqn:Hw; simpl.
        -- split; [done|].
           intros [?|[[_ ?]|(image' & ? & Hw')]]; try done; simplify_eq; congruence.
        -- split; [|done]. intros _. right. right. by exists image0.
      * split; [|done]. intros _. right. by left.
Qed.
End upload_extras.

(** A box without area: the detection returns an empty crop, writing it
    raises, and so does the task. *)
Example process_image_func_empty_crop_raises :
  (∃ yolo, Sample.YOLO_flat Sample.model_path = Some yolo
           ∧ Detection.make_inference_detection (H := exact) Exact.round Exact.format_3f
               Sample.cv2_rectangle Sample.cv2_getTextSize Sample.cv2_putText
               yolo Sample.picture
             = Some (Some (Sample.picture, [], "rat", Detection.conf Sample.flat_box)))
  ∧ Sample.cv2_imwrite "tmp/crop_images/crop_kavi_20240101_120000_0.500_a.jpg" [] = None
  ∧ UploadPage.process_image_func (H := exact) Exact.round Exact.format_3f
      Sample.cv2_rectangle Sample.cv2_getTextSize Sample.cv2_putText
      Sample.model_path Sample.os_path_exists Sample.YOLO_flat
      Sample.cv2_imread Sample.cv2_imwrite Sample.cv2_resize Sample.os_makedirs
      Sample.os_path_basename Sample.os_path_splitext Sample.os_path_join
      Sample.os_path_join2 Sample.upload_date 0 "in/a.jpg" "tmp" "batch_1" "kavi"
    = None.
Proof.
  split; [eexists; split; [reflexivity|vm_compute; reflexivity]|].
  split; [reflexivity|vm_compute; reflexivity].
Qed.

(** ** Pages of thumbnails *)

Module Pagination_facts.
Import Py Pagination.

Lemma total_pages_spec (n : Z) :
  0 ≤ n → 1 ≤ total_pages n ∧ n ≤ total_pages n * 10
          ∧ (0 < n → (total_pages n - 1) * 10 < n).
Proof.
  intros Hn. unfold total_pages, images_per_page.
  pose proof (Z.div_mod (n + 10 - 1) 10 ltac:(lia)).
  pose proof (Z.mod_pos_bound (n + 10 - 1) 10 ltac:(lia)). lia.
Qed.

Lemma getitem_nonneg {A} (a : list A) (i : Z) :
  0 ≤ i → getitem a i = a !! Z.to_nat i.
Proof. intros Hi. unfold getitem. by rewrite decide_False by lia. Qed.

Lemma range_cons lo hi : lo < hi → range lo hi = lo :: range (lo + 1) hi.
Proof.
  intros Hlt. unfold range.
  replace (hi - lo) with (Z.succ (hi - (lo + 1))) by lia.
  rewrite seqZ_cons by lia. f_equal. f_equal; lia.
Qed.

Lemma range_nil lo hi : hi ≤ lo → range lo hi = [].
Proof. intros Hle. unfold range. apply seqZ_nil. lia. Qed.

Lemma thumbnails_spec {A} (l : list A) (items : list A) (lo : Z) (row col : Z) :
  0 ≤ lo → 0 ≤ col < 5 →
  items = take (length items) (drop (Z.to_nat lo) l) →
  thumbnails l (range lo (lo + Z.of_nat (length items))) row col
  = Some (imap (λ k x, (x, cell_from row col k)) items).
Proof.
  revert lo row col. induction items as [|x items IH]; intros lo row col Hlo Hcol Hitems.
  - simpl. rewrite range_nil by lia. done.
  - rewrite range_cons by (simpl; lia). cbn [thumbnails].
    rewrite getitem_nonneg by done.
    assert (l !! Z.to_nat lo = Some x ∧ items = take (length items) (drop (Z.to_nat (lo + 1)) l))
      as [Hx Hrest].
    { simpl in Hitems. destruct (drop (Z.to_nat lo) l) as [|y rest] eqn:Hd; [done|].
      simpl in Hitems. injection Hitems as -> Hitems.
      split.
      - rewrite <- (Nat.add_0_r (Z.to_nat lo)), <- lookup_drop, Hd. done.
      - replace (Z.to_nat (lo + 1)) with (S (Z.to_nat lo)) by lia.
        assert (drop (S (Z.to_nat lo)) l = rest) as ->; [|done].
        replace (S (Z.to_nat lo)) with (Z.to_nat lo + 1)%nat by lia.
        rewrite <- drop_drop, Hd. done. }
    rewrite Hx. cbn [mbind option_bind].
    replace (lo + Z.of_nat (length (x :: items)))
      with ((lo + 1) + Z.of_nat (length items)) by (simpl; lia).
    assert (cell_from row col 0 = (row, col)) as H0.
    { unfold cell_from. rewrite Z.add_0_r, Z.div_small, Z.mod_small by lia.
      f_equal. lia. }
    destruct (decide (col + 1 >= 5)) as [Hwrap|Hno].
    + rewrite IH by (done || lia). cbn [mbind option_bind]. f_equal. simpl. rewrite H0.
      f_equal. apply imap_ext. intros k y _. simpl. f_equal. unfold cell_from.
      assert (col = 4) as -> by lia.
      replace (4 + Z.of_nat (S k)) with (Z.of_nat k + 1 * 5) by lia.
      rewrite Z.div_add, Z.mod_add by lia. rewrite !Z.add_0_l. f_equal. lia.
    + rewrite IH by (done || lia). cbn [mbind option_bind]. f_equal. simpl. rewrite H0.
      f_equal. apply imap_ext. intros k y _. simpl. f_equal. unfold cell_from.
      replace (col + 1 + Z.of_nat k) with (col + Z.of_nat (S k)) by lia. done.
Qed.

Lemma update_thumbnails_spec {A} (s : pager A) :
  0 ≤ current_page s →
  update_thumbnails s
  = Some (imap (λ k x, (x, (Z.of_nat k `div` 5, Z.of_nat k `mod` 5)))
            (page_items (image_list s) (Z.to_nat (current_page s)))).
Proof.
  intros Hp. unfold update_thumbnails, images_per_page, len.
  set (items := page_items (image_list s) (Z.to_nat (current_page s))).
  assert (Z.of_nat (length items)
          = Z.max 0 (Z.min (current_page s * 10 + 10) (Z.of_nat (length (image_list s)))
                     - current_page s * 10)) as Hlen.
  { unfold items, page_items. rewrite length_take, length_drop. lia. }
  destruct (decide (current_page s * 10 <
                    Z.min (current_page s * 10 + 10) (Z.of_nat (length (image_list s)))))
    as [Hlt|Hge].
  - replace (Z.min (current_page s * 10 + 10) (Z.of_nat (length (image_list s))))
      with (current_page s * 10 + Z.of_nat (length items)) by lia.
    assert (items
            = take (length items) (drop (Z.to_nat (current_page s * 10)) (image_list s)))
      as Hitems.
    { unfold items, page_items.
      replace (Z.to_nat (current_page s * 10)) with (10 * Z.to_nat (current_page s))%nat
        by lia.
      set (rest := drop _ (image_list s)). rewrite length_take.
      destruct (decide (10 ≤ length rest)%nat).
      - by rewrite Nat.min_l by done.
      - rewrite Nat.min_r by lia. by rewrite !take_ge by lia. }
    rewrite (thumbnails_spec _ items) by (done || lia).
    reflexivity.
  - rewrite range_nil by lia. simpl.
    assert (items = []) as ->; [|done].
    apply nil_length_inv. lia.
Qed.

(** Cutting a list into pages and putting them together again. *)
Lemma concat_page_items {A} (l : list A) (k : nat) :
  (length l ≤ 10 * k)%nat → concat (page_items l <$> seq 0 k) = l.
Proof.
  revert l. induction k as [|k IH]; intros l Hlen.
  - destruct l; [done|simpl in Hlen; lia].
  - cbn [seq fmap list_fmap concat]. rewrite <- fmap_S_seq, <- list_fmap_compose.
    unfold page_items at 1. rewrite Nat.mul_0_r, drop_0.
    assert (concat (page_items l ∘ S <$> seq 0 k) = drop 10 l) as ->.
    { transitivity (concat (page_items (drop 10 l) <$> seq 0 k)).
      - f_equal. apply list_fmap_ext. intros _ p _. unfold page_items, compose.
        rewrite drop_drop. do 2 f_equal. lia.
      - apply IH. rewrite length_drop. lia. }
    apply take_drop.
Qed.
End Pagination_facts.

Module Pagination_more_facts.
Import Py Pagination Pagination_facts.

Lemma clicked_valid {A} (s : pager A) (c : click) :
  valid s → valid (clicked s c) ∧ image_list (clicked s c) = image_list s.
Proof.
  unfold valid. intros Hv.
  pose proof (total_pages_spec (len s) ltac:(unfold len; lia)) as (H1 & Hup & Hlow).
  destruct c as [| | | |page_num]; simpl.
  - unfold go_to_first_page, set_page, len. simpl. split; [|done]. fold (len s). lia.
  - unfold prev_page. case_decide; [|done].
    unfold set_page, len. simpl. split; [|done]. fold (len s). lia.
  - unfold next_page. case_decide as Hn; [|done].
    unfold set_page, len. simpl. split; [|done]. fold (len s).
    unfold images_per_page in Hn. lia.
  - unfold go_to_last_page, go_to_page. case_decide; [|done].
    unfold set_page, len. simpl. split; [|done]. fold (len s). lia.
  - unfold go_to_page. case_decide; [|done].
    unfold set_page, len. simpl. split; [|done]. fold (len s). lia.
Qed.

Lemma clicks_valid {A} (s : pager A) (clicks : list click) :
  valid s → valid (foldl clicked s clicks)
            ∧ image_list (foldl clicked s clicks) = image_list s.
Proof.
  revert s. induction clicks as [|c clicks IH]; intros s Hv; simpl; [done|].
  destruct (clicked_valid s c Hv) as [Hv' Hl].
  destruct (IH _ Hv') as [Hv'' Hl']. split; [done|]. by rewrite Hl', Hl.
Qed.

Lemma page_items_length {A} (l : list A) (p : nat) :
  length (page_items l p) = (10 `min` (length l - 10 * p))%nat.
Proof. unfold page_items. by rewrite length_take, length_drop. Qed.

Lemma page_items_lookup {A} (l : list A) (p k : nat) :
  (k < 10)%nat → page_items l p !! k = l !! (10 * p + k)%nat.
Proof. intros Hk. unfold page_items. rewrite lookup_take_lt by done. by rewrite lookup_drop. Qed.
End Pagination_more_facts.

Import Pagination.

(** X12 (the page stays valid).  Whatever buttons are clicked, in any
    order and with any page number, the current page stays one of the pages
    of the list and the list is not changed; the grid is then filled
    without an index error, with at most ten thumbnails and, when the list
    is not empty, at least one. *)
Theorem clicks_keep_page_valid {A : Type} (s : pager A) (clicks : list click) :
  valid s →
  valid (foldl clicked s clicks)
  ∧ image_list (foldl clicked s clicks) = image_list s
  ∧ ∃ cells, update_thumbnails (foldl clicked s clicks) = Some cells
      ∧ (length cells ≤ 10)%nat
      ∧ (image_list s ≠ [] → cells ≠ []).
Proof.
  intros Hv. destruct (Pagination_more_facts.clicks_valid s clicks Hv) as [Hv' Hl].
  split; [done|]. split; [done|].
  set (s' := foldl clicked s clicks) in *.
  destruct Hv' as [Hlo Hhi].
  rewrite Pagination_facts.update_thumbnails_spec by done.
  eexists. split; [done|]. rewrite length_imap, Pagination_more_facts.page_items_length.
  split; [lia|]. intros Hne Hnil.
  apply (f_equal length) in Hnil.
  rewrite length_imap, Pagination_more_facts.page_items_length in Hnil.
  change (length []) with 0%nat in Hnil.
  assert (0 < len s') as Hpos.
  { unfold len. rewrite Hl. destruct (image_list s); [done|simpl; lia]. }
  pose proof (Pagination_facts.total_pages_spec (len s') ltac:(lia)) as (_ & _ & Hlow).
  specialize (Hlow Hpos). unfold len in *. lia.
Qed.

(** Twenty-five images, from the first page: to the last page, one page
    on (refused), a page number out of range (refused), one page back. *)
Lemma clicks_keep_page_valid_witness :
  valid {| current_page := 0; image_list := seq 0 25 |}
  ∧ current_page (foldl clicked {| current_page := 0; image_list := seq 0 25 |}
                    [on_last; on_next; on_page 7; on_prev]) = 1
  ∧ valid (foldl clicked {| current_page := 0; image_list := seq 0 25 |}
             [on_last; on_next; on_page 7; on_prev]).
Proof.
  assert (valid {| current_page := 0; image_list := seq 0 25 |}) as Hv.
  { unfold valid. simpl. vm_compute. split; [intros Hc; discriminate|reflexivity]. }
  split; [exact Hv|]. split; [reflexivity|].
  exact (proj1 (clicks_keep_page_valid _ [on_last; on_next; on_page 7; on_prev] Hv)).
Defined.

(** X13 (the pages cover the list).  The grids of the pages 0 to
    [total_pages - 1], one after the other, show every image of the list
    exactly once and in the order of the list. *)
Theorem pages_partition_image_list {A : Type} (l : list A) :
  ∃ pages,
    mapM (λ p, update_thumbnails {| current_page := p; image_list := l |})
      (range 0 (total_pages (Z.of_nat (length l)))) = Some pages
    ∧ concat ((λ cells, cells.*1) <$> pages) = l.
Proof.
  pose proof (Pagination_facts.total_pages_spec (Z.of_nat (length l)) ltac:(lia))
    as (H1 & Hup & _).
  set (k := Z.to_nat (total_pages (Z.of_nat (length l)))).
  exists ((λ p, imap (λ k x, (x, (Z.of_nat k `div` 5, Z.of_nat k `mod` 5))) (page_items l p))
          <$> seq 0 k).
  split.
  - apply mapM_Some. unfold range. rewrite Z.sub_0_r.
    replace (seqZ 0 (total_pages (Z.of_nat (length l)))) with (Z.of_nat <$> seq 0 k).
    2:{ unfold seqZ. fold k. apply list_fmap_ext. intros _ i _. lia. }
    apply Forall2_fmap, Forall_Forall2_diag, Forall_forall. intros p _. simpl.
    rewrite Pagination_facts.update_thumbnails_spec by (simpl; lia). simpl.
    by rewrite Nat2Z.id.
  - rewrite <- list_fmap_compose.
    etrans; [|apply (Pagination_facts.concat_page_items l k); lia].
    f_equal. apply list_fmap_ext. intros _ p _. simpl.
    rewrite fmap_imap. simpl. clear. generalize (page_items l p). intros items.
    induction items as [|x items IH] using rev_ind; [done|].
    rewrite imap_app, IH. simpl. done.
Qed.

(** X14 (the navigation buttons).  On a valid page, "next" and "last" are
    enabled on exactly the same pages, all but the last one, although the
    code tests them differently, and "first" and "previous" on all but the
    first one; an enabled button changes the page and a disabled one would
    leave it. *)
Theorem navigation_buttons_agree {A : Type} (s : pager A) :
  valid s →
  let c := update_pagination s in
  next_enabled c = last_enabled c
  ∧ next_enabled c = bool_decide (current_page s ≠ total_pages (len s) - 1)
  ∧ first_enabled c = prev_enabled c
  ∧ prev_enabled c = bool_decide (current_page s ≠ 0)
  ∧ current_page (next_page s) = (if next_enabled c then current_page s + 1 else current_page s)
  ∧ current_page (go_to_last_page s) = total_pages (len s) - 1
  ∧ current_page (prev_page s) = (if prev_enabled c then current_page s - 1 else current_page s)
  ∧ current_page (go_to_first_page s) = 0.
Proof.
  intros [Hlo Hhi].
  pose proof (Pagination_facts.total_pages_spec (len s) ltac:(unfold len; lia))
    as (H1 & Hup & Hlow).
  assert ((current_page s + 1) * images_per_page < len s
          ↔ current_page s < total_pages (len s) - 1) as Hiff.
  { unfold images_per_page. split; [lia|]. intros Hlt.
    assert (0 < len s) as Hpos.
    { destruct (decide (0 < len s)); [done|].
      assert (len s = 0) as Hz by (unfold len in *; lia).
      rewrite Hz in Hlt. change (total_pages 0) with 1 in Hlt. lia. }
    specialize (Hlow Hpos). lia. }
  simpl. split_and!.
  - apply bool_decide_ext. exact Hiff.
  - apply bool_decide_ext. rewrite Hiff. lia.
  - done.
  - apply bool_decide_ext. lia.
  - unfold next_page. case_decide as Hn.
    + by rewrite bool_decide_eq_true_2.
    + by rewrite bool_decide_eq_false_2.
  - unfold go_to_last_page, go_to_page. rewrite decide_True by lia. done.
  - unfold prev_page. case_decide as Hn.
    + by rewrite bool_decide_eq_true_2.
    + by rewrite bool_decide_eq_false_2.
  - done.
Qed.

Lemma navigation_buttons_agree_witness :
  valid {| current_page := 2; image_list := seq 0 25 |}
  ∧ next_enabled (update_pagination {| current_page := 2; image_list := seq 0 25 |})
    = last_enabled (update_pagination {| current_page := 2; image_list := seq 0 25 |}).
Proof.
  assert (valid {| current_page := 2; image_list := seq 0 25 |}) as Hv.
  { unfold valid. simpl. vm_compute. split; [intros Hc; discriminate|reflexivity]. }
  split; [exact Hv|].
  exact (proj1 (navigation_buttons_agree _ Hv)).
Defined.

(** X15 (the page buttons).  On a valid page, [update_pagination] creates
    five page buttons, or one per page when there are fewer than five
    pages, for consecutive pages; each leads to a page of the list and is
    labelled with that page's number counted from 1; the button of the
    current page is among them, and it is the only one marked as
    selected. *)
Theorem page_buttons_window {A : Type} (s : pager A) :
  valid s →
  let buttons := page_buttons (update_pagination s) in
  Z.of_nat (length buttons) = Z.min 5 (total_pages (len s))
  ∧ (∃ start, buttons.*2 = seqZ start (Z.of_nat (length buttons)))
  ∧ Forall (λ b : string * bool * Z,
              0 ≤ b.2 < total_pages (len s)
              ∧ b.1.1 = str (b.2 + 1)
              ∧ (b.1.2 = true ↔ b.2 = current_page s)
              ∧ current_page (go_to_page s b.2) = b.2) buttons
  ∧ (str (current_page s + 1), true, current_page s) ∈ buttons.
Proof.
  intros [Hlo Hhi].
  pose proof (Pagination_facts.total_pages_spec (len s) ltac:(unfold len; lia))
    as (H1 & _ & _).
  simpl. unfold range, max_visible_pages.
  change (5 `div` 2) with 2.
  set (total := total_pages (len s)) in *.
  set (start := Z.max 0 (Z.min (current_page s - 2) (total - 5))).
  set (count := Z.min total (start + 5) - start).
  assert (count = Z.min 5 total) as Hcount by (unfold count, start; lia).
  split_and!.
  - rewrite length_fmap, length_seqZ. lia.
  - exists start. rewrite <- list_fmap_compose, length_fmap, length_seqZ.
    rewrite (list_fmap_ext _ id (seqZ start count)) by done.
    rewrite list_fmap_id. f_equal. lia.
  - apply Forall_fmap, Forall_forall. intros p Hp%elem_of_seqZ. simpl.
    split_and!; [lia|lia|done| |].
    + by rewrite bool_decide_eq_true.
    + unfold go_to_page. fold total. rewrite decide_True by lia. done.
  - apply list_elem_of_fmap. exists (current_page s). split.
    + by rewrite bool_decide_eq_true_2.
    + apply elem_of_seqZ. lia.
Qed.

Lemma page_buttons_window_witness :
  valid {| current_page := 6; image_list := seq 0 95 |}
  ∧ (page_buttons (update_pagination {| current_page := 6; image_list := seq 0 95 |})).*1.*1
    = ["5"; "6"; "7"; "8"; "9"]
  ∧ Z.of_nat (length (page_buttons
                        (update_pagination {| current_page := 6; image_list := seq 0 95 |})))
    = Z.min 5 (total_pages (len {| current_page := 6; image_list := seq 0 95 |})).
Proof.
  assert (valid {| current_page := 6; image_list := seq 0 95 |}) as Hv.
  { unfold valid. simpl. vm_compute. split; [intros Hc; discriminate|reflexivity]. }
  split; [exact Hv|]. split; [vm_compute; reflexivity|].
  exact (proj1 (page_buttons_window _ Hv)).
Defined.

(** X16 (the grid).  On a page that is not negative, no index of
    [update_thumbnails] is out of range ([self.image_list[i]] raises no
    [IndexError]); the [k]-th thumbnail it places is image
    [10 * current_page + k] of the list and goes to row [k // 5], column
    [k % 5], so a page fills at most two rows of five; a page at or beyond
    the end of the list shows nothing.  (The thumbnail files are not part
    of [Pagination.update_thumbnails]: whether [generate_thumbnail]
    succeeds on a missing one is not stated here.) *)
Theorem update_thumbnails_grid {A : Type} (s : pager A) :
  0 ≤ current_page s →
  ∃ cells,
    update_thumbnails s = Some cells
    ∧ Z.of_nat (length cells) = Z.max 0 (Z.min 10 (len s - 10 * current_page s))
    ∧ ∀ (k : nat) image row col,
        cells !! k = Some (image, (row, col)) →
        image_list s !! (10 * Z.to_nat (current_page s) + k)%nat = Some image
        ∧ row = Z.of_nat k `div` 5 ∧ col = Z.of_nat k `mod` 5
        ∧ 0 ≤ row < 2 ∧ 0 ≤ col < 5.
Proof.
  intros Hp. rewrite Pagination_facts.update_thumbnails_spec by done.
  eexists. split; [done|]. split.
  - rewrite length_imap, Pagination_more_facts.page_items_length. unfold len. lia.
  - intros k image row col Hk. rewrite list_lookup_imap in Hk.
    destruct (page_items _ _ !! k) as [x|] eqn:Hx; [|done]. simpl in Hk.
    injection Hk as -> <- <-.
    pose proof (lookup_lt_Some _ _ _ Hx) as Hlt.
    rewrite Pagination_more_facts.page_items_length in Hlt.
    rewrite Pagination_more_facts.page_items_lookup in Hx by lia.
    split; [done|]. split; [done|]. split; [done|].
    pose proof (Z.mod_pos_bound (Z.of_nat k) 5 ltac:(lia)).
    split; [|lia]. split.
    + apply Z.div_pos; lia.
    + apply Z.div_lt_upper_bound; lia.
Qed.

Lemma update_thumbnails_grid_witness :
  update_thumbnails {| current_page := 1; image_list := seq 0 17 |}
  = Some [(10%nat, (0, 0)); (11%nat, (0, 1)); (12%nat, (0, 2)); (13%nat, (0, 3));
          (14%nat, (0, 4)); (15%nat, (1, 0)); (16%nat, (1, 1))]
  ∧ ∃ cells,
      update_thumbnails {| current_page := 1; image_list := seq 0 17 |} = Some cells
      ∧ Z.of_nat (length cells)
        = Z.max 0 (Z.min 10 (len {| current_page := 1; image_list := seq 0 17 |} - 10 * 1)).
Proof.
  split; [vm_compute; reflexivity|].
  destruct (update_thumbnails_grid {| current_page := 1; image_list := seq 0 17 |})
    as (cells & Hcells & Hlen & _); [simpl; lia|].
  exists cells. split; [exact Hcells|exact Hlen].
Defined.

(** ** The upload page: storing the processed images *)

Module Saving_facts.
Import Py String_facts UploadPage UploadPageState.

(** [rsplit(sep, 1)] gives the text itself when it holds no separator,
    and otherwise the two parts around the last separator. *)
Lemma rsplit1_cases sep s :
  (occurs sep s = false ∧ rsplit1 sep s = [s])
  ∨ (∃ g a, rsplit1 sep s = [g; a] ∧ s = g +:+ String sep a ∧ occurs sep a = false).
Proof.
  induction s as [|c s IH]; simpl.
  - by left.
  - destruct IH as [[Hno Hr]|(g & a & Hr & -> & Ha)].
    + rewrite Hr. destruct (decide (c = sep)) as [->|Hne].
      * right. exists "", s. by rewrite app_nil.
      * left. split; [|done]. by rewrite bool_decide_eq_false_2.
    + rewrite Hr. right. exists (String c g), a. by rewrite app_cons.
Qed.

Lemma cleaned_and_animal_Some name g a :
  cleaned_and_animal name = Some (g, a) →
  name = g +:+ " " +:+ a ∧ rsplit1 " " name !! 0%nat = Some g.
Proof.
  unfold cleaned_and_animal.
  destruct (rsplit1_cases " " name) as [[_ Hr]|(g' & a' & Hr & -> & _)]; rewrite Hr; [done|].
  intros [= -> ->]. done.
Qed.

Lemma cleaned_and_animal_is_Some name :
  occurs " " name = true → is_Some (cleaned_and_animal name).
Proof.
  intros Hsp. unfold cleaned_and_animal.
  destruct (rsplit1_cases " " name) as [[Hno _]|(g' & a' & Hr & -> & _)].
  - by rewrite Hno in Hsp.
  - rewrite Hr. eauto.
Qed.

Section page.
Context {F : Type}.
Context (os_path_join : string → string → string)
        (os_path_basename : string → string)
        (temp_images_dir current_user : string)
        (strftime_now : nat → string)
        (map_popup : nat → string → option (Z * Z))
        (download_folder : option string).

Local Abbreviation insert_images :=
  (insert_images (F := F) os_path_join os_path_basename temp_images_dir current_user
     strftime_now).
Local Abbreviation store_group :=
  (store_group (F := F) os_path_join os_path_basename temp_images_dir current_user
     strftime_now).
Local Abbreviation process_groups :=
  (process_groups (F := F) os_path_join os_path_basename temp_images_dir current_user
     strftime_now map_popup download_folder).
Local Abbreviation save_complete :=
  (save_complete (F := F) os_path_join os_path_basename download_folder).

(** The rows added for the images of a group are those images, in order. *)
Lemma insert_images_Some location (imgs : list (processed F)) rows rows' :
  insert_images location imgs rows = Some rows' →
  ∃ new, rows' = rows ++ new ∧ row_image <$> new = imgs
         ∧ Forall (λ r, row_user r = current_user
                        ∧ row_location r = location_str location) new.
Proof.
  revert rows. induction imgs as [|[[[b c] x] name] imgs IH]; intros rows; simpl.
  - intros [= <-]. exists []. by rewrite app_nil_r.
  - destruct (cleaned_and_animal name) as [[g a]|] eqn:Hca; simpl; [|done].
    intros Hrest. destruct (IH _ Hrest) as (new & -> & Himgs & Hall).
    apply cleaned_and_animal_Some in Hca as [-> _].
    eexists (_ :: new). split; [by rewrite <- app_assoc|].
    split; [by rewrite fmap_cons, Himgs|]. by constructor.
Qed.

Lemma insert_images_is_Some location (imgs : list (processed F)) rows :
  Forall (λ p : processed F, occurs " " p.2 = true) imgs →
  is_Some (insert_images location imgs rows).
Proof.
  intros Himgs. revert rows.
  induction Himgs as [|[[[b c] x] name] imgs Hsp _ IH]; intros rows; simpl; [eauto|].
  destruct (cleaned_and_animal_is_Some name Hsp) as [[g a] ->]. simpl. apply IH.
Qed.

Lemma images_of_groups_cons (P : list (processed F)) g groups :
  images_of_groups P (g :: groups) = group_images P g ++ images_of_groups P groups.
Proof. done. Qed.

Lemma images_of_groups_app (P : list (processed F)) groups groups' :
  images_of_groups P (groups ++ groups')
  = images_of_groups P groups ++ images_of_groups P groups'.
Proof. unfold images_of_groups. apply bind_app. Qed.

(** What [process_next_group] has done when it returns: it stored the
    images of [k] further groups, and either stopped at a map that was
    closed, or went through all the groups and finished. *)
Lemma process_groups_Some remaining (s s' : page F) :
  (current_group_index s + remaining = length (group_data s))%nat →
  process_groups remaining s = Some s' →
  ∃ new k,
    inserted s' = inserted s ++ new
    ∧ (k ≤ remaining)%nat
    ∧ row_image <$> new
      = images_of_groups (processed_images s)
          (take k (drop (current_group_index s) (group_data s)))
    ∧ ((images_saved s' = images_saved s
        ∧ processed_images s' = processed_images s
        ∧ group_data s' = group_data s
        ∧ archives s' = archives s
        ∧ current_group_index s' = (current_group_index s + k)%nat
        ∧ ∃ g, group_data s !! (current_group_index s + k)%nat = Some g
               ∧ map_popup (current_group_index s + k)%nat g = None)
       ∨ (images_saved s' = S (images_saved s)
          ∧ processed_images s' = []
          ∧ group_data s' = []
          ∧ k = remaining
          ∧ ∃ extra, archives s' = archives s ++ extra
                     ∧ Forall (λ a : string * list (string * string), a.2 = []) extra)).
Proof.
  revert s. induction remaining as [|remaining IH]; intros s Hidx.
  - cbn [UploadPageState.process_groups]. unfold UploadPageState.save_complete.
    intros Hs'. exists [], 0%nat. rewrite app_nil_r.
    destruct download_folder as [folder|]; simpl in Hs'; injection Hs' as <-; simpl.
    + split_and!; [done..|]. right. split_and!; [done..|].
      eexists [_]. split; [done|]. by repeat constructor.
    + split_and!; [done..|]. right. split_and!; [done..|].
      exists []. split; [by rewrite app_nil_r|done].
  - cbn [UploadPageState.process_groups].
    destruct (lookup_lt_is_Some_2 (group_data s) (current_group_index s)) as [g Hg]; [lia|].
    rewrite Hg. cbn [mbind option_bind].
    rewrite (drop_S _ _ _ Hg).
    destruct (decide (group_images (processed_images s) g = [])) as [Hnil|Hne].
    + intros Hs'. apply IH in Hs'; [|simpl; lia]. simpl in Hs'.
      destruct Hs' as (new & k & Hins & Hk & Himgs & Hcase).
      exists new, (S k). split; [done|]. split; [lia|]. split.
      { cbn [take]. by rewrite images_of_groups_cons, Hnil. }
      replace (current_group_index s + S k)%nat with (S (current_group_index s) + k)%nat
        by lia.
      destruct Hcase as [Hstop|(? & ? & ? & -> & ?)]; [by left|right; done].
    + destruct (map_popup (current_group_index s) g) as [location|] eqn:Hpop.
      * unfold UploadPageState.store_group. rewrite Hg. cbn [mbind option_bind].
        destruct (insert_images location _ (inserted s)) as [rows|] eqn:Hrows;
          cbn [mbind option_bind]; [|done].
        destruct (insert_images_Some _ _ _ _ Hrows) as (new1 & -> & Himgs1 & _).
        intros Hs'. apply IH in Hs'; [|simpl; lia]. simpl in Hs'.
        destruct Hs' as (new & k & Hins & Hk & Himgs & Hcase).
        exists (new1 ++ new), (S k). split; [by rewrite Hins, app_assoc|].
        split; [lia|]. split.
        { cbn [take]. by rewrite images_of_groups_cons, fmap_app, Himgs1, Himgs. }
        replace (current_group_index s + S k)%nat with (S (current_group_index s) + k)%nat
          by lia.
        destruct Hcase as [Hstop|(? & ? & ? & -> & ?)]; [by left|right; done].
      * intros [= <-]. exists [], 0%nat. rewrite app_nil_r.
        split; [done|]. split; [lia|]. split; [done|]. left.
        rewrite Nat.add_0_r. split_and!; [done..|]. by exists g.
Qed.

(** With every map confirmed and a space in every group name, nothing
    raises. *)
Lemma process_groups_is_Some remaining (s : page F) :
  (∀ i g, is_Some (map_popup i g)) →
  Forall (λ p : processed F, occurs " " p.2 = true) (processed_images s) →
  (current_group_index s + remaining = length (group_data s))%nat →
  is_Some (process_groups remaining s).
Proof.
  intros Hall. revert s. induction remaining as [|remaining IH]; intros s Hsp Hidx.
  - cbn [UploadPageState.process_groups]. unfold UploadPageState.save_complete.
    destruct download_folder; simpl; eauto.
  - cbn [UploadPageState.process_groups].
    destruct (lookup_lt_is_Some_2 (group_data s) (current_group_index s)) as [g Hg]; [lia|].
    rewrite Hg. cbn [mbind option_bind].
    destruct (decide (group_images (processed_images s) g = [])) as [Hnil|Hne].
    + apply IH; [done|simpl; lia].
    + destruct (Hall (current_group_index s) g) as [location ->].
      unfold UploadPageState.store_group. rewrite Hg. cbn [mbind option_bind].
      destruct (insert_images_is_Some location (group_images (processed_images s) g)
                  (inserted s)) as [rows ->].
      { unfold group_images. apply Forall_forall. intros p [_ Hp]%list_elem_of_filter.
        by apply (proj1 (Forall_forall _ _) Hsp). }
      cbn [mbind option_bind]. apply IH; [done|simpl; lia].
Qed.

(** A run in which every map is confirmed stores the images of every
    group and finishes. *)
Lemma process_groups_confirmed remaining (s : page F) :
  (∀ i g, is_Some (map_popup i g)) →
  Forall (λ p : processed F, occurs " " p.2 = true) (processed_images s) →
  (current_group_index s + remaining = length (group_data s))%nat →
  ∃ s' new,
    process_groups remaining s = Some s'
    ∧ inserted s' = inserted s ++ new
    ∧ row_image <$> new
      = images_of_groups (processed_images s) (drop (current_group_index s) (group_data s))
    ∧ images_saved s' = S (images_saved s)
    ∧ processed_images s' = [] ∧ group_data s' = [].
Proof.
  intros Hall Hsp Hidx.
  destruct (process_groups_is_Some remaining s Hall Hsp Hidx) as [s' Hs'].
  destruct (process_groups_Some remaining s s' Hidx Hs')
    as (new & k & Hins & Hk & Himgs & [(_ & _ & _ & _ & _ & g & _ & Hpop)|Hdone]).
  { destruct (Hall (current_group_index s + k)%nat g) as [? Hsome].
    by rewrite Hsome in Hpop. }
  destruct Hdone as (Hsaved & HP & HG & -> & _).
  exists s', new. split_and!; [done|done| |done..].
  rewrite Himgs. f_equal. apply take_ge. rewrite length_drop. lia.
Qed.
Local Abbreviation save_images_to_database :=
  (UploadPageState.save_images_to_database (F := F) os_path_join os_path_basename
     temp_images_dir current_user strftime_now map_popup download_folder).

Lemma save_confirmed (s : page F) :
  (∀ i g, is_Some (map_popup i g)) →
  Forall (λ p : processed F, occurs " " p.2 = true) (processed_images s) →
  ∃ s' new,
    save_images_to_database true s = Some s'
    ∧ inserted s' = inserted s ++ new
    ∧ row_image <$> new = images_of_groups (processed_images s) (group_data s)
    ∧ images_saved s' = S (images_saved s)
    ∧ processed_images s' = [] ∧ group_data s' = [].
Proof.
  intros Hall Hsp.
  unfold UploadPageState.save_images_to_database, UploadPageState.process_next_group.
  cbn [group_data current_group_index]. rewrite Nat.sub_0_r.
  apply (process_groups_confirmed (length (group_data s))
           {| processed_images := processed_images s; group_data := group_data s;
              current_group_index := 0; inserted := inserted s;
              images_saved := images_saved s; archives := archives s |} Hall Hsp).
  done.
Qed.

Lemma save_Some (s s' : page F) :
  save_images_to_database true s = Some s' →
  ∃ new k,
    inserted s' = inserted s ++ new
    ∧ row_image <$> new = images_of_groups (processed_images s) (take k (group_data s))
    ∧ ((images_saved s' = images_saved s
        ∧ processed_images s' = processed_images s
        ∧ group_data s' = group_data s
        ∧ archives s' = archives s)
       ∨ (images_saved s' = S (images_saved s)
          ∧ ∃ extra, archives s' = archives s ++ extra
                     ∧ Forall (λ a : string * list (string * string), a.2 = []) extra)).
Proof.
  unfold UploadPageState.save_images_to_database, UploadPageState.process_next_group.
  cbn [group_data current_group_index]. rewrite Nat.sub_0_r. intros Hs'.
  apply process_groups_Some in Hs'; [|done]. simpl in Hs'.
  destruct Hs' as (new & k & Hins & _ & Himgs & Hcase).
  exists new, k. split; [done|]. split; [done|].
  destruct Hcase as [(? & ? & ? & ? & _)|(? & _ & _ & _ & ?)]; [by left|by right].
Qed.
End page.

Lemma images_of_groups_perm {F : Type} (P : list (processed F)) (groups : list string) :
  NoDup groups →
  images_of_groups P groups ≡ₚ filter (λ p, listed groups p = true) P.
Proof.
  induction 1 as [|g groups Hg Hnd IH].
  - unfold images_of_groups. simpl.
    induction P as [|p P IHP]; [done|].
    rewrite filter_cons_False; [done|]. unfold listed.
    destruct (group_of p); [|done]. rewrite bool_decide_eq_false_2; [done|].
    apply not_elem_of_nil.
  - rewrite images_of_groups_cons, IH. clear IH. unfold group_images.
    induction P as [|p P IHP]; [done|].
    rewrite !filter_cons.
    assert (listed (g :: groups) p = true
            ↔ group_of p = Some g ∨ listed groups p = true) as Hiff.
    { unfold listed. destruct (group_of p) as [g'|].
      - rewrite !bool_decide_eq_true, elem_of_cons. split.
        + intros [->|?]; [by left|by right].
        + intros [[= ->]|?]; [by left|by right].
      - split; [done|]. by intros [?|?]. }
    assert (group_of p = Some g → listed groups p ≠ true) as Hexcl.
    { intros Hpg. unfold listed. rewrite Hpg. by rewrite bool_decide_eq_false_2. }
    destruct (decide (group_of p = Some g)) as [Hpg|Hpg].
    + rewrite (decide_True (P := listed (g :: groups) p = true)) by (apply Hiff; by left).
      rewrite (decide_False (P := listed groups p = true)) by by apply Hexcl.
      simpl. by rewrite IHP.
    + destruct (decide (listed groups p = true)) as [Hl|Hl].
      * rewrite (decide_True (P := listed (g :: groups) p = true)) by (apply Hiff; by right).
        rewrite <- Permutation_middle. by rewrite IHP.
      * rewrite (decide_False (P := listed (g :: groups) p = true)); [done|].
        intros Hl'. apply Hiff in Hl'. tauto.
Qed.

Lemma elem_of_images_of_groups {F : Type} (P : list (processed F)) groups p :
  p ∈ images_of_groups P groups ↔ p ∈ P ∧ ∃ g, group_of p = Some g ∧ g ∈ groups.
Proof.
  unfold images_of_groups. rewrite list_elem_of_bind. split.
  - intros (g & Hp & Hg). unfold group_images in Hp.
    apply list_elem_of_filter in Hp as [Hpg Hp]. split; [done|]. by exists g.
  - intros (Hp & g & Hpg & Hg). exists g. split; [|done].
    unfold group_images. by apply list_elem_of_filter.
Qed.
End Saving_facts.

Section saving_extras.
Context {F : Type}.
Context (os_path_join : string → string → string)
        (os_path_basename : string → string)
        (temp_images_dir current_user : string)
        (strftime_now : nat → string)
        (map_popup confirm : nat → string → option (Z * Z))
        (download_folder : option string).

Local Abbreviation save_images_to_database := (λ popup,
  UploadPageState.save_images_to_database (F := F) os_path_join os_path_basename
    temp_images_dir current_user strftime_now popup download_folder).

(** X17 (each image stored once).  When the groups of the page are
    distinct, every processed image belongs to one of them and has a space
    in its group name, and every map is confirmed, [save_images_to_database]
    raises nothing and passes to [insert_image] exactly one row for each
    processed image; it then empties the two lists and emits the signal
    once. *)
Theorem save_stores_each_image_once (s : UploadPageState.page F) :
  (∀ i g, is_Some (confirm i g)) →
  Forall (λ p : UploadPage.processed F, occurs " " p.2 = true)
    (UploadPageState.processed_images s) →
  NoDup (UploadPageState.group_data s) →
  Forall (λ p, UploadPageState.listed (UploadPageState.group_data s) p = true)
    (UploadPageState.processed_images s) →
  ∃ s' new,
    save_images_to_database confirm true s = Some s'
    ∧ UploadPageState.inserted s' = UploadPageState.inserted s ++ new
    ∧ UploadPageState.row_image <$> new ≡ₚ UploadPageState.processed_images s
    ∧ UploadPageState.images_saved s' = S (UploadPageState.images_saved s)
    ∧ UploadPageState.processed_images s' = []
    ∧ UploadPageState.group_data s' = [].
Proof.
  intros Hall Hsp Hnd Hlisted.
  destruct (Saving_facts.save_confirmed os_path_join os_path_basename temp_images_dir
              current_user strftime_now confirm download_folder s Hall Hsp)
    as (s' & new & Hs' & Hins & Himgs & Hsaved & HP & HG).
  exists s', new. split; [exact Hs'|]. split; [done|]. split; [|done].
  rewrite Himgs, Saving_facts.images_of_groups_perm by done.
  clear -Hlisted. induction Hlisted as [|p P Hp _ IH]; [done|].
  rewrite filter_cons_True by done. by rewrite IH.
Qed.

(** X18 (what is stored).  With every map confirmed, the rows passed to
    [insert_image] are, group after group in the order of [group_data],
    the processed images whose group name without its last word is that
    group.  So an image is stored exactly when that prefix is one of the
    groups (an image with a label of two words is left out), and a group
    that [group_data] holds twice has its images stored twice. *)
Theorem save_stores_listed_groups (s : UploadPageState.page F) :
  (∀ i g, is_Some (confirm i g)) →
  Forall (λ p : UploadPage.processed F, occurs " " p.2 = true)
    (UploadPageState.processed_images s) →
  ∃ s' new,
    save_images_to_database confirm true s = Some s'
    ∧ UploadPageState.inserted s' = UploadPageState.inserted s ++ new
    ∧ UploadPageState.row_image <$> new
      = UploadPageState.group_data s
        ≫= UploadPage.group_images (UploadPageState.processed_images s)
    ∧ ∀ p, p ∈ UploadPageState.row_image <$> new
           ↔ p ∈ UploadPageState.processed_images s
             ∧ ∃ g, UploadPage.group_of p = Some g ∧ g ∈ UploadPageState.group_data s.
Proof.
  intros Hall Hsp.
  destruct (Saving_facts.save_confirmed os_path_join os_path_basename temp_images_dir
              current_user strftime_now confirm download_folder s Hall Hsp)
    as (s' & new & Hs' & Hins & Himgs & _).
  exists s', new. split; [exact Hs'|]. split; [done|]. split; [done|].
  intros p. rewrite Himgs. apply Saving_facts.elem_of_images_of_groups.
Qed.

(** X19 (a map closed without a location).  When
    [save_images_to_database] returns without having finished, a map was
    closed: the two lists are as before and the images of the groups
    confirmed so far are stored.  Saving again starts from the first
    group: with every map confirmed it stores the images of all the
    groups, those stored before a second time. *)
Theorem closed_map_repeats_rows (s s1 : UploadPageState.page F) :
  (∀ i g, is_Some (confirm i g)) →
  Forall (λ p : UploadPage.processed F, occurs " " p.2 = true)
    (UploadPageState.processed_images s) →
  save_images_to_database map_popup true s = Some s1 →
  UploadPageState.images_saved s1 = UploadPageState.images_saved s →
  ∃ new1 s2 rest,
    UploadPageState.inserted s1 = UploadPageState.inserted s ++ new1
    ∧ UploadPageState.processed_images s1 = UploadPageState.processed_images s
    ∧ UploadPageState.group_data s1 = UploadPageState.group_data s
    ∧ save_images_to_database confirm true s1 = Some s2
    ∧ UploadPageState.row_image <$> UploadPageState.inserted s2
      = (UploadPageState.row_image <$> UploadPageState.inserted s)
        ++ (UploadPageState.row_image <$> new1)
        ++ (UploadPageState.row_image <$> new1) ++ rest.
Proof.
  intros Hall Hsp Hs1 Hnot.
  apply Saving_facts.save_Some in Hs1.
  destruct Hs1 as (new1 & k & Hins & Himgs & [(_ & HP & HG & _)|[Hsaved _]]); [|lia].
  destruct (Saving_facts.save_confirmed os_path_join os_path_basename temp_images_dir
              current_user strftime_now confirm download_folder s1 Hall)
    as (s2 & new2 & Hs2 & Hins2 & Himgs2 & _); [by rewrite HP|].
  exists new1, s2,
    (UploadPageState.images_of_groups (UploadPageState.processed_images s)
       (drop k (UploadPageState.group_data s))).
  split; [done|]. split; [done|]. split; [done|]. split; [exact Hs2|].
  rewrite Hins2, Hins, !fmap_app, Himgs2, Himgs, HP, HG.
  rewrite <- Saving_facts.images_of_groups_app, take_drop.
  by rewrite <- app_assoc.
Qed.

(** X20 (the archive).  [download_images] raises on any list of processed
    images that is not empty, since it unpacks their four components into
    two names; and the storing empties the list before it offers the
    download, so every archive it writes has no entry: the processed images
    are never put into it. *)
Theorem archive_never_holds_an_image :
  (∀ processed : list (UploadPage.processed F),
     processed ≠ [] → UploadPageState.zip_entries os_path_basename processed = None)
  ∧ ∀ (confirmation : bool) (s s' : UploadPageState.page F),
      save_images_to_database map_popup confirmation s = Some s' →
      ∃ written, UploadPageState.archives s' = UploadPageState.archives s ++ written
                 ∧ Forall (λ a : string * list (string * string), a.2 = []) written.
Proof.
  split.
  - intros [|[[[b c] x] name] processed] Hne; [done|]. done.
  - intros [|] s s' Hs'.
    + apply Saving_facts.save_Some in Hs'.
      destruct Hs' as (new1 & k & _ & _ & [(_ & _ & _ & ->)|[_ (written & ? & ?)]]).
      * exists []. by rewrite app_nil_r.
      * by exists written.
    + injection Hs' as <-. exists []. by rewrite app_nil_r.
Qed.
End saving_extras.

Lemma save_stores_each_image_once_witness :
  ∃ s' new,
    Sample_page.save Sample_page.confirm Sample_page.page = Some s'
    ∧ UploadPageState.inserted s' = [] ++ new
    ∧ UploadPageState.row_image <$> new ≡ₚ Sample_page.processed_images.
Proof.
  destruct (save_stores_each_image_once Sample_page.os_path_join Sample.os_path_basename
              Sample_page.temp_images_dir Sample_page.current_user
              Sample_page.strftime_now Sample_page.confirm None Sample_page.page)
    as (s' & new & Hs' & Hins & Hperm & _).
  - intros i g. by eexists.
  - repeat constructor.
  - repeat constructor; rewrite ?elem_of_cons; [intros [?|?%elem_of_nil]; done
                                               |apply not_elem_of_nil].
  - repeat constructor.
  - exists s', new. split; [exact Hs'|]. split; [exact Hins|exact Hperm].
Defined.

(** Two groups of the same name: the three images are stored twice. *)
Lemma save_stores_listed_groups_witness :
  ∃ s' new,
    UploadPageState.save_images_to_database (F := Qc) Sample_page.os_path_join
      Sample.os_path_basename Sample_page.temp_images_dir Sample_page.current_user
      Sample_page.strftime_now Sample_page.confirm None true
      {| UploadPageState.processed_images :=
           [("b1", "c1", Qc_of_Z 1, "cam_1 rat"); ("b2", "c2", Qc_of_Z 1, "cam_1 brown rat")];
         UploadPageState.group_data := ["cam_1"; "cam_1"];
         UploadPageState.current_group_index := 0;
         UploadPageState.inserted := [];
         UploadPageState.images_saved := 0;
         UploadPageState.archives := [] |} = Some s'
    ∧ UploadPageState.inserted s' = [] ++ new
    ∧ UploadPageState.row_image <$> new
      = [("b1", "c1", Qc_of_Z 1, "cam_1 rat"); ("b1", "c1", Qc_of_Z 1, "cam_1 rat")].
Proof.
  edestruct (save_stores_listed_groups (F := Qc) Sample_page.os_path_join
               Sample.os_path_basename
               Sample_page.temp_images_dir Sample_page.current_user
               Sample_page.strftime_now Sample_page.confirm None)
    as (s' & new & Hs' & Hins & Himgs & _).
  3:{ exists s', new. split; [exact Hs'|]. split; [exact Hins|exact Himgs]. }
  - intros i g. by eexists.
  - repeat constructor.
Defined.

Lemma closed_map_repeats_rows_witness :
  ∃ s1, Sample_page.save Sample_page.close_second Sample_page.page = Some s1
    ∧ UploadPageState.images_saved s1 = 0%nat
    ∧ ∃ new1 s2 rest,
        UploadPageState.inserted s1 = [] ++ new1
        ∧ length new1 = 2%nat
        ∧ Sample_page.save Sample_page.confirm s1 = Some s2
        ∧ UploadPageState.row_image <$> UploadPageState.inserted s2
          = [] ++ (UploadPageState.row_image <$> new1)
               ++ (UploadPageState.row_image <$> new1) ++ rest.
Proof.
  eexists. split; [vm_compute; reflexivity|]. split; [reflexivity|].
  edestruct (closed_map_repeats_rows (F := Qc) Sample_page.os_path_join
               Sample.os_path_basename
               Sample_page.temp_images_dir Sample_page.current_user
               Sample_page.strftime_now Sample_page.close_second Sample_page.confirm None
               Sample_page.page)
    as (new1 & s2 & rest & Hins & _ & _ & Hs2 & Hrows).
  5:{ exists new1, s2, rest. split; [exact Hins|]. split; [|split; [exact Hs2|exact Hrows]].
      simpl in Hins. apply (f_equal length) in Hins. simpl in Hins. by rewrite <- Hins. }
  - intros i g. by eexists.
  - repeat constructor.
  - vm_compute. reflexivity.
  - reflexivity.
Defined.

(** ** The upload page: from the folder to the stored rows *)

Module Upload_flow_facts.
Import Py String_facts UploadPage UploadPageState Upload_facts.

Section upload.
Context (os_path_join : string → string → string)
        (os_path_basename : string → string)
        (os_path_splitext : string → string * string)
        (str_lower : string → string)
        (strftime_now : nat → string).

Local Abbreviation walk :=
  (walk os_path_join os_path_basename os_path_splitext str_lower strftime_now).

(** The walk adds images and groups: every image added is of a group
    added, and every group added has an image. *)
Lemma walk_spec k dirs new_images group_data :
  ∃ found groups,
    walk k dirs new_images group_data = (new_images ++ found, group_data ++ groups)
    ∧ Forall (λ e, group_name e ∈ groups) found
    ∧ Forall (λ g, ∃ e, e ∈ found ∧ group_name e = g) groups.
Proof.
  revert k new_images group_data.
  induction dirs as [|[root files] dirs IH]; intros k new_images group_data.
  - exists [], []. by rewrite !app_nil_r.
  - cbn [UploadPageState.walk].
    set (group := os_path_basename root +:+ "_" +:+ strftime_now k).
    set (here := images_in os_path_join os_path_splitext str_lower root group files).
    assert (Forall (λ e, group_name e = group) here) as Hhere.
    { unfold here, images_in. apply Forall_fmap, Forall_forall. by intros file _. }
    destruct (IH (S k) (new_images ++ here)
                (if decide (0 < length here)%nat then group_data ++ [group] else group_data))
      as (found & groups & -> & Hfound & Hgroups).
    rewrite <- app_assoc.
    destruct (decide (0 < length here)%nat) as [Hpos|Hzero].
    + exists (here ++ found), (group :: groups).
      rewrite <- app_assoc. split; [done|]. split.
      * apply Forall_app. split.
        -- eapply Forall_impl; [exact Hhere|]. intros e ->. by left.
        -- eapply Forall_impl; [exact Hfound|]. intros e He. by right.
      * constructor.
        -- destruct here as [|e here']; [simpl in Hpos; lia|].
           exists e. split; [by left|]. by apply Forall_cons in Hhere as [? _].
        -- eapply Forall_impl; [exact Hgroups|]. intros g (e & He & Hg).
           exists e. split; [|done]. apply elem_of_app. by right.
    + assert (here = []) as -> by (destruct here; [done|simpl in Hzero; lia]).
      exists found, groups. done.
Qed.
End upload.

Section worker.
Context `{PyFloat F}.
Context {pixel : Type}.
Local Abbreviation image := (list (list pixel)).
Context (py_round : F → Z) (format_3f : F → string)
        (cv2_rectangle : image → Z * Z → Z * Z → Z * Z * Z → Z → image)
        (cv2_getTextSize : string → Z * Z)
        (cv2_putText : image → string → Z * Z → image)
        (model_path : string) (os_path_exists : string → bool)
        (YOLO : string → option (image → Detection.prediction F)).
Context (cv2_imread : string → option image)
        (cv2_imwrite : string → image → option bool)
        (cv2_resize : image → Z * Z → image)
        (os_makedirs : string → option unit)
        (os_path_basename : string → string)
        (os_path_splitext : string → string * string)
        (os_path_join : string → string → string → string)
        (os_path_join2 : string → string → string)
        (upload_date : nat → string)
        (time_time : nat → F).
Context (fsub fdiv ffloordiv fmod : F → F → F).

Local Abbreviation process_image_func :=
  (process_image_func py_round format_3f cv2_rectangle cv2_getTextSize cv2_putText
     model_path os_path_exists YOLO cv2_imread cv2_imwrite cv2_resize os_makedirs
     os_path_basename os_path_splitext os_path_join os_path_join2 upload_date).
Local Abbreviation submit_all :=
  (submit_all py_round format_3f cv2_rectangle cv2_getTextSize cv2_putText
     model_path os_path_exists YOLO cv2_imread cv2_imwrite cv2_resize os_makedirs
     os_path_basename os_path_splitext os_path_join os_path_join2 upload_date).
Local Abbreviation outcome :=
  (outcome py_round format_3f cv2_rectangle cv2_getTextSize cv2_putText
     model_path os_path_exists YOLO cv2_imread cv2_imwrite cv2_resize os_makedirs
     os_path_basename os_path_splitext os_path_join os_path_join2 upload_date).
Local Abbreviation run :=
  (run py_round format_3f cv2_rectangle cv2_getTextSize cv2_putText
     model_path os_path_exists YOLO cv2_imread cv2_imwrite cv2_resize os_makedirs
     os_path_basename os_path_splitext os_path_join os_path_join2 upload_date
     time_time fsub fdiv ffloordiv fmod).

(** The label appended to the group name is one of the class names of
    the loaded model. *)
Lemma process_image_func_label index image_path temp_images_dir group_name user p :
  process_image_func index image_path temp_images_dir group_name user = Some (Some p) →
  ∃ yolo img k label,
    YOLO model_path = Some yolo
    ∧ cv2_imread image_path = Some img
    ∧ dict_get k (Detection.names (yolo img)) = Some label
    ∧ p.2 = group_name +:+ " " +:+ label.
Proof.
  intros Hp.
  destruct (process_image_func_Some py_round format_3f cv2_rectangle
              cv2_getTextSize cv2_putText model_path os_path_exists YOLO cv2_imread
              cv2_imwrite cv2_resize os_makedirs os_path_basename os_path_splitext
              os_path_join os_path_join2 upload_date index image_path temp_images_dir
              group_name user p Hp)
    as (yolo & img & b & c & label & conf & Himg & _ & Hyolo & Hd & _ & _ & _ & ->).
  exists yolo, img.
  assert (Detection.boxes (yolo img) ≠ []) as Hne.
  { intros Hnil.
    by rewrite Detection_facts.make_inference_detection_no_boxes in Hd. }
  destruct (Detection_facts.make_inference_detection_boxes py_round format_3f cv2_rectangle
              cv2_getTextSize cv2_putText yolo img Hne)
    as (m & best & first & _ & _ & _ & Hmid).
  rewrite Hmid in Hd.
  destruct (dict_get _ _) as [label'|] eqn:Hlabel; [|done]. simpl in Hd.
  exists (to_int (Detection.cls best)), label. split; [done|]. split; [done|].
  split; [|done]. by simplify_eq.
Qed.

(** What [run] hands over comes from the tasks. *)
Lemma run_processed workers (w w' : worker F) signals p :
  run workers w = Some (w', signals) →
  p ∈ UploadPage.processed_images w' →
  p ∈ UploadPage.processed_images w
  ∨ ∃ i e, images w !! i = Some e ∧ outcome w i e = Some (Some p).
Proof.
  intros Hrun Hp. unfold UploadPage.run in Hrun.
  destruct (decide (workers <= 0)); [done|].
  destruct (submit_all w 0 (images w)) as [futures|] eqn:Hsub; [|done].
  simpl in Hrun. rewrite collect_spec in Hrun. injection Hrun as <- _.
  simpl in Hp. apply elem_of_app in Hp as [Hp|Hp]; [by left|right].
  unfold successes in Hp. apply list_elem_of_omap in Hp as (f & Hf & Hfp).
  simpl in Hfp. subst f.
  apply list_elem_of_lookup in Hf as [i Hi].
  destruct (submit_all_outcomes _ _ _ _ _ _ _ _ _ _ _ _ _ _ _ _ _ _ _ _ _ Hsub) as [Hlen Hout].
  destruct (lookup_lt_is_Some_2 (images w) i) as [e He].
  { rewrite <- Hlen. by eapply lookup_lt_Some. }
  destruct (Hout i e He) as (f & Hf & Ho). exists i, e. split; [done|].
  rewrite Hi in Hf. by simplify_eq.
Qed.
End worker.
End Upload_flow_facts.

(** X21 (the page after processing).  [handle_processed_images] replaces
    the list shown and leaves the current page as it is.  From the first
    page the view stays valid; from a later page, when no more than ten
    times the page number of images were processed, the view is on a page
    that does not exist: the grid is empty, whatever was processed, and
    neither "next" nor "last" is enabled. *)
Theorem handle_processed_images_keeps_page {F A : Type}
    (processed : list (UploadPage.processed F)) (view : pager A) :
  let view' := UploadPageState.handle_processed_images processed view in
  (current_page view = 0 → valid view')
  ∧ (0 < current_page view →
     Z.of_nat (length processed) ≤ 10 * current_page view →
     ¬ valid view'
     ∧ update_thumbnails view' = Some []
     ∧ next_enabled (update_pagination view') = false
     ∧ last_enabled (update_pagination view') = false
     ∧ prev_enabled (update_pagination view') = true).
Proof.
  simpl. split.
  - intros Hz. unfold valid, len. simpl. rewrite Hz.
    pose proof (Pagination_facts.total_pages_spec (Z.of_nat (length processed))
                  ltac:(lia)). lia.
  - intros Hpos Hlen.
    pose proof (Pagination_facts.total_pages_spec (Z.of_nat (length processed))
                  ltac:(lia)) as (H1 & Hup & Hlow).
    assert (total_pages (Z.of_nat (length processed)) ≤ current_page view) as Hle.
    { destruct (decide (0 < Z.of_nat (length processed))) as [Hp|Hz].
      - specialize (Hlow Hp). lia.
      - replace (Z.of_nat (length processed)) with 0 by lia.
        change (total_pages 0) with 1. lia. }
    split_and!.
    + unfold valid, len. simpl. lia.
    + rewrite Pagination_facts.update_thumbnails_spec by (simpl; lia). simpl.
      assert (page_items processed (Z.to_nat (current_page view)) = []) as ->; [|done].
      apply nil_length_inv. rewrite Pagination_more_facts.page_items_length. lia.
    + unfold len. simpl. apply bool_decide_eq_false. unfold images_per_page. lia.
    + unfold len. simpl. apply bool_decide_eq_false. lia.
    + apply bool_decide_eq_true. lia.
Qed.

(** Twenty-five images uploaded, the third page shown, five images
    processed: the grid is empty. *)
Lemma handle_processed_images_keeps_page_witness :
  update_thumbnails
    (UploadPageState.handle_processed_images (F := Qc)
       (replicate 5 ("b", "c", Qc_of_Z 1, "g rat"))
       {| current_page := 2; image_list := seq 0 25 |}) = Some [].
Proof.
  refine (proj1 (proj2 (proj2 (handle_processed_images_keeps_page (F := Qc)
            (replicate 5 ("b", "c", Qc_of_Z 1, "g rat"))
            {| current_page := 2; image_list := seq 0 25 |}) _ _))).
  - simpl. lia.
  - simpl. lia.
Defined.

(** X22 (groups of the uploaded images).  [upload_images] only adds to the
    list shown and to the groups; every image it adds is of a group it
    adds and every group it adds has an image, so that, if every image
    shown belonged to a listed group before, it does so afterwards. *)
Theorem upload_images_keeps_groups
    (os_path_join : string → string → string) (os_path_basename : string → string)
    (os_path_splitext : string → string * string) (str_lower : string → string)
    (strftime_now : nat → string)
    (folder : option (list (string * list string))) (s : UploadPageState.uploads) :
  UploadPageState.grouped s →
  let s' := UploadPageState.upload_images os_path_join os_path_basename os_path_splitext
              str_lower strftime_now folder s in
  UploadPageState.grouped s'
  ∧ ∃ new groups,
      UploadPageState.image_list s' = UploadPageState.image_list s ++ new
      ∧ UploadPageState.upload_group_data s' = UploadPageState.upload_group_data s ++ groups
      ∧ Forall (λ e, UploadPage.group_name e ∈ groups) new
      ∧ Forall (λ g, ∃ e, e ∈ new ∧ UploadPage.group_name e = g) groups.
Proof.
  intros Hg. destruct folder as [dirs|]; simpl.
  2:{ split; [done|]. exists [], []. by rewrite !app_nil_r. }
  destruct (Upload_flow_facts.walk_spec os_path_join os_path_basename os_path_splitext
              str_lower strftime_now 0 dirs [] (UploadPageState.upload_group_data s))
    as (found & groups & -> & Hfound & Hgroups).
  rewrite app_nil_l.
  assert (UploadPageState.image_list s ++ found
          = if decide (found = []) then UploadPageState.image_list s
            else UploadPageState.image_list s ++ found) as <-.
  { destruct (decide (found = [])) as [->|]; [by rewrite app_nil_r|done]. }
  split.
  - unfold UploadPageState.grouped in *. simpl. apply Forall_app. split.
    + eapply Forall_impl; [exact Hg|]. intros e He. apply elem_of_app. by left.
    + eapply Forall_impl; [exact Hfound|]. intros e He. apply elem_of_app. by right.
  - exists found, groups. done.
Qed.

(** Two directories named [cam] visited within one second: the group is
    listed twice. *)
Lemma upload_images_keeps_groups_witness :
  UploadPageState.grouped
    {| UploadPageState.image_list := []; UploadPageState.upload_group_data := [] |}
  ∧ UploadPageState.upload_group_data
      (Sample_page.upload_images (Some Sample_page.dirs)
         {| UploadPageState.image_list := []; UploadPageState.upload_group_data := [] |})
    = ["cam_20240101_120000"; "cam_20240101_120000"]
  ∧ UploadPageState.grouped
      (Sample_page.upload_images (Some Sample_page.dirs)
         {| UploadPageState.image_list := []; UploadPageState.upload_group_data := [] |}).
Proof.
  assert (UploadPageState.grouped
            {| UploadPageState.image_list := []; UploadPageState.upload_group_data := [] |})
    as Hg by constructor.
  split; [exact Hg|]. split; [vm_compute; reflexivity|].
  exact (proj1 (upload_images_keeps_groups Sample_page.os_path_join Sample.os_path_basename
                  Sample.os_path_splitext Sample_page.str_lower (λ _, "20240101_120000")
                  (Some Sample_page.dirs) _ Hg)).
Defined.

Section upload_to_rows.
Context `{PyFloat F}.
Context {pixel : Type}.
Local Abbreviation image := (list (list pixel)).
Context (py_round : F → Z) (format_3f : F → string)
        (cv2_rectangle : image → Z * Z → Z * Z → Z * Z * Z → Z → image)
        (cv2_getTextSize : string → Z * Z)
        (cv2_putText : image → string → Z * Z → image)
        (model_path : string) (os_path_exists : string → bool)
        (YOLO : string → option (image → Detection.prediction F)).
Context (cv2_imread : string → option image)
        (cv2_imwrite : string → image → option bool)
        (cv2_resize : image → Z * Z → image)
        (os_makedirs : string → option unit)
        (os_path_basename : string → string)
        (os_path_splitext : string → string * string)
        (os_path_join : string → string → string → string)
        (os_path_join2 : string → string → string)
        (upload_date : nat → string)
        (time_time : nat → F).
Context (fsub fdiv ffloordiv fmod : F → F → F).
(** What the storing needs. *)
Context (temp_images_dir current_user : string)
        (strftime_now : nat → string)
        (confirm : nat → string → option (Z * Z))
        (download_folder : option string).

(** X23 (from the upload to the rows).  Take the images shown after any
    uploads, each of a listed group; let the worker process them, with a
    detector whose class names hold no space; then save, confirming every
    map.  Nothing raises, and every image the worker handed over is passed
    to [insert_image]; exactly once each when no group is listed twice. *)
Theorem processed_uploads_are_stored (s : UploadPageState.uploads) (workers : Z)
    (w' : UploadPage.worker F) (signals : list (UploadPage.signal F)) :
  UploadPageState.grouped s →
  (∀ yolo img k label,
     YOLO model_path = Some yolo →
     dict_get k (Detection.names (yolo img)) = Some label → occurs " " label = false) →
  (∀ i g, is_Some (confirm i g)) →
  UploadPage.run py_round format_3f cv2_rectangle cv2_getTextSize cv2_putText
    model_path os_path_exists YOLO cv2_imread cv2_imwrite cv2_resize os_makedirs
    os_path_basename os_path_splitext os_path_join os_path_join2 upload_date
    time_time fsub fdiv ffloordiv fmod workers
    (UploadPage.new_worker (UploadPageState.image_list s) temp_images_dir current_user)
  = Some (w', signals) →
  ∃ s',
    UploadPageState.save_images_to_database os_path_join2 os_path_basename temp_images_dir
      current_user strftime_now confirm download_folder true
      {| UploadPageState.processed_images := UploadPage.processed_images w';
         UploadPageState.group_data := UploadPageState.upload_group_data s;
         UploadPageState.current_group_index := 0;
         UploadPageState.inserted := [];
         UploadPageState.images_saved := 0;
         UploadPageState.archives := [] |} = Some s'
    ∧ Forall (λ p, p ∈ UploadPageState.row_image <$> UploadPageState.inserted s')
        (UploadPage.processed_images w')
    ∧ (NoDup (UploadPageState.upload_group_data s) →
       UploadPageState.row_image <$> UploadPageState.inserted s'
       ≡ₚ UploadPage.processed_images w').
Proof.
  intros Hgrouped Hnames Hall Hrun.
  assert (Forall (λ p : UploadPage.processed F,
                    occurs " " p.2 = true
                    ∧ UploadPageState.listed (UploadPageState.upload_group_data s) p = true)
            (UploadPage.processed_images w')) as Hp.
  { apply Forall_forall. intros p Hin.
    destruct (Upload_flow_facts.run_processed _ _ _ _ _ _ _ _ _ _ _ _ _ _ _ _ _ _ _ _ _ _ _ _ _ _ _
                Hrun Hin) as [Hnil|(i & e & He & Ho)].
    { by apply elem_of_nil in Hnil. }
    unfold UploadPage.outcome in Ho. simpl in Ho, He.
    apply Upload_flow_facts.process_image_func_label in Ho
      as (yolo & img & k & label & Hyolo & _ & Hlabel & Hp2).
    apply (Hnames _ _ _ _ Hyolo) in Hlabel. split.
    - rewrite Hp2, !String_facts.occurs_app. simpl. by rewrite orb_true_r.
    - unfold UploadPageState.listed, UploadPage.group_of. rewrite Hp2.
      change (UploadPage.group_name e +:+ " " +:+ label)
        with (UploadPage.group_name e +:+ String " " label).
      rewrite (String_facts.rsplit1_app " " (UploadPage.group_name e) label Hlabel).
      simpl. apply bool_decide_eq_true.
      apply (proj1 (Forall_forall _ _) Hgrouped e). by eapply list_elem_of_lookup_2. }
  apply Forall_and in Hp as [Hsp Hlisted].
  edestruct (Saving_facts.save_confirmed (F := F) os_path_join2 os_path_basename
               temp_images_dir current_user strftime_now confirm download_folder)
    as (s' & new & Hs' & Hins & Himgs & _); [exact Hall| |].
  2:{ exists s'. split; [exact Hs'|]. simpl in *. subst new. rewrite Himgs. split.
      - apply Forall_forall. intros p Hin.
        apply Saving_facts.elem_of_images_of_groups. split; [done|].
        pose proof (proj1 (Forall_forall _ _) Hlisted p Hin) as Hl.
        unfold UploadPageState.listed in Hl.
        destruct (UploadPage.group_of p) as [g|]; [|done].
        exists g. split; [done|]. by apply bool_decide_eq_true in Hl.
      - intros Hnd. rewrite Saving_facts.images_of_groups_perm by done.
        clear -Hlisted. induction Hlisted as [|p P Hp _ IH]; [done|].
        rewrite filter_cons_True by done. by rewrite IH. }
  done.
Qed.
End upload_to_rows.

(** The batch of two files of the sample environment, the first of which
    cannot be read: the image of the second is stored. *)
Lemma processed_uploads_are_stored_witness :
  ∃ w' signals s',
    Sample.run Sample.one_word 1 Sample.worker = Some (w', signals)
    ∧ UploadPage.processed_images w' ≠ []
    ∧ UploadPageState.save_images_to_database Sample_page.os_path_join
        Sample.os_path_basename "tmp" "kavi" Sample_page.strftime_now Sample_page.confirm
        None true
        {| UploadPageState.processed_images := UploadPage.processed_images w';
           UploadPageState.group_data := ["g1"; "g2"];
           UploadPageState.current_group_index := 0;
           UploadPageState.inserted := [];
           UploadPageState.images_saved := 0;
           UploadPageState.archives := [] |} = Some s'
    ∧ Forall (λ p, p ∈ UploadPageState.row_image <$> UploadPageState.inserted s')
        (UploadPage.processed_images w').
Proof.
  destruct (Sample.run Sample.one_word 1 Sample.worker) as [[w' signals]|] eqn:Hrun;
    [|vm_compute in Hrun; discriminate].
  exists w', signals.
  destruct (processed_uploads_are_stored (H := exact) Exact.round Exact.format_3f
              Sample.cv2_rectangle Sample.cv2_getTextSize Sample.cv2_putText
              Sample.model_path Sample.os_path_exists (Sample.YOLO Sample.one_word)
              Sample.cv2_imread Sample.cv2_imwrite Sample.cv2_resize Sample.os_makedirs
              Sample.os_path_basename
              Sample.os_path_splitext Sample.os_path_join Sample.os_path_join2
              Sample.upload_date Sample.time_time
              Qcminus Qcdiv Exact.floordiv Exact.fmod
              "tmp" "kavi" Sample_page.strftime_now
              Sample_page.confirm None
              {| UploadPageState.image_list := Sample.batch;
                 UploadPageState.upload_group_data := ["g1"; "g2"] |}
              1 w' signals)
    as (s' & Hs' & Hall & _).
  - repeat constructor; simpl; rewrite !elem_of_cons; auto.
  - intros yolo img k label Hyolo. injection Hyolo as <-.
    simpl. unfold Sample.one_word. simpl.
    repeat case_decide; intros [= <-]; reflexivity.
  - intros i g. by eexists.
  - exact Hrun.
  - exists s'. split; [reflexivity|]. split; [|split; [exact Hs'|exact Hall]].
    vm_compute in Hrun. injection Hrun as <- _. discriminate.
Defined.

(** ** Re-identification from the database page *)

Module Reid_facts.
Import Py String_facts Assembler_spec ReID Resolver_spec DatabasePage.

(** The final component of a path is unique. *)
Lemma final_component_unique sep p f f' :
  final_component sep p f → final_component sep p f' → f = f'.
Proof.
  intros [Hf [->|[d ->]]] [Hf' [Heq|[d' Heq]]].
  - done.
  - rewrite Heq, occurs_app in Hf. simpl in Hf.
    rewrite bool_decide_eq_true_2, orb_true_r in Hf by done. done.
  - subst f'. rewrite occurs_app in Hf'. simpl in Hf'.
    rewrite bool_decide_eq_true_2, orb_true_r in Hf' by done. done.
  - pose proof (rsplit1_app sep d f Hf) as Hr. rewrite Heq in Hr.
    rewrite (rsplit1_app sep d' f' Hf') in Hr. by simplify_eq.
Qed.

Lemma final_component_in_path name f :
  occurs "/" name = false → final_component "/" (path +:+ name) f → f = name.
Proof.
  intros Hname Hf. eapply final_component_unique; [exact Hf|].
  split; [done|]. right.
  by exists "app/detection_model/temporary_detected_images/crop_images".
Qed.

Lemma img_name_in_path name :
  occurs "/" name = false → img_name (path +:+ name) = Some name.
Proof.
  intros Hname. unfold img_name.
  destruct (split_last "/" (path +:+ name)) as (f & -> & Hf).
  f_equal. by apply final_component_in_path.
Qed.

Lemma injective_on_NoDup {A B} (f : A → B) (l : list A) x y :
  NoDup (f <$> l) → x ∈ l → y ∈ l → f x = f y → x = y.
Proof.
  intros Hnd [a Ha]%list_elem_of_lookup [b Hb]%list_elem_of_lookup Heq.
  assert (a = b) as ->; [|by simplify_eq].
  eapply NoDup_lookup; [exact Hnd| |].
  - by rewrite list_lookup_fmap, Ha.
  - rewrite list_lookup_fmap, Hb. simpl. by rewrite Heq.
Qed.

Lemma fetch_id_by_path_crop (images : list image_row) r :
  NoDup (cropped_image_path <$> images) → r ∈ images →
  fetch_id_by_path images (cropped_image_path r) = Some (id r).
Proof.
  intros Hnd Hr. unfold fetch_id_by_path.
  destruct (list_find_elem_of (λ r', cropped_image_path r' = cropped_image_path r) images r)
    as [[k r'] Hfind]; [done|done|].
  rewrite Hfind. simpl.
  apply list_find_Some in Hfind as (Hk & Heq & _).
  f_equal. f_equal. eapply injective_on_NoDup; [exact Hnd| |done|done].
  by eapply list_elem_of_lookup_2.
Qed.

Lemma fetch_image_path_by_reid_Some (images : list image_row) i b c t :
  fetch_image_path_by_reid images i = Some (b, c, t) →
  ∃ r, r ∈ images ∧ id r = i ∧ cropped_image_path r = c.
Proof.
  unfold fetch_image_path_by_reid.
  destruct (list_find _ images) as [[k r]|] eqn:Hfind; [|done].
  simpl. intros [= <- <- <-].
  apply list_find_Some in Hfind as (Hk & Heq & _).
  exists r. split; [by eapply list_elem_of_lookup_2|done].
Qed.

Lemma fetch_image_path_by_reid_is_Some (images : list image_row) i :
  i ∈ id <$> images → is_Some (fetch_image_path_by_reid images i).
Proof.
  intros (r & -> & Hr)%list_elem_of_fmap. unfold fetch_image_path_by_reid.
  destruct (list_find_elem_of (λ r', id r' = id r) images r) as [kr ->]; [done|done|].
  simpl. eauto.
Qed.

(** The crop paths handed to the identity resolution, and back. *)
Lemma elem_of_reid_list (images : list image_row) selected c :
  c ∈ reid_list images selected
  ↔ ∃ i b t, i ∈ selected ∧ fetch_image_path_by_reid images i = Some (b, c, t).
Proof.
  unfold reid_list. rewrite list_elem_of_omap. split.
  - intros (i & Hi & Hf).
    destruct (fetch_image_path_by_reid images i) as [[[b c'] t]|] eqn:Hfetch; [|done].
    simpl in Hf. injection Hf as ->. by exists i, b, t.
  - intros (i & b & t & Hi & Hf). exists i. split; [done|]. by rewrite Hf.
Qed.
End Reid_facts.

Import DatabasePage.

(** X24 (rows of a re-identification run).  Let the crops of the table be
    distinct files of the crop directory that all load.  Then
    [ReIDWorker.run] raises nothing: it emits 0, one value per selected
    image found, and the result; and from that result
    [handle_reid_finished] passes to [insert_reid_result] only rows whose
    image id is found and is a selected one, and at least one row for each
    selected image of the table.  Selected ids that the table does not
    hold are skipped. *)
Theorem reid_rows_point_to_selected_images `{PyFloat F} {image : Type}
    (load_and_preprocess_image : string → option image) (dist : image → image → Z)
    (images : list image_row) (selected_images : list Z) (run_datetime : string) :
  crops_in_path images →
  NoDup (cropped_image_path <$> images) →
  Forall (λ r, is_Some (load_and_preprocess_image (cropped_image_path r))) images →
  ∃ calls output,
    run load_and_preprocess_image dist images selected_images
    = Some (progress_updated 0 :: (progress_updated <$> calls) ++ [reid_finished output])
    ∧ length calls = length (reid_list images selected_images)
    ∧ Forall (λ row, ∃ i, image_id row = Some i ∧ i ∈ selected_images)
        (handle_reid_finished images run_datetime output)
    ∧ Forall (λ i, i ∈ id <$> images →
                   ∃ row, row ∈ handle_reid_finished images run_datetime output
                          ∧ image_id row = Some i) selected_images.
Proof.
  intros Hcrops Hnd Hload.
  set (L := reid_list images selected_images).
  assert (∀ c, c ∈ L →
            ∃ i r name, i ∈ selected_images ∧ r ∈ images ∧ id r = i
                        ∧ cropped_image_path r = c
                        ∧ c = path +:+ name ∧ occurs "/" name = false) as HL.
  { intros c (i & b & t & Hi & Hf)%Reid_facts.elem_of_reid_list.
    apply Reid_facts.fetch_image_path_by_reid_Some in Hf as (r & Hr & Hid & Hc).
    destruct (proj1 (Forall_forall _ _) Hcrops r Hr) as (name & Hname & Hno).
    exists i, r, name. rewrite <- Hc. done. }
  assert (Forall (λ p, is_Some (load_and_preprocess_image p)) L) as HloadL.
  { apply Forall_forall. intros c (i & r & name & _ & Hr & _ & <- & _)%HL.
    by apply (proj1 (Forall_forall _ _) Hload r). }
  destruct (Main_facts.main_returns load_and_preprocess_image dist L true HloadL)
    as [out0 Hcalls].
  destruct (Main_more_facts.main_output load_and_preprocess_image dist L true HloadL)
    as (calls & names & cl & Hmain & Hnames & _ & _ & _ & _ & Hcov & Hrange).
  assert (calls = Progress_spec.calls_from (length L) 0 (length L)) as Hc.
  { rewrite Hmain in Hcalls. by simplify_eq. }
  exists calls, (Assembler_spec.assembled names <$> cl).
  split; [unfold run; fold L; by rewrite Hmain|].
  split; [rewrite Hc; unfold Progress_spec.calls_from; by rewrite length_fmap, length_seq|].
  pose proof (Forall2_length _ _ _ Hnames) as Hlen.
  (* every listed index leads back to its crop and to the row of the table *)
  assert (∀ j, (j < length L)%nat →
            ∃ i, i ∈ selected_images
                 ∧ fetch_id_by_path images (path +:+ names !!! j) = Some i
                 ∧ ∀ c, L !! j = Some c →
                        ∀ r, r ∈ images → cropped_image_path r = c →
                             fetch_id_by_path images (path +:+ names !!! j) = Some (id r))
    as Hback.
  { intros j Hj.
    destruct (lookup_lt_is_Some_2 L j Hj) as [c Hcj].
    destruct (lookup_lt_is_Some_2 names j) as [n Hn]; [lia|].
    destruct (HL c) as (i & r & name & Hi & Hr & Hid & Hcr & Hcn & Hno).
    { by eapply list_elem_of_lookup_2. }
    pose proof (Forall2_lookup_lr _ _ _ _ _ _ Hnames Hcj Hn) as Hfinal.
    rewrite Hcn in Hfinal. apply Reid_facts.final_component_in_path in Hfinal; [|done].
    rewrite (list_lookup_total_correct _ _ _ Hn). subst n.
    rewrite <- Hcn, <- Hcr.
    exists i. split; [done|]. split.
    - rewrite Reid_facts.fetch_id_by_path_crop by done. by rewrite Hid.
    - intros c' Hc' r' Hr' Hcr'. rewrite Hcj in Hc'. injection Hc' as <-.
      rewrite Hcr, <- Hcr'. by apply Reid_facts.fetch_id_by_path_crop. }
  split.
  - apply Forall_forall. intros row Hrow. unfold handle_reid_finished in Hrow.
    apply list_elem_of_bind in Hrow as ([label members] & Hrow & Hentry).
    apply list_elem_of_fmap in Hrow as (img & -> & Himg).
    apply list_elem_of_fmap in Hentry as ([c l] & Hentry & Hcl).
    unfold Assembler_spec.assembled in Hentry. simpl in Hentry.
    injection Hentry as -> ->.
    apply list_elem_of_fmap in Himg as (j & -> & Hjl).
    destruct (Hback j) as (i & Hi & Hfetch & _).
    { apply (Hrange c). by exists l. }
    exists i. simpl. done.
  - apply Forall_forall. intros i Hi Hid.
    destruct (Reid_facts.fetch_image_path_by_reid_is_Some images i Hid) as [[[b c] t] Hfetch].
    assert (c ∈ L) as Hc'.
    { apply Reid_facts.elem_of_reid_list. by exists i, b, t. }
    apply Reid_facts.fetch_image_path_by_reid_Some in Hfetch as (r & Hr & Hrid & Hcr).
    apply list_elem_of_lookup in Hc' as [j Hj].
    pose proof (lookup_lt_Some _ _ _ Hj) as Hjlt.
    destruct (Hcov j Hjlt) as (k & (l & Hkl & Hjl) & _).
    destruct (Hback j Hjlt) as (_ & _ & _ & Hrow).
    specialize (Hrow c Hj r Hr Hcr).
    eexists {| run_id := names !!! j; image_id := Some i;
               reid_id := "ID-" +:+ str k; run_datetime := run_datetime |}.
    split; [|done]. unfold handle_reid_finished.
    apply list_elem_of_bind. exists (Assembler_spec.assembled names (k, l)). split.
    + unfold Assembler_spec.assembled. simpl. apply list_elem_of_fmap.
      exists (names !!! j). split; [by rewrite Hrow, Hrid|].
      apply list_elem_of_fmap. by exists j.
    + apply list_elem_of_fmap. by exists (k, l).
Qed.

Lemma reid_rows_point_to_selected_images_witness :
  ∃ calls output,
    Sample_table.run [1; 3; 9]
    = Some (progress_updated 0 :: (progress_updated <$> calls) ++ [reid_finished output])
    ∧ length calls = 2%nat
    ∧ Forall (λ row, ∃ i, image_id row = Some i ∧ i ∈ [1; 3; 9])
        (handle_reid_finished Sample_table.images "2024-01-01 12:00:00" output).
Proof.
  destruct (reid_rows_point_to_selected_images (H := binary64)
              Sample.load_and_preprocess_image Sample.dist Sample_table.images [1; 3; 9]
              "2024-01-01 12:00:00")
    as (calls & output & Hrun & Hlen & Hrows & _).
  - repeat constructor; eexists; (split; [reflexivity|vm_compute; reflexivity]).
  - apply (bool_decide_unpack _). vm_compute. exact I.
  - apply Forall_forall. intros r _. by eexists.
  - exists calls, output. split; [exact Hrun|]. split; [exact Hlen|exact Hrows].
Defined.


Section crop_paths.
Context `{PyFloat F}.
Context {pixel : Type}.
Local Abbreviation image := (list (list pixel)).
Context (py_round : F → Z) (format_3f : F → string)
        (cv2_rectangle : image → Z * Z → Z * Z → Z * Z * Z → Z → image)
        (cv2_getTextSize : string → Z * Z)
        (cv2_putText : image → string → Z * Z → image)
        (model_path : string) (os_path_exists : string → bool)
        (YOLO : string → option (image → Detection.prediction F)).
Context (cv2_imread : string → option image)
        (cv2_imwrite : string → image → option bool)
        (cv2_resize : image → Z * Z → image)
        (os_makedirs : string → option unit)
        (os_path_basename : string → string)
        (os_path_splitext : string → string * string)
        (os_path_join : string → string → string → string)
        (os_path_join2 : string → string → string)
        (upload_date : nat → string).

(** X26 (the crop path, from the upload to the re-identification).  Where
    [os.path.join] puts a [/] between its components, as on POSIX, and
    the user name, the date, the formatted confidence and the name of the
    uploaded file hold no [/], the crop path that [process_image_func]
    returns for the page's directory is a file of the directory in which
    [handle_reid_finished] looks: [format_output_dict] reduces the path to
    that file name, and prefixing the file name with the directory gives
    the stored path back. *)
Theorem crop_path_round_trip (index : nat) (image_path group_name user : string)
    (p : UploadPage.processed F) :
  (∀ a b c, os_path_join a b c = a +:+ "/" +:+ b +:+ "/" +:+ c) →
  occurs "/" user = false →
  occurs "/" (upload_date index) = false →
  occurs "/" (format_3f p.1.2) = false →
  occurs "/" (os_path_splitext (os_path_basename image_path)).1 = false →
  UploadPage.process_image_func py_round format_3f cv2_rectangle cv2_getTextSize cv2_putText
    model_path os_path_exists YOLO cv2_imread cv2_imwrite cv2_resize os_makedirs
    os_path_basename os_path_splitext os_path_join os_path_join2 upload_date
    index image_path "app/detection_model/temporary_detected_images" group_name user
  = Some (Some p) →
  ∃ name,
    p.1.1.2 = path +:+ name
    ∧ occurs "/" name = false
    ∧ img_name p.1.1.2 = Some name.
Proof.
  intros Hjoin Huser Hdate Hconf Hname Hp.
  destruct (Upload_facts.process_image_func_Some py_round format_3f cv2_rectangle
              cv2_getTextSize cv2_putText model_path os_path_exists YOLO cv2_imread
              cv2_imwrite cv2_resize os_makedirs os_path_basename os_path_splitext
              os_path_join os_path_join2 upload_date index image_path _ group_name user p Hp)
    as (yolo & img & b & c & label & conf & _ & _ & _ & _ & _ & _ & _ & ->).
  simpl in *. rewrite Hjoin.
  eexists. split; [reflexivity|].
  assert (occurs "/"
            ("crop_" +:+ user +:+ "_" +:+ upload_date index +:+ "_" +:+ format_3f conf
             +:+ "_" +:+ (os_path_splitext (os_path_basename image_path)).1 +:+ ".jpg")
          = false) as Hocc.
  { rewrite !String_facts.occurs_app, Huser, Hdate, Hconf, Hname. reflexivity. }
  split; [exact Hocc|].
  by apply (Reid_facts.img_name_in_path _ Hocc).
Qed.
End crop_paths.

Lemma crop_path_round_trip_witness :
  ∃ name,
    "app/detection_model/temporary_detected_images/crop_images/crop_kavi_20240101_120000_0.900_b.jpg"
    = path +:+ name
    ∧ occurs "/" name = false
    ∧ img_name
        "app/detection_model/temporary_detected_images/crop_images/crop_kavi_20240101_120000_0.900_b.jpg"
      = Some name.
Proof.
  apply (crop_path_round_trip (H := exact) Exact.round Exact.format_3f
           Sample.cv2_rectangle Sample.cv2_getTextSize Sample.cv2_putText
           Sample.model_path Sample.os_path_exists (Sample.YOLO Sample.one_word)
           Sample.cv2_imread Sample.cv2_imwrite Sample.cv2_resize Sample.os_makedirs
           Sample.os_path_basename
           Sample.os_path_splitext Sample.os_path_join Sample.os_path_join2 (λ _, "20240101_120000")
           0 "in/b.jpg" "g2" "kavi"
           ("app/detection_model/temporary_detected_images/bbox_images/bbox_kavi_20240101_120000_0.900_b.jpg",
            "app/detection_model/temporary_detected_images/crop_images/crop_kavi_20240101_120000_0.900_b.jpg",
            Detection.conf Sample.high_box, "g2 stoat")).
  - reflexivity.
  - reflexivity.
  - reflexivity.
  - vm_compute. reflexivity.
  - reflexivity.
  - vm_compute. reflexivity.
Defined.

Module Progress_bar_facts.
Import Py UploadPage UploadPageState.

Lemma values_set_app calls calls' :
  values_set (calls ++ calls') = values_set calls ++ values_set calls'.
Proof. unfold values_set. apply omap_app. Qed.

Section worker.
Context `{PyFloat F}.
Context (time_time : nat → F) (fsub fdiv ffloordiv fmod : F → F → F).

Lemma values_set_reports total start (a n : nat) :
  values_set ((report time_time fsub fdiv ffloordiv fmod total start <$> seq a n)
              ≫= on_signal)
  = (λ i : nat, Z.of_nat i + 2) <$> seq a n.
Proof.
  revert a. induction n as [|n IH]; intros a; [done|].
  cbn [seq fmap list_fmap]. rewrite bind_cons, values_set_app, IH.
  cbn. f_equal. lia.
Qed.

Lemma values_set_bar total start (n : nat) text results :
  values_set
    ([setValue 0; setFormat text]
     ++ (((report time_time fsub fdiv ffloordiv fmod total start <$> seq 0 n)
          ++ [result_ready results; processing_complete]) ≫= on_signal))
  = 0 :: ((λ i : nat, Z.of_nat i + 2) <$> seq 0 n).
Proof.
  rewrite values_set_app, bind_app, values_set_app, values_set_reports.
  cbn. by rewrite app_nil_r.
Qed.
End worker.
End Progress_bar_facts.

Section progress_bar.
Context `{PyFloat F}.
Context {pixel : Type}.
Local Abbreviation image := (list (list pixel)).
Context (py_round : F → Z) (format_3f : F → string)
        (cv2_rectangle : image → Z * Z → Z * Z → Z * Z * Z → Z → image)
        (cv2_getTextSize : string → Z * Z)
        (cv2_putText : image → string → Z * Z → image)
        (model_path : string) (os_path_exists : string → bool)
        (YOLO : string → option (image → Detection.prediction F)).
Context (cv2_imread : string → option image)
        (cv2_imwrite : string → image → option bool)
        (cv2_resize : image → Z * Z → image)
        (os_makedirs : string → option unit)
        (os_path_basename : string → string)
        (os_path_splitext : string → string * string)
        (os_path_join : string → string → string → string)
        (os_path_join2 : string → string → string)
        (upload_date : nat → string)
        (time_time : nat → F).
Context (fsub fdiv ffloordiv fmod : F → F → F).

(** X27 (the progress bar).  The worker emits the count of collected
    tasks, [i + 1], and the slot [update_progress] adds one again: for [n]
    images ([n] at least 1) the bar, whose maximum [process_images] sets to
    [n], is given the values 0, then 2, 3, ..., [n + 1].  It is never given
    1, and the last value is above the maximum. *)
Theorem progress_bar_counts_one_ahead (workers : Z) (image_list : list UploadPage.entry)
    (temp_images_dir user : string) (w' : UploadPage.worker F)
    (signals : list (UploadPage.signal F)) :
  UploadPage.run py_round format_3f cv2_rectangle cv2_getTextSize cv2_putText
    model_path os_path_exists YOLO cv2_imread cv2_imwrite cv2_resize os_makedirs
    os_path_basename os_path_splitext os_path_join os_path_join2 upload_date
    time_time fsub fdiv ffloordiv fmod workers
    (UploadPage.new_worker image_list temp_images_dir user) = Some (w', signals) →
  image_list ≠ [] →
  ∃ rest,
    UploadPageState.process_images_bar image_list signals
    = UploadPageState.setMaximum (Z.of_nat (length image_list)) :: rest
    ∧ UploadPageState.values_set rest
      = 0 :: ((λ i : nat, Z.of_nat i + 2) <$> seq 0 (length image_list))
    ∧ (1 ∉ UploadPageState.values_set rest)
    ∧ last (UploadPageState.values_set rest) = Some (Z.of_nat (length image_list) + 1).
Proof.
  intros Hrun Hne.
  assert (1 ≤ workers) as Hw.
  { unfold UploadPage.run in Hrun. destruct (decide (workers <= 0)); [done|lia]. }
  destruct (UploadPage.submit_all py_round format_3f cv2_rectangle cv2_getTextSize
              cv2_putText model_path os_path_exists YOLO cv2_imread cv2_imwrite cv2_resize
              os_makedirs os_path_basename os_path_splitext os_path_join os_path_join2
              upload_date (UploadPage.new_worker image_list temp_images_dir user) 0 image_list)
    as [futures|] eqn:Hsub.
  2:{ unfold UploadPage.run in Hrun. rewrite decide_False in Hrun by lia.
      simpl in Hrun. by rewrite Hsub in Hrun. }
  rewrite (Upload_facts.run_spec py_round format_3f cv2_rectangle cv2_getTextSize
             cv2_putText model_path os_path_exists YOLO cv2_imread cv2_imwrite cv2_resize
             os_makedirs os_path_basename os_path_splitext os_path_join os_path_join2
             upload_date time_time fsub fdiv ffloordiv fmod workers _ futures Hw Hsub)
    in Hrun.
  injection Hrun as _ <-. cbn [UploadPage.images UploadPage.new_worker].
  exists ([UploadPageState.setValue 0;
           UploadPageState.setFormat "Processing... Estimating remaining time."]
          ++ (((UploadPage.report time_time fsub fdiv ffloordiv fmod
                  (Z.of_nat (length image_list)) (time_time 0%nat)
                <$> seq 0 (length image_list))
               ++ [UploadPage.result_ready
                     (UploadPage.processed_images
                        (UploadPage.new_worker image_list temp_images_dir user)
                      ++ UploadPage.successes futures);
                   UploadPage.processing_complete]) ≫= UploadPageState.on_signal)).
  split; [unfold UploadPageState.process_images_bar; by rewrite decide_False|].
  rewrite Progress_bar_facts.values_set_bar.
  split; [done|]. split.
  - intros [?|(i & Hi & _)%list_elem_of_fmap]%elem_of_cons; lia.
  - clear Hsub. destruct image_list as [|e l _] using rev_ind; [done|].
    rewrite length_app. simpl. rewrite Nat.add_1_r, seq_S, fmap_app. simpl.
    rewrite app_comm_cons, last_snoc. f_equal. lia.
Qed.
End progress_bar.

Lemma progress_bar_counts_one_ahead_witness :
  ∃ w' signals rest,
    Sample.run Sample.one_word 1 Sample.worker = Some (w', signals)
    ∧ UploadPageState.process_images_bar Sample.batch signals
      = UploadPageState.setMaximum 2 :: rest
    ∧ UploadPageState.values_set rest = [0; 2; 3].
Proof.
  destruct (Sample.run Sample.one_word 1 Sample.worker) as [[w' signals]|] eqn:Hrun;
    [|vm_compute in Hrun; discriminate].
  destruct (progress_bar_counts_one_ahead (H := exact) Exact.round Exact.format_3f
              Sample.cv2_rectangle Sample.cv2_getTextSize Sample.cv2_putText
              Sample.model_path Sample.os_path_exists (Sample.YOLO Sample.one_word)
              Sample.cv2_imread Sample.cv2_imwrite Sample.cv2_resize Sample.os_makedirs
              Sample.os_path_basename
              Sample.os_path_splitext Sample.os_path_join Sample.os_path_join2
              Sample.upload_date Sample.time_time
              Qcminus Qcdiv Exact.floordiv Exact.fmod 1 Sample.batch "tmp" "kavi" w' signals
              Hrun ltac:(discriminate))
    as (rest & Hbar & Hvalues & _).
  exists w', signals, rest. split; [reflexivity|]. split; [exact Hbar|exact Hvalues].
Defined.
